(** * gabzmusikbox: the real-time audio delivery and control pipeline

    A shallow embedding of the non-UI logic of [PromptDjMidi]
    (src/index.tsx) together with the types of src/unnamed/part_002
    (types.ts), and the properties of the specification that concern the
    chunk scheduler, the playback state machine, the prompt and drum-mix
    pushes and the connection handling.  The elements that feed these
    handlers (src/unnamed/part_000, src/components/LyricWriter.ts,
    src/components/ToastMessage.ts) are embedded after them, with further
    properties of the handlers and of the elements at the end of the file.

    Modelling conventions.
    - The component is single threaded: every callback runs to completion.
      A callback is a function [State -> State]; what the outside world
      answers to a request issued by the callback (the remote session's
      reply, the outcome of a connect, the messages a new session delivers
      while the connect is pending) is an argument of the callback.  Other
      events are taken not to interleave with a callback that awaits.
    - Audio-clock times ([audioContext.currentTime], [nextStartTime],
      [AudioBuffer.duration]) are counted in sample frames of the 48 kHz
      context, as natural numbers [N]; the Web Audio clock and the length of
      a buffer are whole numbers of frames.  [bufferTime] (2 seconds) is
      therefore [2 * 48000] frames.  Prompt weights and drum volumes are
      rationals.  In the code these times are binary64 seconds, whose sums
      are rounded: the contiguity of the scheduled buffers and the running
      sum in [nextStartTime] are therefore stated on a second embedding of
      the handlers, [Seconds], with the times as binary64 numbers.
    - What a callback does to the outside world is appended to logs kept in
      the state: buffers handed to [source.start], pending [setTimeout]
      callbacks, toasts, commands sent to the remote session, calls of the
      throttled methods, and failures nobody catches. *)

From Stdlib Require Import QArith Qminmax Qround Lqa.
From Stdlib Require Floats.
From stdpp Require Import gmap strings list pretty.
Import PrimFloat.PrimFloatNotations.

Open Scope string_scope.
Open Scope list_scope.
Open Scope N_scope.

(** ** Types (types.ts) *)

Record Prompt := mkPrompt {
  promptId : string;
  text : string;
  weight : Q;
  cc : Z;
  color : string
}.

Inductive PlaybackState := stopped | playing | loading | paused.

#[global] Instance PlaybackState_eq_dec : EqDecision PlaybackState.
Proof. solve_decision. Defined.

Definition DRUM_STEM_TYPES : list string :=
  [ "KICK"; "SNARE"; "CLOSED_HI_HAT"; "OPEN_HI_HAT"; "LOW_TOM"; "MID_TOM";
    "HIGH_TOM"; "CRASH_CYMBAL"; "RIDE_CYMBAL"; "PERCUSSION" ].

(** [DrumMix = { [key in DrumStemType]?: number }]: a partial map from stem
    names to volumes.  A key that is absent and a key bound to [undefined]
    are the same to every test the code makes ([!== undefined]); both are
    [None] here. *)
Abbreviation DrumMix := (gmap string Q).

(** ** Constants of index.tsx *)

Definition DEFAULT_PROMPTS : list (string * string) :=
  [ ("#9900ff", "Bossa Nova"); ("#5200ff", "Chillwave");
    ("#ff25f6", "Drum and Bass"); ("#2af6de", "Post Punk");
    ("#ffdd28", "Shoegaze"); ("#2af6de", "Funk");
    ("#9900ff", "Chiptune"); ("#3dffab", "Lush Strings");
    ("#d8ff3e", "Sparkling Arpeggios"); ("#d9b2ff", "Staccato Rhythms");
    ("#3dffab", "Punchy Kick"); ("#ffdd28", "Dubstep");
    ("#ff25f6", "K Pop"); ("#d8ff3e", "Neo Soul");
    ("#5200ff", "Trip Hop"); ("#d9b2ff", "Thrash") ].

Definition DEFAULT_DRUM_MIX_SETTINGS : DrumMix :=
  list_to_map
    [ ("KICK", 0.75%Q); ("SNARE", 0.75%Q); ("CLOSED_HI_HAT", 0.6%Q);
      ("OPEN_HI_HAT", 0.5%Q); ("LOW_TOM", 0.4%Q); ("MID_TOM", 0.4%Q);
      ("HIGH_TOM", 0.4%Q); ("CRASH_CYMBAL", 0.5%Q); ("RIDE_CYMBAL", 0.5%Q);
      ("PERCUSSION", 0.5%Q) ].

(** Sample rate of the audio context, frames per second. *)
Definition sampleRate : N := 48000.

(** [private readonly bufferTime = 2], in seconds. *)
Definition bufferTime : N := 2.

(** The lookahead on the audio clock, in frames. *)
Definition lookahead : N := bufferTime * sampleRate.

(** The delay given to [setTimeout], in milliseconds. *)
Definition lookaheadDelay : N := bufferTime * 1000.

(** ** Messages of the remote session *)

Record FilteredPrompt := mkFiltered {
  filteredText : string;
  filteredReason : string
}.

(** One element of [serverContent.audioChunks].  [decoded] is what
    [decodeAudioData (decode data)] yields: the length of the buffer in
    frames, or [None] when decoding throws. *)
Record AudioChunk := mkChunk { decoded : option N }.

Record LiveMusicServerMessage := mkMessage {
  setupComplete : bool;
  filteredPrompt : option FilteredPrompt;
  audioChunks : option (list AudioChunk)
}.

(** ** Requests to the outside world and its answers *)

Inductive Command :=
  | CmdConnect
  | CmdSetWeightedPrompts (weightedPrompts : list Prompt)
  | CmdSetDrumMix (drumMix : DrumMix)
  | CmdPlay
  | CmdPause
  | CmdStop.

Inductive Reply := Fulfilled | Rejected (message : string).

(** The replies the remote session gives during one callback, one per
    command kind (no callback issues the same kind twice). *)
Record Remote := mkRemote {
  onSetWeightedPrompts : Reply;
  onSetDrumMix : Reply;
  onPlay : Reply;
  onPause : Reply;
  onStop : Reply
}.

(** Outcome of [ai.live.music.connect]: it fails with a message, or yields
    a session handle; [during] are the messages the new session delivers to
    [onmessage] before the connect promise resolves, each with the audio
    clock at its delivery. *)
Inductive ConnectReply :=
  | ConnectFailed (message : string)
  | Connected (handle : nat) (during : list (N * LiveMusicServerMessage)).

(** The two methods wrapped by [throttle]. *)
Inductive Throttled := SetSessionPrompts | SetSessionDrumMix.

(** A buffer handed to the audio clock: [source.connect(outputNode)],
    [source.start(when)]. *)
Record ScheduledBuffer := mkScheduled {
  node : nat;
  scheduledStartTime : N;
  duration : N
}.

(** Failures that leave a callback without being caught. *)
Inductive Fault :=
  | UnhandledRejection (c : Command) (message : string)
  | NoChunkInMessage
  | DecodeFailed.

(** ** The component's state *)

Record State := mkState {
  (* fields of PromptDjMidi *)
  prompts : list (string * Prompt);
  playbackState : PlaybackState;
  drumMixSettings : DrumMix;
  session : option nat;
  outputNode : nat;
  nextStartTime : N;
  filteredPrompts : gset string;
  connectionError : bool;
  (* pending setTimeout callbacks of the scheduler, by delay in ms *)
  timers : list N;
  (* logs of effects *)
  scheduled : list ScheduledBuffer;
  toasts : list string;
  sent : list Command;
  requested : list Throttled;
  uncaught : list Fault
}.

Definition with_prompts v s := mkState v (playbackState s) (drumMixSettings s) (session s) (outputNode s) (nextStartTime s) (filteredPrompts s) (connectionError s) (timers s) (scheduled s) (toasts s) (sent s) (requested s) (uncaught s).
Definition with_playbackState v s := mkState (prompts s) v (drumMixSettings s) (session s) (outputNode s) (nextStartTime s) (filteredPrompts s) (connectionError s) (timers s) (scheduled s) (toasts s) (sent s) (requested s) (uncaught s).
Definition with_drumMixSettings v s := mkState (prompts s) (playbackState s) v (session s) (outputNode s) (nextStartTime s) (filteredPrompts s) (connectionError s) (timers s) (scheduled s) (toasts s) (sent s) (requested s) (uncaught s).
Definition with_session v s := mkState (prompts s) (playbackState s) (drumMixSettings s) v (outputNode s) (nextStartTime s) (filteredPrompts s) (connectionError s) (timers s) (scheduled s) (toasts s) (sent s) (requested s) (uncaught s).
Definition with_outputNode v s := mkState (prompts s) (playbackState s) (drumMixSettings s) (session s) v (nextStartTime s) (filteredPrompts s) (connectionError s) (timers s) (scheduled s) (toasts s) (sent s) (requested s) (uncaught s).
Definition with_nextStartTime v s := mkState (prompts s) (playbackState s) (drumMixSettings s) (session s) (outputNode s) v (filteredPrompts s) (connectionError s) (timers s) (scheduled s) (toasts s) (sent s) (requested s) (uncaught s).
Definition with_filteredPrompts v s := mkState (prompts s) (playbackState s) (drumMixSettings s) (session s) (outputNode s) (nextStartTime s) v (connectionError s) (timers s) (scheduled s) (toasts s) (sent s) (requested s) (uncaught s).
Definition with_connectionError v s := mkState (prompts s) (playbackState s) (drumMixSettings s) (session s) (outputNode s) (nextStartTime s) (filteredPrompts s) v (timers s) (scheduled s) (toasts s) (sent s) (requested s) (uncaught s).
Definition with_timers v s := mkState (prompts s) (playbackState s) (drumMixSettings s) (session s) (outputNode s) (nextStartTime s) (filteredPrompts s) (connectionError s) v (scheduled s) (toasts s) (sent s) (requested s) (uncaught s).
Definition with_scheduled v s := mkState (prompts s) (playbackState s) (drumMixSettings s) (session s) (outputNode s) (nextStartTime s) (filteredPrompts s) (connectionError s) (timers s) v (toasts s) (sent s) (requested s) (uncaught s).
Definition with_toasts v s := mkState (prompts s) (playbackState s) (drumMixSettings s) (session s) (outputNode s) (nextStartTime s) (filteredPrompts s) (connectionError s) (timers s) (scheduled s) v (sent s) (requested s) (uncaught s).
Definition with_sent v s := mkState (prompts s) (playbackState s) (drumMixSettings s) (session s) (outputNode s) (nextStartTime s) (filteredPrompts s) (connectionError s) (timers s) (scheduled s) (toasts s) v (requested s) (uncaught s).
Definition with_requested v s := mkState (prompts s) (playbackState s) (drumMixSettings s) (session s) (outputNode s) (nextStartTime s) (filteredPrompts s) (connectionError s) (timers s) (scheduled s) (toasts s) (sent s) v (uncaught s).
Definition with_uncaught v s := mkState (prompts s) (playbackState s) (drumMixSettings s) (session s) (outputNode s) (nextStartTime s) (filteredPrompts s) (connectionError s) (timers s) (scheduled s) (toasts s) (sent s) (requested s) v.

(** The state the constructor leaves, for the prompts it is given. *)
Definition initial (ps : list (string * Prompt)) : State :=
  {| prompts := ps;
     playbackState := stopped;
     drumMixSettings := DEFAULT_DRUM_MIX_SETTINGS;
     session := None;
     outputNode := 0%nat;
     nextStartTime := 0;
     filteredPrompts := ∅;
     connectionError := true;
     timers := [];
     scheduled := [];
     toasts := [];
     sent := [];
     requested := [];
     uncaught := [] |}.

(** ** Effects *)

(** [this.toastMessage.show(message)] *)
Definition toast (message : string) (s : State) : State :=
  with_toasts (toasts s ++ [message]) s.

(** A call of a throttle-wrapped method.  The wrapper decides when the
    wrapped body runs; the call itself only asks for a push. *)
Definition request (t : Throttled) (s : State) : State :=
  with_requested (requested s ++ [t]) s.

Definition transmit (c : Command) (s : State) : State :=
  with_sent (sent s ++ [c]) s.

Definition fault (f : Fault) (s : State) : State :=
  with_uncaught (uncaught s ++ [f]) s.

Definition replyTo (env : Remote) (c : Command) : Reply :=
  match c with
  | CmdConnect => Fulfilled
  | CmdSetWeightedPrompts _ => onSetWeightedPrompts env
  | CmdSetDrumMix _ => onSetDrumMix env
  | CmdPlay => onPlay env
  | CmdPause => onPause env
  | CmdStop => onStop env
  end.

(** [this.session.play()], [.pause()], [.stop()]: the request is issued and
    its promise is dropped; a rejection reaches no handler. *)
Definition fireAndForget (env : Remote) (c : Command) (s : State) : State :=
  let s1 := transmit c s in
  match replyTo env c with
  | Fulfilled => s1
  | Rejected msg => fault (UnhandledRejection c msg) s1
  end.

(** [this.session] as a condition: a handle is truthy, [undefined] is not. *)
Definition hasSession (s : State) : bool :=
  match session s with
  | Some _ => true
  | None => false
  end.

(** [this.session && !this.connectionError] *)
Definition sessionLive (s : State) : bool :=
  hasSession s && negb (connectionError s).

(** ** The prompt map

    [Map<string, Prompt>] keeps its entries in insertion order;
    [values()] lists them in that order. *)

Fixpoint map_get (k : string) (m : list (string * Prompt)) : option Prompt :=
  match m with
  | [] => None
  | (k', v) :: m' => if decide (k = k') then Some v else map_get k m'
  end.

Fixpoint map_set (k : string) (v : Prompt) (m : list (string * Prompt))
  : list (string * Prompt) :=
  match m with
  | [] => [(k, v)]
  | (k', v') :: m' =>
      if decide (k = k') then (k, v) :: m' else (k', v') :: map_set k v m'
  end.

Definition values (m : list (string * Prompt)) : list Prompt := m.*2.

(** ** Playback control: pause, play, stop *)

(** [getPromptsToSend]: the prompt is kept when
    [!this.filteredPrompts.has(p.text) && p.weight !== 0]. *)
Definition active (filtered : gset string) (p : Prompt) : bool :=
  negb (bool_decide (text p ∈ filtered)) && negb (Qeq_bool (weight p) 0).

Definition getPromptsToSend (s : State) : list Prompt :=
  List.filter (active (filteredPrompts s)) (values (prompts s)).

(** [pause()].  The gain ramp on the old output node is not modelled; the
    old node is disconnected and a fresh one takes its place. *)
Definition pause (env : Remote) (s : State) : State :=
  let s1 := if sessionLive s then fireAndForget env CmdPause s else s in
  let s2 := with_playbackState paused s1 in
  let s3 := with_nextStartTime 0 s2 in
  with_outputNode (S (outputNode s3)) s3.

(** [play()] *)
Definition play (env : Remote) (s : State) : State :=
  match session s with
  | None => toast "Session not ready. Please wait or try reconnecting." s
  | Some _ =>
      let promptsToSend := getPromptsToSend s in
      if (length promptsToSend =? 0)%nat then
        pause env
          (toast "Add some sound flavor! Turn up a knob to play music." s)
      else
        let s1 := if sessionLive s then fireAndForget env CmdPlay s else s in
        with_playbackState loading s1
  end.

(** [stop()] *)
Definition stop (env : Remote) (s : State) : State :=
  let s1 := if sessionLive s then fireAndForget env CmdStop s else s in
  with_nextStartTime 0 (with_playbackState stopped s1).

(** ** The chunk scheduler (the audio branch of [onmessage]) *)

(** The part of the audio branch after the buffer is decoded
    (index.tsx, from [createBufferSource] to the end of the branch);
    [now] is [audioContext.currentTime], [dur] the buffer's duration. *)
Definition scheduleBuffer (now dur : N) (s : State) : State :=
  let s1 :=
    if nextStartTime s =? 0 then
      with_timers (timers s ++ [lookaheadDelay])
        (with_nextStartTime (now + lookahead) s)
    else s in
  if nextStartTime s1 <? now then
    with_nextStartTime 0 (with_playbackState loading s1)
  else
    let source := {| node := outputNode s1;
                     scheduledStartTime := nextStartTime s1;
                     duration := dur |} in
    with_nextStartTime (nextStartTime s1 + dur)
      (with_scheduled (scheduled s1 ++ [source]) s1).

(** [if (e.serverContent?.audioChunks !== undefined) { ... }] *)
Definition onAudioChunks (now : N) (chunks : list AudioChunk) (s : State)
  : State :=
  match playbackState s with
  | paused | stopped => s
  | playing | loading =>
      match chunks with
      | [] => fault NoChunkInMessage s
      | c :: _ =>
          match decoded c with
          | None => fault DecodeFailed s
          | Some dur => scheduleBuffer now dur s
          end
      end
  end.

(** The [onmessage] callback. *)
Definition onmessage (now : N) (e : LiveMusicServerMessage) (s : State)
  : State :=
  let s1 :=
    if setupComplete e then
      request SetSessionDrumMix (with_connectionError false s)
    else s in
  let s2 :=
    match filteredPrompt e with
    | Some f =>
        toast (filteredReason f)
          (with_filteredPrompts (filteredPrompts s1 ∪ {[ filteredText f ]}) s1)
    | None => s1
    end in
  match audioChunks e with
  | Some chunks => onAudioChunks now chunks s2
  | None => s2
  end.

(** The callback given to [setTimeout] when the lookahead is primed. *)
Definition lookaheadElapsed (s : State) : State :=
  match timers s with
  | [] => s
  | _ :: rest => with_timers rest (with_playbackState playing s)
  end.

(** ** Connection handling *)

(** The [onerror] callback. *)
Definition onerror (env : Remote) (s : State) : State :=
  toast "Connection error, please restart audio."
    (stop env (with_connectionError true s)).

(** The [onclose] callback. *)
Definition onclose (env : Remote) (s : State) : State :=
  toast "Connection error, please restart audio."
    (stop env (with_connectionError true s)).

Definition deliver (s : State) (d : N * LiveMusicServerMessage) : State :=
  onmessage d.1 d.2 s.

(** [connectToSession()] *)
Definition connectToSession (env : Remote) (c : ConnectReply) (s : State)
  : State :=
  let s1 := transmit CmdConnect s in
  match c with
  | Connected handle during =>
      with_session (Some handle) (fold_left deliver during s1)
  | ConnectFailed msg =>
      toast ("Failed to connect to music session: "
               ++ (if decide (msg = "") then "Unknown connection error"
                   else msg))
        (stop env (with_connectionError true s1))
  end.

(** ** Pushes to the remote session (bodies of the throttled methods) *)

(** Body of [setSessionPrompts]. *)
Definition setSessionPrompts (env : Remote) (s : State) : State :=
  if connectionError s || negb (hasSession s) then s
  else
    let promptsToSend := getPromptsToSend s in
    if (length promptsToSend =? 0)%nat then
      pause env (toast "There needs to be one active prompt to play." s)
    else
      let s1 := transmit (CmdSetWeightedPrompts promptsToSend) s in
      match onSetWeightedPrompts env with
      | Fulfilled => s1
      | Rejected msg => pause env (toast msg s1)
      end.

(** The loop that fills [drumMixToSend]. *)
Definition normalizeDrumMix (mix : DrumMix) : DrumMix :=
  fold_left
    (fun (toSend : DrumMix) stem =>
       <[ stem := match mix !! stem with
                  | Some v => v
                  | None => 0.0%Q
                  end ]> toSend)
    DRUM_STEM_TYPES ∅.

(** Body of [setSessionDrumMix]. *)
Definition setSessionDrumMix (env : Remote) (s : State) : State :=
  if connectionError s || negb (hasSession s) then s
  else
    let drumMixToSend := normalizeDrumMix (drumMixSettings s) in
    let s1 := transmit (CmdSetDrumMix drumMixToSend) s in
    match onSetDrumMix env with
    | Fulfilled => s1
    | Rejected msg => toast ("Error setting drum mix: " ++ msg) s1
    end.

(** ** User edits *)

Definition dispatchPromptsChange (s : State) : State :=
  request SetSessionPrompts s.

Definition setPrompts (newPrompts : list (string * Prompt)) (s : State)
  : State :=
  dispatchPromptsChange (with_prompts newPrompts s).

(** [handlePromptChanged]: the detail carries [promptId], [text], [weight]
    and [cc]; the stored prompt keeps its identity and colour. *)
Definition handlePromptChanged (detail : Prompt) (s : State) : State :=
  match map_get (promptId detail) (prompts s) with
  | None => s
  | Some prompt =>
      let prompt' := {| promptId := promptId prompt;
                        text := text detail;
                        weight := weight detail;
                        cc := cc detail;
                        color := color prompt |} in
      setPrompts (map_set (promptId detail) prompt' (prompts s)) s
  end.

Definition handleDrumMixChanged (detail : DrumMix) (s : State) : State :=
  request SetSessionDrumMix (with_drumMixSettings detail s).

(** [buildDefaultPrompts]: [startOn] are the indices of the three prompts
    the shuffle picked. *)
Definition buildDefaultPrompts (startOn : list nat)
  : list (string * Prompt) :=
  imap
    (fun i (d : string * string) =>
       let id := ("prompt-" ++ pretty i)%string in
       (id, {| promptId := id;
               text := d.2;
               weight := if bool_decide (i ∈ startOn) then 1 else 0;
               cc := Z.of_nat i;
               color := d.1 |}))
    DEFAULT_PROMPTS.

(** [resetAll] (the lyrics pad is outside the model). *)
Definition resetAll (startOn : list nat) (s : State) : State :=
  let s1 := setPrompts (buildDefaultPrompts startOn) s in
  let s2 := with_drumMixSettings DEFAULT_DRUM_MIX_SETTINGS s1 in
  let s3 := request SetSessionDrumMix s2 in
  toast "✨ Fresh Start! All sound shapers and drum mix reset. Lyrics pad cleared." s3.

(** [handlePlayPause] *)
Definition handlePlayPause (env : Remote) (c : ConnectReply) (s : State)
  : State :=
  match playbackState s with
  | playing => pause env s
  | paused | stopped =>
      if connectionError s || negb (hasSession s) then
        let s1 :=
          connectToSession env c (toast "Reconnecting Lyria session..." s) in
        if negb (connectionError s1) && hasSession s1
        then
          play env (request SetSessionDrumMix (request SetSessionPrompts s1))
        else
          with_playbackState stopped
            (toast "Failed to reconnect Lyria. Please check console." s1)
      else play env s
  | loading => stop env s
  end.

(** [firstUpdated] *)
Definition firstUpdated (env : Remote) (c : ConnectReply) (s : State)
  : State :=
  let s1 := connectToSession env c s in
  let s2 := request SetSessionPrompts s1 in
  if negb (connectionError s2) then request SetSessionDrumMix s2 else s2.

(** ** The event loop *)

Inductive Event :=
  | EvFirstUpdated (env : Remote) (c : ConnectReply)
  | EvMessage (now : N) (e : LiveMusicServerMessage)
  | EvError (env : Remote)
  | EvClose (env : Remote)
  | EvLookaheadElapsed
  | EvPlayPause (env : Remote) (c : ConnectReply)
  | EvPromptChanged (detail : Prompt)
  | EvDrumMixChanged (detail : DrumMix)
  | EvResetAll (startOn : list nat)
  | EvPushPrompts (env : Remote)
  | EvPushDrumMix (env : Remote).

Definition step (ev : Event) (s : State) : State :=
  match ev with
  | EvFirstUpdated env c => firstUpdated env c s
  | EvMessage now e => onmessage now e s
  | EvError env => onerror env s
  | EvClose env => onclose env s
  | EvLookaheadElapsed => lookaheadElapsed s
  | EvPlayPause env c => handlePlayPause env c s
  | EvPromptChanged detail => handlePromptChanged detail s
  | EvDrumMixChanged detail => handleDrumMixChanged detail s
  | EvResetAll startOn => resetAll startOn s
  | EvPushPrompts env => setSessionPrompts env s
  | EvPushDrumMix env => setSessionDrumMix env s
  end.

Definition run (evs : list Event) (s : State) : State :=
  fold_left (fun st ev => step ev st) evs s.

Inductive reachable : State -> Prop :=
  | reachable_initial ps : reachable (initial ps)
  | reachable_step ev s : reachable s -> reachable (step ev s).

(** ** The throttle *)

Module Throttle.

(** The helper [throttle] (imported from utils/throttle) is not among the
    sources; this module stands for it.  The specification asks for "at
    most one outbound push per fixed interval", a push that "always carries
    the latest state at trigger time, never a queued history of
    intermediate states", and "a trailing push [that] must fire after the
    interval even if no further edits occur".  Wall-clock times are in
    milliseconds. *)
Section Wrapper.
Context {St : Type}.
Variable interval : N.
Variable body : St -> St.

(** How many calls of the wrapped method the state has on record: the
    handlers of the component log each call they make. *)
Variable calls : St -> nat.

(** Modelled from the spec: the state of a throttled method, which is
    missing from the sources.  [target] is the object the wrapped body
    reads and changes, [deadline] the time at which the armed timer fires
    ([None] when no push is pending), [pushes] the number of times the body
    has run. *)
Record T := mk {
  target : St;
  deadline : option N;
  pushes : nat
}.









End Wrapper.

Arguments T : clear implicits.

End Throttle.


#[global] Instance Throttled_eq_dec : EqDecision Throttled.
Proof. solve_decision. Defined.


(** ** Properties: vocabulary *)

(** The message that carries one chunk decoding to [dur] frames. *)
Definition chunkMessage (dur : N) : LiveMusicServerMessage :=
  {| setupComplete := false; filteredPrompt := None;
     audioChunks := Some [ {| decoded := Some dur |} ] |}.

(** The duration of the buffer a message gives the scheduler, if any. *)
Definition chunkOf (e : LiveMusicServerMessage) : option N :=
  match audioChunks e with
  | Some (c :: _) => decoded c
  | _ => None
  end.

Definition gateOpen (s : State) : Prop :=
  playbackState s = playing \/ playbackState s = loading.

(** The start time the scheduler works with once the first-chunk test has
    run: the lookahead ahead of the clock when [nextStartTime] is unset,
    [nextStartTime] otherwise. *)
Definition primed (now : N) (s : State) : N :=
  if nextStartTime s =? 0 then now + lookahead else nextStartTime s.

(** The scheduler's underrun test. *)
Definition underrun (now : N) (s : State) : bool := primed now s <? now.

(** Scheduler reset whenever playback is paused or stopped. *)
Definition idleReset (s : State) : Prop :=
  playbackState s = paused \/ playbackState s = stopped ->
  nextStartTime s = 0.

(** A session that accepts every request. *)
Definition accepting : Remote :=
  {| onSetWeightedPrompts := Fulfilled; onSetDrumMix := Fulfilled;
     onPlay := Fulfilled; onPause := Fulfilled; onStop := Fulfilled |}.

Definition bossa : Prompt :=
  {| promptId := "prompt-0"; text := "Bossa Nova"; weight := 1;
     cc := 0; color := "#9900ff" |}.

(** ** Properties: auxiliary definitions *)

(** The scheduler's view of the state. *)
Definition view (s : State) :=
  (playbackState s, nextStartTime s, outputNode s, timers s, scheduled s).

(** The set-up and filtered-prompt branches of [onmessage]. *)
Definition preamble (e : LiveMusicServerMessage) (s : State) : State :=
  let s1 :=
    if setupComplete e then
      request SetSessionDrumMix (with_connectionError false s)
    else s in
  match filteredPrompt e with
  | Some f =>
      toast (filteredReason f)
        (with_filteredPrompts (filteredPrompts s1 ∪ {[ filteredText f ]}) s1)
  | None => s1
  end.

(** Commands that only open the connection or steer playback. *)
Definition steering (c : Command) : Prop :=
  match c with
  | CmdConnect | CmdPlay | CmdPause | CmdStop => True
  | CmdSetWeightedPrompts _ | CmdSetDrumMix _ => False
  end.

Definition stemVolume (mix : DrumMix) (stem : string) : Q :=
  match mix !! stem with
  | Some v => v
  | None => 0.0%Q
  end.

(** Events that may follow a connection failure: anything but the start-up
    hook and a set-up notice. *)
Definition afterFailure (ev : Event) : Prop :=
  match ev with
  | EvFirstUpdated _ _ => False
  | EvMessage _ e => setupComplete e = false
  | _ => True
  end.



(** ** Concrete states and traces used by examples *)

(** The notice that sets a session up. *)
Definition setupNotice : LiveMusicServerMessage :=
  {| setupComplete := true; filteredPrompt := None; audioChunks := None |}.

Definition filteredNotice : LiveMusicServerMessage :=
  {| setupComplete := false;
     filteredPrompt :=
       Some {| filteredText := "Thrash"; filteredReason := "Prompt filtered" |};
     audioChunks := None |}.

Definition silent : Prompt :=
  {| promptId := "prompt-0"; text := "Bossa Nova"; weight := 0;
     cc := 0; color := "#9900ff" |}.

(** One active prompt, session connected and set up, play pressed. *)
Definition started : State :=
  run [ EvPlayPause accepting (Connected 1 [(0, setupNotice)]) ]
    (initial [("prompt-0", bossa)]).

(** The same with the only prompt turned down to 0: play is refused. *)
Definition muted : State :=
  run [ EvPlayPause accepting (Connected 1 [(0, setupNotice)]) ]
    (initial [("prompt-0", silent)]).

(** Chunks of 2 s arriving at 0 s, 0.1 s and 0.2 s. *)
Definition threeChunks : list Event :=
  [ EvMessage 0 (chunkMessage 96000);
    EvMessage 4800 (chunkMessage 96000);
    EvMessage 9600 (chunkMessage 96000) ].

(** Playing, with one buffer of 2 s scheduled from 2 s to 4 s. *)
Definition streaming : State :=
  run [ EvMessage 0 (chunkMessage 96000); EvLookaheadElapsed ] started.

(** A session that rejects every request with the same message. *)
Definition rejecting (msg : string) : Remote :=
  {| onSetWeightedPrompts := Rejected msg; onSetDrumMix := Rejected msg;
     onPlay := Rejected msg; onPause := Rejected msg;
     onStop := Rejected msg |}.




(** ** The components around the main element

    The elements that feed the handlers above: the MIDI-bound prompt
    controller with its knob (PromptController.ts, WeightKnob.ts), the drum
    mixer with its sliders (DrumMixer.ts, DrumStemSlider.ts), and the toast
    the notices go to (ToastMessage.ts).  Numbers that are not counts are
    rationals; pointer positions and wheel deltas are rationals as well. *)

(** [interface ControlChange] of types.ts. *)
Module ControlChange.
Record t := mk {
  channel : Z;
  cc : Z;
  value : Z
}.
End ControlChange.

Module WeightKnob.

Record T := mk {
  value : Q;
  dragStartPos : Q;
  dragStartValue : Q
}.

(** [Math.max(0, Math.min(2, v))] *)
Definition clamp (v : Q) : Q := Qmax 0 (Qmin 2 v).

Definition handlePointerDown (clientY : Q) (k : T) : T :=
  {| value := value k; dragStartPos := clientY; dragStartValue := value k |}.

(** [handlePointerMove]; the second component is the detail of the
    [input] event it dispatches. *)
Definition handlePointerMove (clientY : Q) (k : T) : T * Q :=
  let delta := (dragStartPos k - clientY)%Q in
  let v := clamp (dragStartValue k + delta * 0.015)%Q in
  ({| value := v; dragStartPos := dragStartPos k;
      dragStartValue := dragStartValue k |}, v).

(** [handleWheel] *)
Definition handleWheel (deltaY : Q) (k : T) : T * Q :=
  let v := clamp (value k + deltaY * -0.003)%Q in
  ({| value := v; dragStartPos := dragStartPos k;
      dragStartValue := dragStartValue k |}, v).

End WeightKnob.

Module PromptController.

Record T := mk {
  promptId : string;
  text : string;
  weight : Q;
  color : string;
  cc : Z;
  learnMode : bool;
  showCC : bool
}.

(** The detail of the [prompt-changed] event ([dispatchPromptChange]). *)
Definition detail (c : T) : Prompt :=
  mkPrompt (promptId c) (text c) (weight c) (cc c) (color c).

(** The listener for [cc-message] set up in [connectedCallback]; the
    second component is the detail dispatched, if any. *)
Definition onCcMessage (m : ControlChange.t) (c : T) : T * option Prompt :=
  if learnMode c then
    let c' := mk (promptId c) (text c) (weight c) (color c)
                (ControlChange.cc m) false (showCC c) in
    (c', Some (detail c'))
  else if decide (ControlChange.cc m = cc c) then
    let c' := mk (promptId c) (text c)
                ((inject_Z (ControlChange.value m) / 127) * 2)%Q
                (color c) (cc c) (learnMode c) (showCC c) in
    (c', Some (detail c'))
  else (c, None).

(** [updateWeight]: the knob's value becomes the weight. *)
Definition updateWeight (knob : WeightKnob.T) (c : T) : T * Prompt :=
  let c' := mk (promptId c) (text c) (WeightKnob.value knob) (color c)
              (cc c) (learnMode c) (showCC c) in
  (c', detail c').

Definition toggleLearnMode (c : T) : T :=
  mk (promptId c) (text c) (weight c) (color c) (cc c)
    (negb (learnMode c)) (showCC c).

End PromptController.

(** The properties the parent binds when it renders a prompt
    ([renderPrompts]), followed by the controller's [update]: when [showCC]
    has changed and is now off, learn mode is left. *)
Definition renderPrompt (p : Prompt) (showMidi : bool)
    (c : PromptController.T) : PromptController.T :=
  let changed := negb (eqb (PromptController.showCC c) showMidi) in
  PromptController.mk (promptId p) (text p) (weight p) (color p) (cc p)
    (if changed && negb showMidi then false else PromptController.learnMode c)
    showMidi.

Module DrumStemSlider.

Record T := mk {
  label : string;
  value : Q
}.

(** [handleInput]: [position] is the number the range input holds (0 to
    100); the second component is the detail of [value-changed]. *)
Definition handleInput (position : Z) (sl : T) : T * (Q * string) :=
  let v := (inject_Z position / 100)%Q in
  ({| label := label sl; value := v |}, (v, label sl)).

(** The position [render] gives the range input:
    [Math.round(this.value * 100)]. *)
Definition position (sl : T) : Z := Qfloor (value sl * 100 + (1 # 2))%Q.

End DrumStemSlider.

Module DrumMixer.

(** [handleStemChange]: the mix with the stem set, which is also the detail
    of [drum-mix-changed]. *)
Definition handleStemChange (value : Q) (stem : string) (drumMix : DrumMix)
  : DrumMix :=
  <[ stem := value ]> drumMix.

(** The value [render] gives the slider of a stem. *)
Definition shown (drumMix : DrumMix) (stem : string) : Q :=
  match drumMix !! stem with
  | Some v => v
  | None => 0.5%Q
  end.

End DrumMixer.

Module ToastMessage.

(** Timer handles are the positive numbers [setTimeout] returns;
    [pendingTimeouts] are the timers set and neither fired nor cleared, with
    their delays in milliseconds. *)
Record T := mk {
  message : string;
  showing : bool;
  hideTimeout : option positive;
  pendingTimeouts : list (positive * Z);
  nextHandle : positive
}.

Definition initial : T :=
  {| message := ""; showing := false; hideTimeout := None;
     pendingTimeouts := []; nextHandle := 1%positive |}.

Definition clearTimeout (h : positive) (l : list (positive * Z))
  : list (positive * Z) :=
  List.filter (fun p => negb (bool_decide (p.1 = h))) l.

(** [if (this.hideTimeout) clearTimeout(this.hideTimeout)] *)
Definition clearHideTimeout (t : T) : list (positive * Z) :=
  match hideTimeout t with
  | Some h => clearTimeout h (pendingTimeouts t)
  | None => pendingTimeouts t
  end.

(** [hide()] *)
Definition hide (t : T) : T :=
  {| message := message t; showing := false; hideTimeout := None;
     pendingTimeouts := clearHideTimeout t; nextHandle := nextHandle t |}.

(** [show(message, duration)] *)
Definition show (msg : string) (duration : Z) (t : T) : T :=
  if (0 <? duration)%Z then
    {| message := msg; showing := true;
       hideTimeout := Some (nextHandle t);
       pendingTimeouts := clearHideTimeout t ++ [(nextHandle t, duration)];
       nextHandle := Pos.succ (nextHandle t) |}
  else
    {| message := msg; showing := true; hideTimeout := hideTimeout t;
       pendingTimeouts := clearHideTimeout t; nextHandle := nextHandle t |}.

(** The timer with handle [h] fires, if it is pending: its callback calls
    [hide()]. *)
Definition timeoutFired (h : positive) (t : T) : T :=
  if bool_decide (h ∈ (pendingTimeouts t).*1) then
    hide {| message := message t; showing := showing t;
            hideTimeout := hideTimeout t;
            pendingTimeouts := clearTimeout h (pendingTimeouts t);
            nextHandle := nextHandle t |}
  else t.

Inductive Action :=
  | Show (msg : string) (duration : Z)
  | Hide
  | TimeoutFired (h : positive).

Definition act (a : Action) (t : T) : T :=
  match a with
  | Show msg duration => show msg duration t
  | Hide => hide t
  | TimeoutFired h => timeoutFired h t
  end.

Definition after (acts : list Action) (t : T) : T :=
  fold_left (fun t a => act a t) acts t.

End ToastMessage.

(** ** Properties of the other handlers: auxiliary definitions *)

(** The keys of the prompt map are distinct, as in a [Map]. *)
Definition distinctKeys (m : list (string * Prompt)) : Prop := NoDup m.*1.

(** A message stripped of its filtered-prompt notice. *)
Definition withoutNotice (e : LiveMusicServerMessage)
  : LiveMusicServerMessage :=
  {| setupComplete := setupComplete e; filteredPrompt := None;
     audioChunks := audioChunks e |}.

(** The event is a set-up notice, or a connect during which one arrives. *)
Definition deliversSetup (ev : Event) : Prop :=
  match ev with
  | EvMessage _ e => setupComplete e = true
  | EvPlayPause _ (Connected _ during)
  | EvFirstUpdated _ (Connected _ during) =>
      exists d, d ∈ during /\ setupComplete d.2 = true
  | _ => False
  end.

(** Every scheduled buffer hangs on the current output node or on one that
    was discarded before. *)
Definition nodesBounded (s : State) : Prop :=
  Forall (fun b => (node b <= outputNode s)%nat) (scheduled s).

(** The entry [buildDefaultPrompts] makes for index [i]. *)
Definition defaultEntry (startOn : list nat) (i : nat) (d : string * string)
  : string * Prompt :=
  let id := ("prompt-" ++ pretty i)%string in
  (id, {| promptId := id; text := d.2;
          weight := if bool_decide (i ∈ startOn) then 1 else 0;
          cc := Z.of_nat i; color := d.1 |}).

(** The mix has a value for every stem. *)
Definition complete (mix : DrumMix) : Prop :=
  forall stem, stem ∈ DRUM_STEM_TYPES -> is_Some (mix !! stem).

(** Every change of the drum mix in the trace is a slider move of the
    mixer, applied to the setting of the moment. *)
Fixpoint mixerDriven (evs : list Event) (s : State) : Prop :=
  match evs with
  | [] => True
  | ev :: evs' =>
      match ev with
      | EvDrumMixChanged detail =>
          exists value stem,
            detail = DrumMixer.handleStemChange value stem (drumMixSettings s)
      | _ => True
      end /\ mixerDriven evs' (step ev s)
  end.

(** At most one hide timer is pending; it is the one the toast remembers,
    and the toast is showing. *)
Definition oneTimer (t : ToastMessage.T) : Prop :=
  ToastMessage.pendingTimeouts t = [] \/
  exists h d,
    ToastMessage.pendingTimeouts t = [(h, d)] /\
    ToastMessage.hideTimeout t = Some h /\
    ToastMessage.showing t = true /\ (0 < d)%Z.

(** ** The scheduler on the audio clock's own numbers

    [audioContext.currentTime], [nextStartTime] and [AudioBuffer.duration]
    are JavaScript numbers: binary64 floating-point seconds.  The handlers
    are embedded here a second time with these numbers as they are (Rocq's
    primitive floats are binary64, with the IEEE 754 sum, [<] and [===]),
    for the properties that turn on the outcome of a comparison between a
    running sum and the clock: there a sum of seconds need not be the
    double nearest to the exact sum.  [source.start] is taken to accept
    the time it is given. *)

Module Seconds.
Import PrimFloat.

(** [private readonly bufferTime = 2], in seconds. *)
Definition bufferTime : PrimFloat.float := 2%float.

(** One element of [serverContent.audioChunks]: [decoded] is the duration
    in seconds of the buffer [decodeAudioData] yields, or [None] when
    decoding throws. *)
Record AudioChunk := mkChunk { decoded : option PrimFloat.float }.

Record LiveMusicServerMessage := mkMessage {
  setupComplete : bool;
  filteredPrompt : option FilteredPrompt;
  audioChunks : option (list AudioChunk)
}.

(** Outcome of [ai.live.music.connect], the clock readings in seconds. *)
Inductive ConnectReply :=
  | ConnectFailed (message : string)
  | Connected (handle : nat)
      (during : list (PrimFloat.float * LiveMusicServerMessage)).

(** [source.connect(outputNode)], [source.start(when)]. *)
Record ScheduledBuffer := mkScheduled {
  node : nat;
  scheduledStartTime : PrimFloat.float;
  duration : PrimFloat.float
}.

Record State := mkState {
  (* fields of PromptDjMidi *)
  prompts : list (string * Prompt);
  playbackState : PlaybackState;
  drumMixSettings : DrumMix;
  session : option nat;
  outputNode : nat;
  nextStartTime : PrimFloat.float;
  filteredPrompts : gset string;
  connectionError : bool;
  (* pending setTimeout callbacks of the scheduler, by delay in ms *)
  timers : list N;
  (* logs of effects *)
  scheduled : list ScheduledBuffer;
  toasts : list string;
  sent : list Command;
  requested : list Throttled;
  uncaught : list Fault
}.

Definition with_prompts v s := mkState v (playbackState s) (drumMixSettings s) (session s) (outputNode s) (nextStartTime s) (filteredPrompts s) (connectionError s) (timers s) (scheduled s) (toasts s) (sent s) (requested s) (uncaught s).
Definition with_playbackState v s := mkState (prompts s) v (drumMixSettings s) (session s) (outputNode s) (nextStartTime s) (filteredPrompts s) (connectionError s) (timers s) (scheduled s) (toasts s) (sent s) (requested s) (uncaught s).
Definition with_drumMixSettings v s := mkState (prompts s) (playbackState s) v (session s) (outputNode s) (nextStartTime s) (filteredPrompts s) (connectionError s) (timers s) (scheduled s) (toasts s) (sent s) (requested s) (uncaught s).
Definition with_session v s := mkState (prompts s) (playbackState s) (drumMixSettings s) v (outputNode s) (nextStartTime s) (filteredPrompts s) (connectionError s) (timers s) (scheduled s) (toasts s) (sent s) (requested s) (uncaught s).
Definition with_outputNode v s := mkState (prompts s) (playbackState s) (drumMixSettings s) (session s) v (nextStartTime s) (filteredPrompts s) (connectionError s) (timers s) (scheduled s) (toasts s) (sent s) (requested s) (uncaught s).
Definition with_nextStartTime v s := mkState (prompts s) (playbackState s) (drumMixSettings s) (session s) (outputNode s) v (filteredPrompts s) (connectionError s) (timers s) (scheduled s) (toasts s) (sent s) (requested s) (uncaught s).
Definition with_filteredPrompts v s := mkState (prompts s) (playbackState s) (drumMixSettings s) (session s) (outputNode s) (nextStartTime s) v (connectionError s) (timers s) (scheduled s) (toasts s) (sent s) (requested s) (uncaught s).
Definition with_connectionError v s := mkState (prompts s) (playbackState s) (drumMixSettings s) (session s) (outputNode s) (nextStartTime s) (filteredPrompts s) v (timers s) (scheduled s) (toasts s) (sent s) (requested s) (uncaught s).
Definition with_timers v s := mkState (prompts s) (playbackState s) (drumMixSettings s) (session s) (outputNode s) (nextStartTime s) (filteredPrompts s) (connectionError s) v (scheduled s) (toasts s) (sent s) (requested s) (uncaught s).
Definition with_scheduled v s := mkState (prompts s) (playbackState s) (drumMixSettings s) (session s) (outputNode s) (nextStartTime s) (filteredPrompts s) (connectionError s) (timers s) v (toasts s) (sent s) (requested s) (uncaught s).
Definition with_toasts v s := mkState (prompts s) (playbackState s) (drumMixSettings s) (session s) (outputNode s) (nextStartTime s) (filteredPrompts s) (connectionError s) (timers s) (scheduled s) v (sent s) (requested s) (uncaught s).
Definition with_sent v s := mkState (prompts s) (playbackState s) (drumMixSettings s) (session s) (outputNode s) (nextStartTime s) (filteredPrompts s) (connectionError s) (timers s) (scheduled s) (toasts s) v (requested s) (uncaught s).
Definition with_requested v s := mkState (prompts s) (playbackState s) (drumMixSettings s) (session s) (outputNode s) (nextStartTime s) (filteredPrompts s) (connectionError s) (timers s) (scheduled s) (toasts s) (sent s) v (uncaught s).
Definition with_uncaught v s := mkState (prompts s) (playbackState s) (drumMixSettings s) (session s) (outputNode s) (nextStartTime s) (filteredPrompts s) (connectionError s) (timers s) (scheduled s) (toasts s) (sent s) (requested s) v.

(** The state the constructor leaves, for the prompts it is given. *)
Definition initial (ps : list (string * Prompt)) : State :=
  {| prompts := ps;
     playbackState := stopped;
     drumMixSettings := DEFAULT_DRUM_MIX_SETTINGS;
     session := None;
     outputNode := 0%nat;
     nextStartTime := 0%float;
     filteredPrompts := ∅;
     connectionError := true;
     timers := [];
     scheduled := [];
     toasts := [];
     sent := [];
     requested := [];
     uncaught := [] |}.

Definition toast (message : string) (s : State) : State :=
  with_toasts (toasts s ++ [message]) s.

Definition request (t : Throttled) (s : State) : State :=
  with_requested (requested s ++ [t]) s.

Definition transmit (c : Command) (s : State) : State :=
  with_sent (sent s ++ [c]) s.

Definition fault (f : Fault) (s : State) : State :=
  with_uncaught (uncaught s ++ [f]) s.

Definition fireAndForget (env : Remote) (c : Command) (s : State) : State :=
  let s1 := transmit c s in
  match replyTo env c with
  | Fulfilled => s1
  | Rejected msg => fault (UnhandledRejection c msg) s1
  end.

Definition hasSession (s : State) : bool :=
  match session s with
  | Some _ => true
  | None => false
  end.

Definition sessionLive (s : State) : bool :=
  hasSession s && negb (connectionError s).

Definition getPromptsToSend (s : State) : list Prompt :=
  List.filter (active (filteredPrompts s)) (values (prompts s)).

(** [pause()] *)
Definition pause (env : Remote) (s : State) : State :=
  let s1 := if sessionLive s then fireAndForget env CmdPause s else s in
  let s2 := with_playbackState paused s1 in
  let s3 := with_nextStartTime 0%float s2 in
  with_outputNode (S (outputNode s3)) s3.

(** [play()] *)
Definition play (env : Remote) (s : State) : State :=
  match session s with
  | None => toast "Session not ready. Please wait or try reconnecting." s
  | Some _ =>
      let promptsToSend := getPromptsToSend s in
      if (length promptsToSend =? 0)%nat then
        pause env
          (toast "Add some sound flavor! Turn up a knob to play music." s)
      else
        let s1 := if sessionLive s then fireAndForget env CmdPlay s else s in
        with_playbackState loading s1
  end.

(** [stop()] *)
Definition stop (env : Remote) (s : State) : State :=
  let s1 := if sessionLive s then fireAndForget env CmdStop s else s in
  with_nextStartTime 0%float (with_playbackState stopped s1).

(** The part of the audio branch after the buffer is decoded
    (index.tsx, lines 448 to 466): [now] is [audioContext.currentTime],
    [dur] is [audioBuffer.duration]; [=== 0], [+], [<] and [+=] are those
    of binary64. *)
Definition scheduleBuffer (now dur : PrimFloat.float) (s : State) : State :=
  let s1 :=
    if (nextStartTime s =? 0)%float then
      with_timers (timers s ++ [lookaheadDelay])
        (with_nextStartTime (now + bufferTime)%float s)
    else s in
  if (nextStartTime s1 <? now)%float then
    with_nextStartTime 0%float (with_playbackState loading s1)
  else
    let source := {| node := outputNode s1;
                     scheduledStartTime := nextStartTime s1;
                     duration := dur |} in
    with_nextStartTime (nextStartTime s1 + dur)%float
      (with_scheduled (scheduled s1 ++ [source]) s1).

(** [if (e.serverContent?.audioChunks !== undefined) { ... }] *)
Definition onAudioChunks (now : PrimFloat.float) (chunks : list AudioChunk)
    (s : State) : State :=
  match playbackState s with
  | paused | stopped => s
  | playing | loading =>
      match chunks with
      | [] => fault NoChunkInMessage s
      | c :: _ =>
          match decoded c with
          | None => fault DecodeFailed s
          | Some dur => scheduleBuffer now dur s
          end
      end
  end.

(** The [onmessage] callback. *)
Definition onmessage (now : PrimFloat.float) (e : LiveMusicServerMessage)
    (s : State) : State :=
  let s1 :=
    if setupComplete e then
      request SetSessionDrumMix (with_connectionError false s)
    else s in
  let s2 :=
    match filteredPrompt e with
    | Some f =>
        toast (filteredReason f)
          (with_filteredPrompts (filteredPrompts s1 ∪ {[ filteredText f ]}) s1)
    | None => s1
    end in
  match audioChunks e with
  | Some chunks => onAudioChunks now chunks s2
  | None => s2
  end.

(** The callback given to [setTimeout] when the lookahead is primed. *)
Definition lookaheadElapsed (s : State) : State :=
  match timers s with
  | [] => s
  | _ :: rest => with_timers rest (with_playbackState playing s)
  end.

Definition onerror (env : Remote) (s : State) : State :=
  toast "Connection error, please restart audio."
    (stop env (with_connectionError true s)).

Definition onclose (env : Remote) (s : State) : State :=
  toast "Connection error, please restart audio."
    (stop env (with_connectionError true s)).

Definition deliver (s : State) (d : PrimFloat.float * LiveMusicServerMessage)
  : State :=
  onmessage d.1 d.2 s.

(** [connectToSession()] *)
Definition connectToSession (env : Remote) (c : ConnectReply) (s : State)
  : State :=
  let s1 := transmit CmdConnect s in
  match c with
  | Connected handle during =>
      with_session (Some handle) (fold_left deliver during s1)
  | ConnectFailed msg =>
      toast ("Failed to connect to music session: "
               ++ (if decide (msg = "") then "Unknown connection error"
                   else msg))
        (stop env (with_connectionError true s1))
  end.

(** Body of [setSessionPrompts]. *)
Definition setSessionPrompts (env : Remote) (s : State) : State :=
  if connectionError s || negb (hasSession s) then s
  else
    let promptsToSend := getPromptsToSend s in
    if (length promptsToSend =? 0)%nat then
      pause env (toast "There needs to be one active prompt to play." s)
    else
      let s1 := transmit (CmdSetWeightedPrompts promptsToSend) s in
      match onSetWeightedPrompts env with
      | Fulfilled => s1
      | Rejected msg => pause env (toast msg s1)
      end.

(** Body of [setSessionDrumMix]. *)
Definition setSessionDrumMix (env : Remote) (s : State) : State :=
  if connectionError s || negb (hasSession s) then s
  else
    let drumMixToSend := normalizeDrumMix (drumMixSettings s) in
    let s1 := transmit (CmdSetDrumMix drumMixToSend) s in
    match onSetDrumMix env with
    | Fulfilled => s1
    | Rejected msg => toast ("Error setting drum mix: " ++ msg) s1
    end.

Definition dispatchPromptsChange (s : State) : State :=
  request SetSessionPrompts s.

Definition setPrompts (newPrompts : list (string * Prompt)) (s : State)
  : State :=
  dispatchPromptsChange (with_prompts newPrompts s).

(** [handlePromptChanged] *)
Definition handlePromptChanged (detail : Prompt) (s : State) : State :=
  match map_get (promptId detail) (prompts s) with
  | None => s
  | Some prompt =>
      let prompt' := {| promptId := promptId prompt;
                        text := text detail;
                        weight := weight detail;
                        cc := cc detail;
                        color := color prompt |} in
      setPrompts (map_set (promptId detail) prompt' (prompts s)) s
  end.

Definition handleDrumMixChanged (detail : DrumMix) (s : State) : State :=
  request SetSessionDrumMix (with_drumMixSettings detail s).

(** [resetAll] *)
Definition resetAll (startOn : list nat) (s : State) : State :=
  let s1 := setPrompts (buildDefaultPrompts startOn) s in
  let s2 := with_drumMixSettings DEFAULT_DRUM_MIX_SETTINGS s1 in
  let s3 := request SetSessionDrumMix s2 in
  toast "✨ Fresh Start! All sound shapers and drum mix reset. Lyrics pad cleared." s3.

(** [handlePlayPause] *)
Definition handlePlayPause (env : Remote) (c : ConnectReply) (s : State)
  : State :=
  match playbackState s with
  | playing => pause env s
  | paused | stopped =>
      if connectionError s || negb (hasSession s) then
        let s1 :=
          connectToSession env c (toast "Reconnecting Lyria session..." s) in
        if negb (connectionError s1) && hasSession s1
        then
          play env (request SetSessionDrumMix (request SetSessionPrompts s1))
        else
          with_playbackState stopped
            (toast "Failed to reconnect Lyria. Please check console." s1)
      else play env s
  | loading => stop env s
  end.

(** [firstUpdated] *)
Definition firstUpdated (env : Remote) (c : ConnectReply) (s : State)
  : State :=
  let s1 := connectToSession env c s in
  let s2 := request SetSessionPrompts s1 in
  if negb (connectionError s2) then request SetSessionDrumMix s2 else s2.

Inductive Event :=
  | EvFirstUpdated (env : Remote) (c : ConnectReply)
  | EvMessage (now : PrimFloat.float) (e : LiveMusicServerMessage)
  | EvError (env : Remote)
  | EvClose (env : Remote)
  | EvLookaheadElapsed
  | EvPlayPause (env : Remote) (c : ConnectReply)
  | EvPromptChanged (detail : Prompt)
  | EvDrumMixChanged (detail : DrumMix)
  | EvResetAll (startOn : list nat)
  | EvPushPrompts (env : Remote)
  | EvPushDrumMix (env : Remote).

Definition step (ev : Event) (s : State) : State :=
  match ev with
  | EvFirstUpdated env c => firstUpdated env c s
  | EvMessage now e => onmessage now e s
  | EvError env => onerror env s
  | EvClose env => onclose env s
  | EvLookaheadElapsed => lookaheadElapsed s
  | EvPlayPause env c => handlePlayPause env c s
  | EvPromptChanged detail => handlePromptChanged detail s
  | EvDrumMixChanged detail => handleDrumMixChanged detail s
  | EvResetAll startOn => resetAll startOn s
  | EvPushPrompts env => setSessionPrompts env s
  | EvPushDrumMix env => setSessionDrumMix env s
  end.

Definition run (evs : list Event) (s : State) : State :=
  fold_left (fun st ev => step ev st) evs s.

(** *** Vocabulary *)

(** The message that carries one chunk lasting [dur] seconds. *)
Definition chunkMessage (dur : PrimFloat.float) : LiveMusicServerMessage :=
  {| setupComplete := false; filteredPrompt := None;
     audioChunks := Some [ {| decoded := Some dur |} ] |}.

(** The duration of the buffer a message gives the scheduler, if any. *)
Definition chunkOf (e : LiveMusicServerMessage) : option PrimFloat.float :=
  match audioChunks e with
  | Some (c :: _) => decoded c
  | _ => None
  end.

Definition gateOpen (s : State) : Prop :=
  playbackState s = playing \/ playbackState s = loading.

(** The start time the scheduler works with once the first-chunk test has
    run. *)
Definition primed (now : PrimFloat.float) (s : State) : PrimFloat.float :=
  if (nextStartTime s =? 0)%float then (now + bufferTime)%float
  else nextStartTime s.

(** The scheduler's underrun test, as the code evaluates it. *)
Definition underrun (now : PrimFloat.float) (s : State) : bool :=
  (primed now s <? now)%float.

(** A time or a duration that is not negative (and not NaN). *)
Definition nonneg (x : PrimFloat.float) : Prop := (0 <=? x)%float = true.

(** A time that is positive (and not NaN). *)
Definition positive (x : PrimFloat.float) : Prop := (0 <? x)%float = true.

(** Playback is [playing] or [loading] before the trace and after each of
    its events. *)
Fixpoint staysOpen (evs : list Event) (s : State) : Prop :=
  gateOpen s /\
  match evs with
  | [] => True
  | ev :: evs' => staysOpen evs' (step ev s)
  end.

(** The messages an event hands to [onmessage] while playback is [playing]
    or [loading], each with the clock at its delivery: the message itself,
    or the messages that arrive while [firstUpdated] awaits the connect.
    (A click on play connects only while playback is paused or stopped.) *)
Definition inbound (ev : Event)
  : list (PrimFloat.float * LiveMusicServerMessage) :=
  match ev with
  | EvMessage now e => [(now, e)]
  | EvFirstUpdated _ (Connected _ during) => during
  | _ => []
  end.

(** The state in which the first of them is handled. *)
Definition entry (ev : Event) (s : State) : State :=
  match ev with
  | EvFirstUpdated _ _ => transmit CmdConnect s
  | _ => s
  end.

(** No chunk among the messages meets the underrun test. *)
Fixpoint fed (msgs : list (PrimFloat.float * LiveMusicServerMessage))
    (s : State) : Prop :=
  match msgs with
  | [] => True
  | d :: rest =>
      match chunkOf d.2 with
      | Some _ => underrun d.1 s = false
      | None => True
      end /\ fed rest (deliver s d)
  end.

(** No chunk of the trace meets the underrun test. *)
Fixpoint noUnderrun (evs : list Event) (s : State) : Prop :=
  match evs with
  | [] => True
  | ev :: evs' =>
      fed (inbound ev) (entry ev s) /\ noUnderrun evs' (step ev s)
  end.

(** What the platform guarantees of a message: the clock reading and the
    duration of a decoded buffer are not negative. *)
Definition sane (d : PrimFloat.float * LiveMusicServerMessage) : Prop :=
  nonneg d.1 /\
  match chunkOf d.2 with
  | Some dur => nonneg dur
  | None => True
  end.

Definition wellFormed (ev : Event) : Prop := Forall sane (inbound ev).

(** The durations of the decoded chunks among the messages, in order. *)
Definition chunks (msgs : list (PrimFloat.float * LiveMusicServerMessage))
  : list PrimFloat.float :=
  omap (fun d => chunkOf d.2) msgs.

(** The durations of the decoded chunks a trace delivers, in order. *)
Definition delivered (evs : list Event) : list PrimFloat.float :=
  concat ((fun ev => chunks (inbound ev)) <$> evs).

(** Every buffer starts where [t], then its predecessor, ends. *)
Fixpoint chained (t : PrimFloat.float) (l : list ScheduledBuffer) : Prop :=
  match l with
  | [] => True
  | b :: l' =>
      scheduledStartTime b = t /\ chained (t + duration b)%float l'
  end.

(** Where the last buffer of [l] ends when the first starts at [t]: the
    durations added one at a time, as [+=] does. *)
Definition endOf (t : PrimFloat.float) (l : list ScheduledBuffer)
  : PrimFloat.float :=
  fold_left (fun t b => (t + duration b)%float) l t.

(** From [s] to [s'] the scheduler has scheduled the buffers [new], one
    after the other, and nothing else has touched its start time: the first
    buffer starts at [nextStartTime] when that was set, each buffer starts
    where its predecessor ends, and [nextStartTime] is where the last one
    ends, a positive time. *)
Definition extends (s : State) (new : list ScheduledBuffer) (s' : State)
  : Prop :=
  scheduled s' = scheduled s ++ new /\
  match new with
  | [] => nextStartTime s' = nextStartTime s
  | b :: _ =>
      ((nextStartTime s =? 0)%float = false ->
       scheduledStartTime b = nextStartTime s) /\
      chained (scheduledStartTime b) new /\
      nextStartTime s' = endOf (scheduledStartTime b) new /\
      positive (nextStartTime s')
  end.

(** *** Concrete states and traces *)

Definition setupNotice : LiveMusicServerMessage :=
  {| setupComplete := true; filteredPrompt := None; audioChunks := None |}.

(** One active prompt, session connected and set up, play pressed. *)
Definition started : State :=
  run [ EvPlayPause accepting (Connected 1 [(0%float, setupNotice)]) ]
    (initial [("prompt-0", bossa)]).

(** Chunks of 2 s arriving at 0 s, 0.125 s and 0.25 s, with a knob turn, the
    firing of the lookahead timer and a prompt push in between. *)
Definition busyStream : list Event :=
  [ EvMessage 0 (chunkMessage 2);
    EvPromptChanged {| promptId := "prompt-0"; text := "Bossa Nova";
                       weight := 1.2%Q; cc := 0; color := "" |};
    EvMessage 0.125 (chunkMessage 2);
    EvLookaheadElapsed;
    EvPushPrompts accepting;
    EvMessage 0.25 (chunkMessage 2) ].

(** Chunks of 64000 frames (4/3 s) at 48 kHz. *)
Definition third : PrimFloat.float := (64000 / 48000)%float.

(** Three such chunks arriving at 0 s, 1 s and 2 s. *)
Definition thirds : list Event :=
  [ EvMessage 0 (chunkMessage third);
    EvMessage 1 (chunkMessage third);
    EvMessage 2 (chunkMessage third) ].

(** Where the third of them ends, in exact arithmetic: 2 + 3 * 4/3. *)
Definition thirdsEnd : PrimFloat.float := 6%float.

(** One such chunk at 0 s; the next one arrives at frame 160000, the very
    frame at which the first buffer ends. *)
Definition tie : PrimFloat.float := (160000 / 48000)%float.

End Seconds.

(** Binary64 values, as the Standard Library specifies them, that are
    positive, resp. not negative; NaN is neither. *)
Definition positive_sf (x : SpecFloat.spec_float) : Prop :=
  match x with
  | SpecFloat.S754_finite false _ _ | SpecFloat.S754_infinity false => True
  | _ => False
  end.

Definition nonneg_sf (x : SpecFloat.spec_float) : Prop :=
  match x with
  | SpecFloat.S754_zero _ | SpecFloat.S754_finite false _ _
  | SpecFloat.S754_infinity false => True
  | _ => False
  end.

(** ** Concrete inputs of the further instances *)

(** A message whose only chunk cannot be decoded. *)
Definition garbled : LiveMusicServerMessage :=
  {| setupComplete := false; filteredPrompt := None;
     audioChunks := Some [ {| decoded := None |} ] |}.

(** Playback paused by a click while streaming. *)
Definition pausedByClick : State :=
  run [ EvPlayPause accepting (Connected 1 []) ] streaming.

(** The connection lost while streaming. *)
Definition disconnected : State :=
  run [ EvError accepting ] streaming.

Definition knobAtOne : WeightKnob.T :=
  {| WeightKnob.value := 1; WeightKnob.dragStartPos := 0;
     WeightKnob.dragStartValue := 0 |}.

(** The controller of [bossa], MIDI links hidden. *)
Definition bossaController : PromptController.T :=
  PromptController.mk "prompt-0" "Bossa Nova" 1 "#9900ff" 0 false false.

Definition kickSlider : DrumStemSlider.T :=
  {| DrumStemSlider.label := "KICK"; DrumStemSlider.value := 0.5%Q |}.

(** ** Proof automation *)

Ltac unfold_handlers :=
  unfold handlePlayPause, firstUpdated, connectToSession, onerror, onclose,
    setSessionPrompts, setSessionDrumMix, resetAll, handleDrumMixChanged,
    handlePromptChanged, setPrompts, dispatchPromptsChange, lookaheadElapsed,
    onmessage, onAudioChunks, scheduleBuffer, play, pause, stop,
    fireAndForget, sessionLive, hasSession, toast, request, transmit, fault in *.

Ltac crush := unfold_handlers; simpl in *; repeat (case_match; simpl in *);
  try done.

(** The same, after a case split on the connection fields of [s]. *)
Ltac crush_at s :=
  unfold_handlers;
  destruct (connectionError s) eqn:?, (session s) eqn:?;
  simpl in *; repeat (case_match; simpl in *); try done;
  repeat match goal with
         | H : connectionError ?x = _, H' : context [connectionError ?x] |- _ =>
             rewrite H in H'; simpl in H'
         end;
  try done.

(** The same for the handlers in seconds. *)
Ltac seconds_unfold :=
  unfold Seconds.handlePlayPause, Seconds.firstUpdated,
    Seconds.connectToSession, Seconds.onerror, Seconds.onclose,
    Seconds.setSessionPrompts, Seconds.setSessionDrumMix, Seconds.resetAll,
    Seconds.handleDrumMixChanged, Seconds.handlePromptChanged,
    Seconds.setPrompts, Seconds.dispatchPromptsChange,
    Seconds.lookaheadElapsed, Seconds.play, Seconds.pause, Seconds.stop,
    Seconds.fireAndForget, Seconds.sessionLive, Seconds.hasSession,
    Seconds.toast, Seconds.request, Seconds.transmit, Seconds.fault in *.

Ltac seconds_crush :=
  seconds_unfold; simpl in *; repeat (case_match; simpl in *); try done.

(** Membership in an explicit list, case by case. *)
Ltac in_list H :=
  repeat (apply elem_of_cons in H as [H|H]);
  try (by apply elem_of_nil in H); try congruence.

(** * Properties *)

(** ** The scheduler *)

Lemma first_chunk_never_underruns now s :
  nextStartTime s = 0 -> underrun now s = false.
Proof.
  intros H. unfold underrun, primed. rewrite H. simpl.
  apply N.ltb_ge. lia.
Qed.

(** What [scheduleBuffer] does when the underrun test fails. *)
Lemma scheduleBuffer_schedules now dur s :
  underrun now s = false ->
  let s' := scheduleBuffer now dur s in
  scheduled s' =
    scheduled s ++ [ {| node := outputNode s;
                        scheduledStartTime := primed now s;
                        duration := dur |} ] /\
  nextStartTime s' = primed now s + dur /\
  playbackState s' = playbackState s /\
  timers s' = timers s ++
    (if nextStartTime s =? 0 then [lookaheadDelay] else []) /\
  filteredPrompts s' = filteredPrompts s /\
  sent s' = sent s /\ toasts s' = toasts s /\ uncaught s' = uncaught s.
Proof.
  unfold underrun, primed, scheduleBuffer. intros Hu.
  destruct (nextStartTime s =? 0) eqn:E; simpl in *; rewrite Hu; simpl;
    rewrite ?app_nil_r; done.
Qed.

(** What [scheduleBuffer] does when the underrun test succeeds. *)
Lemma scheduleBuffer_underrun now dur s :
  underrun now s = true ->
  let s' := scheduleBuffer now dur s in
  scheduled s' = scheduled s /\
  nextStartTime s' = 0 /\
  playbackState s' = loading /\
  timers s' = timers s /\
  outputNode s' = outputNode s.
Proof.
  intros Hu. destruct (N.eq_dec (nextStartTime s) 0) as [H0|H0].
  { rewrite first_chunk_never_underruns in Hu; done. }
  revert Hu. unfold underrun, primed, scheduleBuffer.
  apply N.eqb_neq in H0. rewrite H0. intros ->. done.
Qed.

Lemma onmessage_preamble now e s :
  onmessage now e s =
    match audioChunks e with
    | Some chunks => onAudioChunks now chunks (preamble e s)
    | None => preamble e s
    end.
Proof. reflexivity. Qed.

Lemma preamble_view e s : view (preamble e s) = view s.
Proof. unfold preamble. destruct (filteredPrompt e), (setupComplete e); done. Qed.

Lemma onmessage_chunk_open now e dur s :
  gateOpen s -> chunkOf e = Some dur ->
  exists s0, onmessage now e s = scheduleBuffer now dur s0 /\ view s0 = view s.
Proof.
  intros Hg Hc. rewrite onmessage_preamble. unfold chunkOf in Hc.
  destruct (audioChunks e) as [[|c cs]|]; try done.
  exists (preamble e s). split; [|apply preamble_view].
  pose proof (preamble_view e s) as Hv. unfold view in Hv.
  unfold onAudioChunks.
  destruct Hg as [Hg|Hg]; rewrite Hg in Hv;
    injection Hv as -> _ _ _ _; rewrite Hc; done.
Qed.

(** A message without a decodable chunk leaves the scheduler alone. *)
Lemma onmessage_no_chunk now e s :
  chunkOf e = None -> view (onmessage now e s) = view s.
Proof.
  intros Hc. rewrite onmessage_preamble, <- (preamble_view e s).
  unfold chunkOf in Hc.
  destruct (audioChunks e) as [[|c cs]|]; [| |done];
    unfold onAudioChunks; destruct (playbackState (preamble e s)); try done.
  all: rewrite Hc; done.
Qed.

(** A message that arrives while paused or stopped schedules nothing and
    leaves the scheduler and the playback state alone. *)
Lemma onmessage_gate_closed now e s :
  playbackState s = paused \/ playbackState s = stopped ->
  view (onmessage now e s) = view s.
Proof.
  intros Hg. rewrite onmessage_preamble, <- (preamble_view e s).
  destruct (audioChunks e) as [chunks|]; [|done].
  pose proof (preamble_view e s) as Hv. unfold view in Hv.
  unfold onAudioChunks.
  destruct Hg as [Hg|Hg]; rewrite Hg in Hv; injection Hv as -> _ _ _ _; done.
Qed.

Lemma view_gateOpen s s' : view s' = view s -> gateOpen s -> gateOpen s'.
Proof. unfold view, gateOpen. intros [= -> _ _ _ _]. done. Qed.

Lemma view_underrun now s s' :
  view s' = view s -> underrun now s' = underrun now s.
Proof. unfold view, underrun, primed. intros [= _ -> _ _ _]. done. Qed.

Lemma view_primed now s s' :
  view s' = view s -> primed now s' = primed now s.
Proof. unfold view, primed. intros [= _ -> _ _ _]. done. Qed.

(** One delivered chunk, gate open, no underrun: the buffer starts at the
    primed start time, which then moves to the buffer's end. *)
Lemma chunk_scheduled now e dur s :
  gateOpen s -> chunkOf e = Some dur -> underrun now s = false ->
  let s' := onmessage now e s in
  scheduled s' =
    scheduled s ++ [ {| node := outputNode s;
                        scheduledStartTime := primed now s;
                        duration := dur |} ] /\
  nextStartTime s' = primed now s + dur /\
  playbackState s' = playbackState s /\
  timers s' = timers s ++
    (if nextStartTime s =? 0 then [lookaheadDelay] else []).
Proof.
  intros Hg Hc Hu.
  destruct (onmessage_chunk_open now e dur s Hg Hc) as (s0 & Hs' & Hv).
  simpl. rewrite Hs'.
  rewrite <- (view_underrun now _ _ Hv) in Hu.
  destruct (scheduleBuffer_schedules now dur s0 Hu)
    as (H1 & H2 & H3 & H4 & _).
  rewrite H1, H2, H3, H4, (view_primed now _ _ Hv).
  unfold view in Hv. injection Hv as -> -> -> -> ->. done.
Qed.

Lemma lookaheadElapsed_view s :
  gateOpen (lookaheadElapsed s) \/ lookaheadElapsed s = s.
Proof.
  unfold lookaheadElapsed. destruct (timers s); [by right|left; by left].
Qed.

Lemma lookaheadElapsed_scheduler s :
  nextStartTime (lookaheadElapsed s) = nextStartTime s /\
  scheduled (lookaheadElapsed s) = scheduled s /\
  outputNode (lookaheadElapsed s) = outputNode s.
Proof. unfold lookaheadElapsed. destruct (timers s); done. Qed.

Lemma run_cons ev evs s : run (ev :: evs) s = run evs (step ev s).
Proof. reflexivity. Qed.

Lemma run_app evs1 evs2 s : run (evs1 ++ evs2) s = run evs2 (run evs1 s).
Proof. unfold run. apply fold_left_app. Qed.

(** ** Playback is reset whenever it is paused or stopped *)

Lemma pause_fields env s :
  playbackState (pause env s) = paused /\
  nextStartTime (pause env s) = 0 /\
  timers (pause env s) = timers s /\
  scheduled (pause env s) = scheduled s /\
  filteredPrompts (pause env s) = filteredPrompts s /\
  toasts (pause env s) = toasts s /\
  connectionError (pause env s) = connectionError s /\
  session (pause env s) = session s.
Proof.
  unfold pause, fireAndForget.
  destruct (sessionLive s), (replyTo env CmdPause); done.
Qed.

Lemma stop_fields env s :
  playbackState (stop env s) = stopped /\
  nextStartTime (stop env s) = 0 /\
  timers (stop env s) = timers s /\
  scheduled (stop env s) = scheduled s /\
  filteredPrompts (stop env s) = filteredPrompts s /\
  toasts (stop env s) = toasts s /\
  connectionError (stop env s) = connectionError s /\
  session (stop env s) = session s.
Proof.
  unfold stop, fireAndForget.
  destruct (sessionLive s), (replyTo env CmdStop); done.
Qed.

Lemma pause_idleReset env s : idleReset (pause env s).
Proof. intros _. apply pause_fields. Qed.

Lemma stop_idleReset env s : idleReset (stop env s).
Proof. intros _. apply stop_fields. Qed.

Lemma view_idleReset s s' : view s' = view s -> idleReset s -> idleReset s'.
Proof. unfold view, idleReset. intros [= -> -> _ _ _]. done. Qed.

Lemma play_idleReset env s : idleReset s -> idleReset (play env s).
Proof.
  intros Hi. unfold play. destruct (session s); [|exact Hi].
  destruct (length (getPromptsToSend s) =? 0)%nat.
  - apply pause_idleReset.
  - intros [H|H]; simpl in H; done.
Qed.

Lemma scheduleBuffer_gateOpen now dur s :
  gateOpen s -> gateOpen (scheduleBuffer now dur s).
Proof.
  intros Hg. destruct (underrun now s) eqn:Hu.
  - destruct (scheduleBuffer_underrun now dur s Hu) as (_ & _ & H & _).
    by right.
  - destruct (scheduleBuffer_schedules now dur s Hu) as (_ & _ & H & _).
    unfold gateOpen. by rewrite H.
Qed.

Lemma gateOpen_idleReset s : gateOpen s -> idleReset s.
Proof. intros [H|H] [H'|H']; congruence. Qed.

Lemma gate_cases s :
  gateOpen s \/ (playbackState s = paused \/ playbackState s = stopped).
Proof. unfold gateOpen. destruct (playbackState s); auto. Qed.

Lemma onmessage_idleReset now e s :
  idleReset s -> idleReset (onmessage now e s).
Proof.
  intros Hi. destruct (gate_cases s) as [Hg|Hg].
  - destruct (chunkOf e) as [dur|] eqn:Hc.
    + destruct (onmessage_chunk_open now e dur s Hg Hc) as (s0 & -> & Hv).
      apply gateOpen_idleReset, scheduleBuffer_gateOpen.
      exact (view_gateOpen _ _ Hv Hg).
    + exact (view_idleReset _ _ (onmessage_no_chunk now e s Hc) Hi).
  - exact (view_idleReset _ _ (onmessage_gate_closed now e s Hg) Hi).
Qed.

Lemma deliver_all_idleReset during : forall s,
  idleReset s -> idleReset (fold_left deliver during s).
Proof.
  induction during as [|d during IH]; intros s Hi; [done|].
  simpl. apply IH. by apply onmessage_idleReset.
Qed.

Lemma connectToSession_idleReset env c s :
  idleReset s -> idleReset (connectToSession env c s).
Proof.
  intros Hi. unfold connectToSession. destruct c as [msg|h during].
  - intros _. done.
  - apply (view_idleReset (fold_left deliver during (transmit CmdConnect s)));
      [done|].
    by apply deliver_all_idleReset.
Qed.

(** While paused or stopped, a connect attempt leaves playback paused or
    stopped and the scheduler reset. *)
Lemma deliver_all_gate_closed during : forall s,
  playbackState s = paused \/ playbackState s = stopped ->
  view (fold_left deliver during s) = view s.
Proof.
  induction during as [|d during IH]; intros s Hg; [done|].
  simpl. pose proof (onmessage_gate_closed d.1 d.2 s Hg) as Hv.
  rewrite IH; [exact Hv|].
  unfold view in Hv. injection Hv as Hp _ _ _ _.
  unfold deliver. by rewrite Hp.
Qed.

Lemma connectToSession_resting env c s :
  playbackState s = paused \/ playbackState s = stopped ->
  nextStartTime s = 0 ->
  (playbackState (connectToSession env c s) = paused \/
   playbackState (connectToSession env c s) = stopped) /\
  nextStartTime (connectToSession env c s) = 0.
Proof.
  intros Hg H0. unfold connectToSession. destruct c as [msg|h during].
  - split; [by right|done].
  - pose proof (deliver_all_gate_closed during (transmit CmdConnect s) Hg)
      as Hv.
    unfold view in Hv. injection Hv as Hp Ht _ _ _. simpl.
    rewrite Hp, Ht. done.
Qed.

Lemma setSessionPrompts_idleReset env s :
  idleReset s -> idleReset (setSessionPrompts env s).
Proof.
  intros Hi. unfold setSessionPrompts.
  destruct (connectionError s || _); [done|].
  destruct (length (getPromptsToSend s) =? 0)%nat; [apply pause_idleReset|].
  destruct (onSetWeightedPrompts env); [done|apply pause_idleReset].
Qed.

Lemma setSessionDrumMix_view env s : view (setSessionDrumMix env s) = view s.
Proof.
  unfold setSessionDrumMix. destruct (connectionError s || _); [done|].
  destruct (onSetDrumMix env); done.
Qed.

Lemma handlePromptChanged_view d s : view (handlePromptChanged d s) = view s.
Proof. unfold handlePromptChanged. destruct (map_get _ _); done. Qed.

Lemma handlePlayPause_idleReset env c s :
  idleReset s -> idleReset (handlePlayPause env c s).
Proof.
  intros Hi. unfold handlePlayPause.
  assert (playbackState s = paused \/ playbackState s = stopped ->
    idleReset
      (if connectionError s || negb (hasSession s) then
        let s1 :=
          connectToSession env c (toast "Reconnecting Lyria session..." s) in
        if negb (connectionError s1) && hasSession s1
        then
          play env (request SetSessionDrumMix (request SetSessionPrompts s1))
        else
          with_playbackState stopped
            (toast "Failed to reconnect Lyria. Please check console." s1)
      else play env s)) as Hidle.
  { intros Hps. destruct (connectionError s || _); [|by apply play_idleReset].
    pose proof (connectToSession_idleReset env c
      (toast "Reconnecting Lyria session..." s) Hi) as Hc.
    simpl. destruct (negb _ && _).
    - by apply play_idleReset.
    - intros _. simpl.
      apply (connectToSession_resting env c
               (toast "Reconnecting Lyria session..." s)); [done|].
      by apply Hi. }
  destruct (playbackState s) eqn:Hp.
  - apply Hidle; auto.
  - apply pause_idleReset.
  - apply stop_idleReset.
  - apply Hidle; auto.
Qed.

Lemma firstUpdated_idleReset env c s :
  idleReset s -> idleReset (firstUpdated env c s).
Proof.
  intros Hi. unfold firstUpdated.
  pose proof (connectToSession_idleReset env c s Hi) as Hc.
  destruct (negb _); exact Hc.
Qed.

Lemma step_idleReset ev s : idleReset s -> idleReset (step ev s).
Proof.
  intros Hi. destruct ev; simpl.
  - by apply firstUpdated_idleReset.
  - by apply onmessage_idleReset.
  - intros _. done.
  - intros _. done.
  - unfold lookaheadElapsed. destruct (timers s); [done|].
    apply gateOpen_idleReset. by left.
  - by apply handlePlayPause_idleReset.
  - exact (view_idleReset _ _ (handlePromptChanged_view _ _) Hi).
  - exact Hi.
  - exact Hi.
  - by apply setSessionPrompts_idleReset.
  - exact (view_idleReset _ _ (setSessionDrumMix_view _ _) Hi).
Qed.

(** In every reachable state the scheduler is reset whenever playback is
    paused or stopped: [pause] and [stop] reset [nextStartTime], and the
    gate keeps the scheduler from touching it until playback resumes. *)
Lemma reachable_idleReset s : reachable s -> idleReset s.
Proof.
  induction 1 as [ps|ev s _ IH]; [done|]. by apply step_idleReset.
Qed.

(** C2.  In every state the component can reach, a chunk that arrives
    while [nextStartTime] is set and earlier than the audio clock is dropped:
    nothing is scheduled, no timer is set, playback becomes [loading] and
    [nextStartTime] is reset to unset.  The chunk that arrives next is
    handled as a first chunk: it is scheduled [lookahead] (2 s) after the
    clock time of its own arrival, the lookahead timer is set again, and
    [nextStartTime] moves to the end of that buffer. *)
Theorem underrun_drops_chunk_and_reprimes s now e dur :
  reachable s -> chunkOf e = Some dur ->
  nextStartTime s <> 0 -> nextStartTime s < now ->
  let s' := onmessage now e s in
  scheduled s' = scheduled s /\
  timers s' = timers s /\
  playbackState s' = loading /\
  nextStartTime s' = 0 /\
  forall now' e' dur', chunkOf e' = Some dur' ->
    let s'' := onmessage now' e' s' in
    scheduled s'' =
      scheduled s' ++ [ {| node := outputNode s';
                           scheduledStartTime := now' + lookahead;
                           duration := dur' |} ] /\
    timers s'' = timers s' ++ [lookaheadDelay] /\
    nextStartTime s'' = now' + lookahead + dur'.
Proof.
  intros Hr Hc Hset Hlate s'.
  assert (gateOpen s) as Hg.
  { destruct (gate_cases s) as [Hg|Hg]; [done|].
    destruct Hset. by apply (reachable_idleReset s Hr). }
  assert (underrun now s = true) as Hu.
  { unfold underrun, primed. apply N.eqb_neq in Hset. rewrite Hset.
    by apply N.ltb_lt. }
  destruct (onmessage_chunk_open now e dur s Hg Hc) as (s0 & Hs' & Hv).
  rewrite <- (view_underrun now _ _ Hv) in Hu.
  destruct (scheduleBuffer_underrun now dur s0 Hu) as (H1 & H2 & H3 & H4 & H5).
  fold s' in Hs'. rewrite <- Hs' in H1, H2, H3, H4, H5.
  unfold view in Hv. injection Hv as Hvp Hvt Hvo Hvti Hvs.
  rewrite H1, H2, H3, H4, Hvs, Hvti.
  do 4 (split; [done|]).
  intros now' e' dur' Hc' s''.
  assert (gateOpen s') as Hg' by (by right).
  destruct (chunk_scheduled now' e' dur' s' Hg' Hc'
              (first_chunk_never_underruns now' s' H2)) as (G1 & G2 & _ & G4).
  fold s'' in G1, G2, G4. rewrite G1, G2, G4.
  unfold primed. rewrite H2, H1, H4, Hvs, Hvti. done.
Qed.

(** ** The scheduler in seconds *)

(** *** Sums of times that are not negative *)

Section Binary64.
Import SpecFloat.
#[local] Abbreviation prec := FloatOps.prec.
#[local] Abbreviation emax := FloatOps.emax.
#[local] Abbreviation emin := (SpecFloat.emin prec emax).

Lemma shr_1_half k mrs : (2 * k <= shr_m mrs -> k <= shr_m (shr_1 mrs))%Z.
Proof.
  destruct mrs as [m r s]. unfold shr_1. cbn [shr_m].
  destruct m as [|[p|p|]|[p|p|]]; cbn [shr_m]; lia.
Qed.

Lemma iter_shr_1 p : forall k mrs,
  (2 ^ Zpos p * k <= shr_m mrs -> k <= shr_m (iter_pos shr_1 p mrs))%Z.
Proof.
  induction p as [p IH|p IH|]; intros k mrs H; simpl.
  - apply IH, IH, shr_1_half.
    replace (Zpos p~1) with (Zpos p + Zpos p + 1)%Z in H by lia.
    rewrite !Z.pow_add_r in H by lia. change (2 ^ 1)%Z with 2%Z in H. lia.
  - apply IH, IH.
    replace (Zpos p~0) with (Zpos p + Zpos p)%Z in H by lia.
    rewrite !Z.pow_add_r in H by lia. lia.
  - apply shr_1_half. change (2 ^ 1)%Z with 2%Z in H. lia.
Qed.

Lemma digits2_pos_lower m : (2 ^ (Zpos (digits2_pos m) - 1) <= Zpos m)%Z.
Proof.
  induction m as [m IH|m IH|]; simpl digits2_pos.
  - rewrite Pos2Z.inj_succ.
    replace (Z.succ (Zpos (digits2_pos m)) - 1)%Z
      with (1 + (Zpos (digits2_pos m) - 1))%Z by lia.
    rewrite Z.pow_add_r by lia. change (2 ^ 1)%Z with 2%Z. lia.
  - rewrite Pos2Z.inj_succ.
    replace (Z.succ (Zpos (digits2_pos m)) - 1)%Z
      with (1 + (Zpos (digits2_pos m) - 1))%Z by lia.
    rewrite Z.pow_add_r by lia. change (2 ^ 1)%Z with 2%Z. lia.
  - reflexivity.
Qed.

Lemma shr_m_of_loc m l : shr_m (shr_record_of_loc m l) = m.
Proof. destruct l as [|[]]; reflexivity. Qed.

(** Rounding a positive mantissa whose exponent is not below [emin] to the
    format leaves a positive mantissa: nothing is flushed to zero. *)
Lemma shr_fexp_positive m e l :
  (emin <= e)%Z ->
  (0 < shr_m (shr_fexp prec emax (Zpos m) e l).1 /\
   emin <= (shr_fexp prec emax (Zpos m) e l).2)%Z.
Proof.
  intros He. unfold shr_fexp, shr.
  set (n := (fexp prec emax (Zdigits2 (Zpos m) + e) - e)%Z).
  assert (n <= Zpos (digits2_pos m) - 1)%Z as Hn.
  { subst n. unfold fexp, Zdigits2, SpecFloat.emin, FloatOps.prec,
      FloatOps.emax in *. lia. }
  destruct n as [|p|p] eqn:E; simpl; rewrite ?shr_m_of_loc; try lia.
  split; [|lia].
  assert (1 <= shr_m (iter_pos shr_1 p (shr_record_of_loc (Zpos m) l)))%Z;
    [|lia].
  apply iter_shr_1. rewrite shr_m_of_loc, Z.mul_1_r.
  etransitivity; [|apply digits2_pos_lower].
  apply Z.pow_le_mono_r; lia.
Qed.

Lemma round_nearest_even_positive m l :
  (0 < m -> 0 < round_nearest_even m l)%Z.
Proof.
  intros Hm. destruct l as [|[]]; simpl; try lia.
  destruct (Z.even m); lia.
Qed.

Lemma binary_round_aux_positive m e :
  (emin <= e)%Z ->
  positive_sf (binary_round_aux prec emax false (Zpos m) e loc_Exact).
Proof.
  intros He. unfold binary_round_aux.
  destruct (shr_fexp_positive m e loc_Exact He) as [H1 H2].
  destruct (shr_fexp prec emax (Zpos m) e loc_Exact) as [mrs' e'].
  simpl in H1, H2.
  pose proof (round_nearest_even_positive (shr_m mrs')
                (loc_of_shr_record mrs') H1) as Hr.
  destruct (round_nearest_even (shr_m mrs') (loc_of_shr_record mrs'))
    as [|m2|m2]; try lia.
  destruct (shr_fexp_positive m2 e' loc_Exact H2) as [H3 _].
  destruct (shr_fexp prec emax (Zpos m2) e' loc_Exact) as [mrs'' e''].
  simpl in H3.
  destruct (shr_m mrs'') as [|m3|m3]; try lia.
  destruct (e'' <=? emax - prec)%Z; exact I.
Qed.

Lemma binary_round_positive m e :
  (emin <= e)%Z -> positive_sf (binary_round prec emax false m e).
Proof.
  intros He. unfold binary_round, shl_align.
  set (f := fexp prec emax (Zpos (digits2_pos m) + e)).
  assert (emin <= f)%Z as Hf by (subst f; unfold fexp; lia).
  destruct (f - e)%Z eqn:E; apply binary_round_aux_positive; lia.
Qed.

Lemma valid_exponent s m e :
  valid_binary prec emax (S754_finite s m e) = true -> (emin <= e)%Z.
Proof.
  unfold valid_binary, bounded, canonical_mantissa.
  intros [H _]%andb_prop. apply Z.eqb_eq in H. unfold fexp in H. lia.
Qed.

(** The binary64 sum of two numbers that are not negative, one of them
    positive, is positive: it is neither zero nor NaN. *)
Lemma SFadd_positive x y :
  valid_binary prec emax x = true -> valid_binary prec emax y = true ->
  nonneg_sf x -> nonneg_sf y -> positive_sf x \/ positive_sf y ->
  positive_sf (SFadd prec emax x y).
Proof.
  intros Vx Vy Nx Ny P.
  destruct x as [sx|[]| |[] mx ex], y as [sy|[]| |[] my ey];
    simpl in Nx, Ny, P; try done; try tauto.
  all: try (destruct sx; done).
  all: try (destruct sy; done).
  unfold SFadd.
  pose proof (valid_exponent _ _ _ Vx). pose proof (valid_exponent _ _ _ Vy).
  cbn [cond_Zopp Z.add]. unfold binary_normalize.
  apply binary_round_positive. lia.
Qed.

Lemma nonneg_spec x : Seconds.nonneg x <-> nonneg_sf (FloatOps.Prim2SF x).
Proof.
  unfold Seconds.nonneg. rewrite FloatAxioms.leb_spec.
  change (FloatOps.Prim2SF PrimFloat.zero) with (S754_zero false).
  destruct (FloatOps.Prim2SF x) as [s|[]| |[] m e]; cbv; intuition congruence.
Qed.

Lemma positive_spec x :
  Seconds.positive x <-> positive_sf (FloatOps.Prim2SF x).
Proof.
  unfold Seconds.positive. rewrite FloatAxioms.ltb_spec.
  change (FloatOps.Prim2SF PrimFloat.zero) with (S754_zero false).
  destruct (FloatOps.Prim2SF x) as [s|[]| |[] m e]; cbv; intuition congruence.
Qed.

Lemma positive_nonneg x : Seconds.positive x -> Seconds.nonneg x.
Proof.
  rewrite positive_spec, nonneg_spec.
  by destruct (FloatOps.Prim2SF x) as [s|[]| |[] m e].
Qed.

Lemma positive_nonzero x : Seconds.positive x -> (x =? PrimFloat.zero)%float = false.
Proof.
  rewrite positive_spec, FloatAxioms.eqb_spec.
  change (FloatOps.Prim2SF PrimFloat.zero) with (S754_zero false).
  by destruct (FloatOps.Prim2SF x) as [s|[]| |[] m e].
Qed.

Lemma nonneg_nonzero_positive x :
  Seconds.nonneg x -> (x =? PrimFloat.zero)%float = false -> Seconds.positive x.
Proof.
  rewrite positive_spec, nonneg_spec, FloatAxioms.eqb_spec.
  change (FloatOps.Prim2SF PrimFloat.zero) with (S754_zero false).
  by destruct (FloatOps.Prim2SF x) as [s|[]| |[] m e].
Qed.

Lemma add_positive x y :
  Seconds.nonneg x -> Seconds.nonneg y ->
  Seconds.positive x \/ Seconds.positive y ->
  Seconds.positive (x + y)%float.
Proof.
  rewrite !nonneg_spec, !positive_spec, FloatAxioms.add_spec.
  apply SFadd_positive; apply FloatAxioms.Prim2SF_valid.
Qed.
End Binary64.

(** *** The handlers and the scheduler's fields *)

Lemma seconds_run_cons ev evs s :
  Seconds.run (ev :: evs) s = Seconds.run evs (Seconds.step ev s).
Proof. reflexivity. Qed.

Lemma seconds_run_app evs1 evs2 s :
  Seconds.run (evs1 ++ evs2) s = Seconds.run evs2 (Seconds.run evs1 s).
Proof. unfold Seconds.run. apply fold_left_app. Qed.

(** The part of [onmessage] before the audio branch leaves the scheduler's
    fields alone. *)
Lemma seconds_onmessage_chunk now e dur s :
  Seconds.gateOpen s -> Seconds.chunkOf e = Some dur ->
  exists s0,
    Seconds.onmessage now e s = Seconds.scheduleBuffer now dur s0 /\
    Seconds.playbackState s0 = Seconds.playbackState s /\
    Seconds.nextStartTime s0 = Seconds.nextStartTime s /\
    Seconds.outputNode s0 = Seconds.outputNode s /\
    Seconds.scheduled s0 = Seconds.scheduled s.
Proof.
  intros Hg Hc. destruct e as [sc fp ac]. unfold Seconds.chunkOf in Hc.
  simpl in Hc. destruct ac as [[|c cs]|]; try discriminate.
  unfold Seconds.onmessage, Seconds.onAudioChunks. simpl.
  set (s1 := if sc
             then Seconds.request SetSessionDrumMix
                    (Seconds.with_connectionError false s)
             else s).
  exists (match fp with
          | Some f =>
              Seconds.toast (filteredReason f)
                (Seconds.with_filteredPrompts
                   (Seconds.filteredPrompts s1 ∪ {[ filteredText f ]}) s1)
          | None => s1
          end).
  assert (Seconds.playbackState
            (match fp with
             | Some f =>
                 Seconds.toast (filteredReason f)
                   (Seconds.with_filteredPrompts
                      (Seconds.filteredPrompts s1 ∪ {[ filteredText f ]}) s1)
             | None => s1
             end) = Seconds.playbackState s) as Hp
    by (subst s1; destruct sc, fp; done).
  split.
  - rewrite Hp, Hc. by destruct Hg as [-> | ->].
  - split; [exact Hp|]. subst s1. destruct sc, fp; done.
Qed.

(** A chunk that does not meet the underrun test is scheduled at the
    scheduler's start time, which then advances by its duration. *)
Lemma seconds_chunk_scheduled now e dur s :
  Seconds.gateOpen s -> Seconds.chunkOf e = Some dur ->
  Seconds.underrun now s = false ->
  let s' := Seconds.onmessage now e s in
  Seconds.scheduled s' =
    Seconds.scheduled s ++
      [ {| Seconds.node := Seconds.outputNode s;
           Seconds.scheduledStartTime := Seconds.primed now s;
           Seconds.duration := dur |} ] /\
  Seconds.nextStartTime s' = (Seconds.primed now s + dur)%float /\
  Seconds.playbackState s' = Seconds.playbackState s /\
  Seconds.outputNode s' = Seconds.outputNode s.
Proof.
  intros Hg Hc Hu s'. subst s'.
  destruct (seconds_onmessage_chunk now e dur s Hg Hc)
    as (s0 & -> & Hp & Ht & Ho & Hs).
  unfold Seconds.underrun, Seconds.primed in *.
  unfold Seconds.scheduleBuffer. rewrite Ht. revert Hu.
  match goal with
  | |- context [PrimFloat.eqb ?a ?b] => destruct (PrimFloat.eqb a b)
  end; simpl; intros Hu.
  - rewrite Hu. simpl. by rewrite Hp, Ho, Hs.
  - rewrite ?Ht, Hu. simpl. by rewrite ?Hp, ?Ho, ?Hs, ?Ht.
Qed.

(** A message that gives the scheduler no buffer leaves its fields alone. *)
Lemma seconds_no_chunk now e s :
  Seconds.chunkOf e = None ->
  let s' := Seconds.onmessage now e s in
  Seconds.scheduled s' = Seconds.scheduled s /\
  Seconds.nextStartTime s' = Seconds.nextStartTime s /\
  Seconds.playbackState s' = Seconds.playbackState s /\
  Seconds.outputNode s' = Seconds.outputNode s.
Proof.
  intros Hc s'. subst s'. destruct e as [sc fp ac].
  unfold Seconds.chunkOf in Hc. simpl in Hc.
  unfold Seconds.onmessage, Seconds.onAudioChunks. simpl.
  destruct ac as [[|c cs]|]; [| |by destruct sc, fp].
  - destruct sc, fp; simpl; destruct (Seconds.playbackState s) eqn:E;
      simpl; rewrite ?E; done.
  - rewrite Hc. destruct sc, fp; simpl;
      destruct (Seconds.playbackState s) eqn:E; simpl; rewrite ?E; done.
Qed.

Lemma seconds_pause_closed env s : ~ Seconds.gateOpen (Seconds.pause env s).
Proof. intros [H|H]; revert H; seconds_crush. Qed.

Lemma seconds_stop_closed env s : ~ Seconds.gateOpen (Seconds.stop env s).
Proof. intros [H|H]; revert H; seconds_crush. Qed.

(** Between two chunks: an event that hands [onmessage] nothing and leaves
    playback [playing] or [loading] leaves the scheduler's start time, its
    buffers and the output node as they are.  The others (a click on
    play/pause, a connection error, a connect that fails, a push that is
    refused or fails) end in [pause()] or [stop()]. *)
Lemma seconds_between_chunks ev s :
  Seconds.gateOpen s -> Seconds.gateOpen (Seconds.step ev s) ->
  match ev with
  | Seconds.EvMessage _ _
  | Seconds.EvFirstUpdated _ (Seconds.Connected _ _) => True
  | _ =>
      Seconds.scheduled (Seconds.step ev s) = Seconds.scheduled s /\
      Seconds.nextStartTime (Seconds.step ev s) = Seconds.nextStartTime s /\
      Seconds.outputNode (Seconds.step ev s) = Seconds.outputNode s
  end.
Proof.
  intros Hg Hg'. destruct ev; try done; simpl in Hg' |- *.
  - destruct c as [msg|h during]; [|done]. exfalso. revert Hg'.
    unfold Seconds.firstUpdated, Seconds.connectToSession.
    intros [H|H]; revert H; seconds_crush.
  - exfalso. revert Hg'. unfold Seconds.onerror, Seconds.toast.
    intros [H|H]; revert H; seconds_crush.
  - exfalso. revert Hg'. unfold Seconds.onclose, Seconds.toast.
    intros [H|H]; revert H; seconds_crush.
  - unfold Seconds.lookaheadElapsed. by destruct (Seconds.timers s).
  - exfalso. unfold Seconds.handlePlayPause in Hg'.
    destruct Hg as [Hg|Hg]; rewrite Hg in Hg'.
    + by apply seconds_pause_closed in Hg'.
    + by apply seconds_stop_closed in Hg'.
  - unfold Seconds.handlePromptChanged. by destruct (map_get _ _).
  - unfold Seconds.setSessionPrompts in *.
    destruct (Seconds.connectionError s || _); [done|].
    destruct (length _ =? 0)%nat;
      [by apply seconds_pause_closed in Hg'|].
    destruct (onSetWeightedPrompts env); [done|].
    by apply seconds_pause_closed in Hg'.
  - unfold Seconds.setSessionDrumMix.
    destruct (Seconds.connectionError s || _); [done|].
    by destruct (onSetDrumMix env).
Qed.

Lemma seconds_staysOpen_head evs s :
  Seconds.staysOpen evs s -> Seconds.gateOpen s.
Proof. destruct evs; simpl; tauto. Qed.

Lemma seconds_staysOpen_app evs1 evs2 s :
  Seconds.staysOpen (evs1 ++ evs2) s ->
  Seconds.staysOpen evs2 (Seconds.run evs1 s).
Proof.
  revert s. induction evs1 as [|ev evs1 IH]; intros s; [done|].
  simpl. intros [_ H]. exact (IH _ H).
Qed.

Lemma seconds_noUnderrun_app evs1 evs2 s :
  Seconds.noUnderrun (evs1 ++ evs2) s ->
  Seconds.noUnderrun evs2 (Seconds.run evs1 s).
Proof.
  revert s. induction evs1 as [|ev evs1 IH]; intros s; [done|].
  simpl. intros [_ H]. exact (IH _ H).
Qed.

Lemma seconds_chained_lookup t l i a b :
  Seconds.chained t l -> l !! i = Some a -> l !! S i = Some b ->
  Seconds.scheduledStartTime b =
    (Seconds.scheduledStartTime a + Seconds.duration a)%float.
Proof.
  revert t i. induction l as [|x l IH]; intros t i; [done|].
  simpl. intros [Hx Hl]. destruct i as [|i]; simpl.
  - intros [= ->]. destruct l as [|y l]; [done|].
    simpl. intros [= ->]. destruct Hl as [-> _]. by rewrite Hx.
  - intros Ha Hb. exact (IH _ _ Hl Ha Hb).
Qed.

Lemma seconds_chained_app l1 : forall t l2,
  Seconds.chained t l1 -> Seconds.chained (Seconds.endOf t l1) l2 ->
  Seconds.chained t (l1 ++ l2).
Proof.
  induction l1 as [|x l1 IH]; intros t l2; [done|].
  simpl. intros [Hx Hl] H2. split; [done|]. by apply IH.
Qed.

Lemma seconds_endOf_app t l1 l2 :
  Seconds.endOf t (l1 ++ l2) = Seconds.endOf (Seconds.endOf t l1) l2.
Proof. apply fold_left_app. Qed.

Lemma seconds_chunks_cons d msgs :
  Seconds.chunks (d :: msgs) = Seconds.chunks [d] ++ Seconds.chunks msgs.
Proof. unfold Seconds.chunks. simpl. by destruct (Seconds.chunkOf d.2). Qed.

Lemma seconds_primed_positive now s :
  Seconds.nonneg now -> Seconds.nonneg (Seconds.nextStartTime s) ->
  Seconds.positive (Seconds.primed now s).
Proof.
  intros Hn Hs. unfold Seconds.primed.
  match goal with
  | |- context [PrimFloat.eqb ?a ?b] => destruct (PrimFloat.eqb a b) eqn:E
  end.
  - apply add_positive; [done| |right]; by vm_compute.
  - by apply nonneg_nonzero_positive.
Qed.

(** [extends] only reads the buffers and the start time. *)
Lemma seconds_extends_fields s0 s0' s s' new :
  Seconds.scheduled s = Seconds.scheduled s0 ->
  Seconds.nextStartTime s = Seconds.nextStartTime s0 ->
  Seconds.scheduled s' = Seconds.scheduled s0' ->
  Seconds.nextStartTime s' = Seconds.nextStartTime s0' ->
  Seconds.extends s0 new s0' -> Seconds.extends s new s'.
Proof. unfold Seconds.extends. by intros -> -> -> ->. Qed.

Lemma seconds_extends_nil s s' :
  Seconds.scheduled s' = Seconds.scheduled s ->
  Seconds.nextStartTime s' = Seconds.nextStartTime s ->
  Seconds.extends s [] s'.
Proof. intros H1 H2. split; [by rewrite app_nil_r|done]. Qed.

Lemma seconds_extends_nonneg s new s' :
  Seconds.extends s new s' -> Seconds.nonneg (Seconds.nextStartTime s) ->
  Seconds.nonneg (Seconds.nextStartTime s').
Proof.
  intros [_ H] Hs. destruct new as [|b new]; [by rewrite H|].
  apply positive_nonneg. tauto.
Qed.

(** Two stretches of scheduling, one after the other, make one. *)
Lemma seconds_extends_trans s new1 s1 new2 s2 :
  Seconds.extends s new1 s1 -> Seconds.extends s1 new2 s2 ->
  Seconds.extends s (new1 ++ new2) s2.
Proof.
  intros [Hs1 H1] [Hs2 H2]. split; [by rewrite Hs2, Hs1, <- app_assoc|].
  destruct new1 as [|b new1].
  { simpl. rewrite H1 in H2. exact H2. }
  destruct H1 as (Hb & Hch & Hend & Hpos).
  destruct new2 as [|b2 new2]; simpl app.
  { by rewrite app_nil_r, H2. }
  destruct H2 as (Hb2 & Hch2 & Hend2 & Hpos2).
  specialize (Hb2 (positive_nonzero _ Hpos)). rewrite Hend in Hb2.
  split; [done|]. split; [|split; [|done]].
  - apply (seconds_chained_app (b :: new1)); [done|]. by rewrite <- Hb2.
  - rewrite Hend2, Hb2. symmetry.
    apply (seconds_endOf_app _ (b :: new1) (b2 :: new2)).
Qed.

(** One message handed to [onmessage] while playback is [playing] or
    [loading]: a chunk that does not meet the underrun test is the one
    buffer scheduled, any other message schedules nothing. *)
Lemma seconds_message d s :
  Seconds.gateOpen s -> Seconds.fed [d] s -> Seconds.sane d ->
  Seconds.nonneg (Seconds.nextStartTime s) ->
  Seconds.gateOpen (Seconds.deliver s d) /\
  exists new,
    Seconds.extends s new (Seconds.deliver s d) /\
    Seconds.duration <$> new = Seconds.chunks [d].
Proof.
  destruct d as [now e]. unfold Seconds.deliver, Seconds.sane, Seconds.chunks.
  simpl. intros Hg [Hu _] [Hn Hd] Hs.
  destruct (Seconds.chunkOf e) as [dur|] eqn:Hc.
  - destruct (seconds_chunk_scheduled now e dur s Hg Hc Hu)
      as (H1 & H2 & H3 & _).
    split; [unfold Seconds.gateOpen; by rewrite H3|].
    pose proof (seconds_primed_positive now s Hn Hs) as Hp.
    eexists [_]. split; [split; [exact H1|]|reflexivity]. simpl.
    split.
    { intros E. unfold Seconds.primed. by rewrite E. }
    split; [done|]. split; [exact H2|]. rewrite H2.
    apply add_positive; [by apply positive_nonneg|done|by left].
  - destruct (seconds_no_chunk now e s Hc) as (H1 & H2 & H3 & _).
    split; [unfold Seconds.gateOpen; by rewrite H3|].
    exists []. split; [by apply seconds_extends_nil|done].
Qed.

(** The same for the messages of one event, in order. *)
Lemma seconds_feed msgs : forall s,
  Seconds.gateOpen s -> Seconds.fed msgs s -> Forall Seconds.sane msgs ->
  Seconds.nonneg (Seconds.nextStartTime s) ->
  Seconds.gateOpen (fold_left Seconds.deliver msgs s) /\
  exists new,
    Seconds.extends s new (fold_left Seconds.deliver msgs s) /\
    Seconds.duration <$> new = Seconds.chunks msgs.
Proof.
  induction msgs as [|d msgs IH]; intros s Hg Hf Hw Hs.
  { split; [done|]. exists []. split; [by apply seconds_extends_nil|done]. }
  destruct Hf as [Hf1 Hf]. apply Forall_cons in Hw as [Hw1 Hw].
  destruct (seconds_message d s Hg (conj Hf1 I) Hw1 Hs)
    as (Hg1 & new1 & He1 & Hd1).
  destruct (IH _ Hg1 Hf Hw (seconds_extends_nonneg _ _ _ He1 Hs))
    as (Hg2 & new2 & He2 & Hd2).
  split; [exact Hg2|]. exists (new1 ++ new2). split.
  - exact (seconds_extends_trans _ _ _ _ _ He1 He2).
  - by rewrite fmap_app, Hd1, Hd2, <- seconds_chunks_cons.
Qed.

(** One event that leaves playback [playing] or [loading]. *)
Lemma seconds_event ev s :
  Seconds.gateOpen s -> Seconds.gateOpen (Seconds.step ev s) ->
  Seconds.fed (Seconds.inbound ev) (Seconds.entry ev s) ->
  Seconds.wellFormed ev ->
  Seconds.nonneg (Seconds.nextStartTime s) ->
  exists new,
    Seconds.extends s new (Seconds.step ev s) /\
    Seconds.duration <$> new = Seconds.chunks (Seconds.inbound ev).
Proof.
  intros Hg Hg' Hf Hw Hs.
  pose proof (seconds_between_chunks ev s Hg Hg') as Hb.
  destruct ev as [env [msg|h during] | now e | | | | | | | | |];
    try (destruct Hb as (H1 & H2 & _); exists [];
         split; [by apply seconds_extends_nil|done]).
  - (* the messages that arrive during the connect *)
    unfold Seconds.wellFormed in Hw. simpl in Hf, Hw |- *.
    destruct (seconds_feed during (Seconds.transmit CmdConnect s))
      as (_ & new & He & Hd); try done.
    exists new. split; [|done].
    revert He. apply seconds_extends_fields; try done;
      unfold Seconds.firstUpdated, Seconds.connectToSession;
      seconds_crush.
  - (* a message *)
    unfold Seconds.wellFormed in Hw. simpl in Hf, Hw.
    apply Forall_cons in Hw as [Hw _].
    destruct (seconds_message (now, e) s Hg Hf Hw Hs) as (_ & new & He & Hd).
    by exists new.
Qed.

(** The scheduler's invariant along a trace during which playback stays
    [playing] or [loading] and no chunk meets the underrun test. *)
Lemma seconds_stream_chained evs : forall s,
  Seconds.staysOpen evs s -> Seconds.noUnderrun evs s ->
  Forall Seconds.wellFormed evs ->
  Seconds.nonneg (Seconds.nextStartTime s) ->
  exists new,
    Seconds.extends s new (Seconds.run evs s) /\
    Seconds.duration <$> new = Seconds.delivered evs.
Proof.
  induction evs as [|ev evs IH]; intros s Ho Hu Hw Hs.
  { exists []. split; [by apply seconds_extends_nil|done]. }
  destruct Ho as [Hg Ho]. destruct Hu as [Hu1 Hu].
  apply Forall_cons in Hw as [Hw1 Hw].
  pose proof (seconds_staysOpen_head _ _ Ho) as Hg'.
  rewrite seconds_run_cons.
  destruct (seconds_event ev s Hg Hg' Hu1 Hw1 Hs) as (new1 & He1 & Hd1).
  destruct (IH _ Ho Hu Hw (seconds_extends_nonneg _ _ _ He1 Hs))
    as (new2 & He2 & Hd2).
  exists (new1 ++ new2). split.
  - exact (seconds_extends_trans _ _ _ _ _ He1 He2).
  - rewrite fmap_app, Hd1, Hd2. reflexivity.
Qed.

(** C1.  Times are the code's binary64 seconds.  Take any run of events
    (messages, timer firings, edits, pushes, connects, in any order) during
    which playback stays [playing] or [loading] and no chunk meets the
    underrun test, the clock and the durations being non-negative as the
    platform has them.  Then the chunk of a message is scheduled, on the
    output node of the moment, to start exactly at the scheduler's current
    start time ([nextStartTime], or the clock plus [bufferTime] for a first
    chunk), and [nextStartTime] becomes that start plus the chunk's
    duration.  And the buffers scheduled during the run are the delivered
    chunks in arrival order, each one starting where its predecessor ends:
    start[i+1] = start[i] + duration[i], the sum being the code's. *)
Theorem scheduled_buffers_contiguous evs s :
  Seconds.staysOpen evs s -> Seconds.noUnderrun evs s ->
  Forall Seconds.wellFormed evs ->
  Seconds.nonneg (Seconds.nextStartTime s) ->
  (forall pre now e post dur,
      evs = pre ++ Seconds.EvMessage now e :: post ->
      Seconds.chunkOf e = Some dur ->
      let s0 := Seconds.run pre s in
      let s1 := Seconds.onmessage now e s0 in
      Seconds.gateOpen s0 /\
      Seconds.scheduled s1 =
        Seconds.scheduled s0 ++
          [ {| Seconds.node := Seconds.outputNode s0;
               Seconds.scheduledStartTime := Seconds.primed now s0;
               Seconds.duration := dur |} ] /\
      Seconds.nextStartTime s1 = (Seconds.primed now s0 + dur)%float) /\
  exists new,
    Seconds.scheduled (Seconds.run evs s) = Seconds.scheduled s ++ new /\
    Seconds.duration <$> new = Seconds.delivered evs /\
    forall i a b,
      new !! i = Some a -> new !! S i = Some b ->
      Seconds.scheduledStartTime b =
        (Seconds.scheduledStartTime a + Seconds.duration a)%float.
Proof.
  intros Ho Hu Hw Hs. split.
  - intros pre now e post dur -> Hc s0 s1.
    apply seconds_staysOpen_app in Ho. apply seconds_noUnderrun_app in Hu.
    fold s0 in Ho, Hu. destruct Ho as [Hg _].
    simpl in Hu. rewrite Hc in Hu. destruct Hu as [[Hu _] _].
    destruct (seconds_chunk_scheduled now e dur s0 Hg Hc Hu) as (H1 & H2 & _).
    done.
  - destruct (seconds_stream_chained evs s Ho Hu Hw Hs)
      as (new & [H1 H3] & H2).
    exists new. split; [done|]. split; [done|].
    intros i a b Ha Hb. destruct new as [|b0 new]; [done|].
    destruct H3 as (_ & Hch & _).
    exact (seconds_chained_lookup _ _ _ _ _ Hch Ha Hb).
Qed.

(** ** What the handlers send *)

Lemma onmessage_sent now e s : sent (onmessage now e s) = sent s.
Proof. crush. Qed.

Lemma onmessage_toasts now e s :
  toasts (onmessage now e s) =
    toasts s ++ match filteredPrompt e with
                | Some f => [filteredReason f]
                | None => []
                end.
Proof. crush; by rewrite app_nil_r. Qed.

Lemma onmessage_connectionError now e s :
  connectionError (onmessage now e s) =
    if setupComplete e then false else connectionError s.
Proof. crush. Qed.

Lemma onmessage_filteredPrompts now e s :
  filteredPrompts (onmessage now e s) =
    match filteredPrompt e with
    | Some f => filteredPrompts s ∪ {[ filteredText f ]}
    | None => filteredPrompts s
    end.
Proof. crush. Qed.

Lemma onmessage_session now e s : session (onmessage now e s) = session s.
Proof. crush. Qed.

Lemma deliver_all_sent during : forall s,
  sent (fold_left deliver during s) = sent s.
Proof.
  induction during as [|d during IH]; intros s; [done|].
  simpl. rewrite IH. apply onmessage_sent.
Qed.

Lemma deliver_all_filteredPrompts during : forall s,
  filteredPrompts s ⊆ filteredPrompts (fold_left deliver during s).
Proof.
  induction during as [|d during IH]; intros s; [done|].
  simpl. etrans; [|apply IH]. unfold deliver.
  rewrite onmessage_filteredPrompts. case_match; set_solver.
Qed.

Lemma pause_sent env s :
  sent (pause env s) = sent s ++ if sessionLive s then [CmdPause] else [].
Proof. crush; by rewrite ?app_nil_r. Qed.

Lemma stop_sent env s :
  sent (stop env s) = sent s ++ if sessionLive s then [CmdStop] else [].
Proof. crush; by rewrite ?app_nil_r. Qed.

Lemma play_sent env s :
  sent (play env s) =
    sent s ++
    match session s with
    | None => []
    | Some _ =>
        if sessionLive s then
          if (length (getPromptsToSend s) =? 0)%nat then [CmdPause]
          else [CmdPlay]
        else []
    end.
Proof. crush; by rewrite ?app_nil_r. Qed.

Lemma connectToSession_sent env c s :
  sent (connectToSession env c s) = sent s ++ [CmdConnect].
Proof.
  unfold connectToSession. destruct c as [msg|h during].
  - crush.
  - simpl. by rewrite deliver_all_sent.
Qed.

Lemma setSessionPrompts_sent env s :
  sent (setSessionPrompts env s) =
    sent s ++
    if connectionError s || negb (hasSession s) then []
    else if (length (getPromptsToSend s) =? 0)%nat then [CmdPause]
    else CmdSetWeightedPrompts (getPromptsToSend s)
           :: match onSetWeightedPrompts env with
              | Fulfilled => []
              | Rejected _ => [CmdPause]
              end.
Proof. crush_at s; by rewrite <- ?app_assoc, ?app_nil_r. Qed.

Lemma setSessionDrumMix_sent env s :
  sent (setSessionDrumMix env s) =
    sent s ++
    if connectionError s || negb (hasSession s) then []
    else [CmdSetDrumMix (normalizeDrumMix (drumMixSettings s))].
Proof. crush; by rewrite ?app_nil_r. Qed.

Lemma pause_steering env s :
  exists new, sent (pause env s) = sent s ++ new /\ Forall steering new.
Proof.
  eexists. split; [apply pause_sent|]. case_match; repeat constructor.
Qed.

Lemma stop_steering env s :
  exists new, sent (stop env s) = sent s ++ new /\ Forall steering new.
Proof.
  eexists. split; [apply stop_sent|]. case_match; repeat constructor.
Qed.

Lemma play_steering env s :
  exists new, sent (play env s) = sent s ++ new /\ Forall steering new.
Proof.
  eexists. split; [apply play_sent|]. repeat case_match; repeat constructor.
Qed.

Lemma handlePlayPause_steering env c s :
  exists new,
    sent (handlePlayPause env c s) = sent s ++ new /\ Forall steering new.
Proof.
  unfold handlePlayPause.
  assert (exists new,
    sent
      (if connectionError s || negb (hasSession s) then
        let s1 :=
          connectToSession env c (toast "Reconnecting Lyria session..." s) in
        if negb (connectionError s1) && hasSession s1
        then
          play env (request SetSessionDrumMix (request SetSessionPrompts s1))
        else
          with_playbackState stopped
            (toast "Failed to reconnect Lyria. Please check console." s1)
      else play env s) = sent s ++ new /\ Forall steering new) as Hplay.
  { destruct (connectionError s || _); [|apply play_steering].
    simpl. destruct (negb _ && _).
    - destruct (play_steering env
        (request SetSessionDrumMix (request SetSessionPrompts
           (connectToSession env c (toast "Reconnecting Lyria session..." s)))))
        as (new & Hn & Hs).
      exists (CmdConnect :: new). rewrite Hn. simpl.
      rewrite connectToSession_sent. simpl. rewrite <- app_assoc.
      split; [done|]. by constructor.
    - exists [CmdConnect]. simpl. rewrite connectToSession_sent.
      split; [done|]. by repeat constructor. }
  destruct (playbackState s);
    [exact Hplay|apply pause_steering|apply stop_steering|exact Hplay].
Qed.

Lemma firstUpdated_sent env c s :
  sent (firstUpdated env c s) = sent s ++ [CmdConnect].
Proof.
  unfold firstUpdated. simpl. destruct (negb _); simpl;
    apply connectToSession_sent.
Qed.

(** What one event sends: a prompt push or a drum-mix push comes only from
    the body of the matching throttled method; everything else steers. *)
Lemma step_sent ev s :
  exists new,
    sent (step ev s) = sent s ++ new /\
    match ev with
    | EvPushPrompts env =>
        new = if connectionError s || negb (hasSession s) then []
              else if (length (getPromptsToSend s) =? 0)%nat then [CmdPause]
              else CmdSetWeightedPrompts (getPromptsToSend s)
                     :: match onSetWeightedPrompts env with
                        | Fulfilled => []
                        | Rejected _ => [CmdPause]
                        end
    | EvPushDrumMix env =>
        new = if connectionError s || negb (hasSession s) then []
              else [CmdSetDrumMix (normalizeDrumMix (drumMixSettings s))]
    | _ => Forall steering new
    end.
Proof.
  destruct ev; simpl.
  - exists [CmdConnect]. split; [apply firstUpdated_sent|by repeat constructor].
  - exists []. rewrite app_nil_r. split; [apply onmessage_sent|constructor].
  - exists []. rewrite app_nil_r. split; [crush|constructor].
  - exists []. rewrite app_nil_r. split; [crush|constructor].
  - exists []. rewrite app_nil_r. split; [crush|constructor].
  - apply handlePlayPause_steering.
  - exists []. rewrite app_nil_r. split; [crush|constructor].
  - exists []. rewrite app_nil_r. split; [crush|constructor].
  - exists []. rewrite app_nil_r. split; [crush|constructor].
  - eexists. split; [apply setSessionPrompts_sent|done].
  - eexists. split; [apply setSessionDrumMix_sent|done].
Qed.

Lemma active_spec filtered p :
  active filtered p = true <-> ~ (weight p == 0)%Q /\ text p ∉ filtered.
Proof.
  unfold active. rewrite andb_true_iff, !negb_true_iff.
  rewrite bool_decide_eq_false.
  rewrite <- not_true_iff_false, Qeq_bool_iff. tauto.
Qed.

Lemma getPromptsToSend_spec s p :
  p ∈ getPromptsToSend s <->
  p ∈ values (prompts s) /\ ~ (weight p == 0)%Q /\ text p ∉ filteredPrompts s.
Proof.
  unfold getPromptsToSend.
  rewrite !list_elem_of_In, filter_In, active_spec. done.
Qed.

(** C3.  Whatever the prompts and the filtered set are, and whichever event
    is handled, a prompt push that goes out carries exactly the prompts of
    the map whose weight is not 0 and whose text is not in the filtered set
    (the result of [getPromptsToSend]); no prompt of weight 0 and no prompt
    with a filtered text is among them. *)
Theorem prompt_push_is_active_subset ev s new ps :
  sent (step ev s) = sent s ++ new ->
  CmdSetWeightedPrompts ps ∈ new ->
  ps = getPromptsToSend s /\
  (forall p, p ∈ ps <->
     p ∈ values (prompts s) /\
     ~ (weight p == 0)%Q /\ text p ∉ filteredPrompts s) /\
  (forall p, p ∈ ps -> ~ (weight p == 0)%Q) /\
  (forall p, p ∈ ps -> text p ∉ filteredPrompts s).
Proof.
  intros Hsent Hin.
  assert (ps = getPromptsToSend s) as ->.
  { destruct (step_sent ev s) as (new' & Hn & Hev).
    rewrite Hn in Hsent. apply app_inv_head in Hsent as ->.
    destruct ev;
      try (by eapply Forall_forall in Hev; [|exact Hin]).
    - subst new. repeat case_match; in_list Hin.
    - subst new. repeat case_match; in_list Hin. }
  split; [done|]. split; [apply getPromptsToSend_spec|].
  split; intros p Hp; apply getPromptsToSend_spec in Hp; tauto.
Qed.

(** ** The drum mix on the wire *)

Lemma fill_lookup (mix : DrumMix) stems : forall (acc : DrumMix) stem,
  fold_left (fun (toSend : DrumMix) st => <[ st := stemVolume mix st ]> toSend)
    stems acc !! stem =
  if decide (stem ∈ stems) then Some (stemVolume mix stem) else acc !! stem.
Proof.
  induction stems as [|x stems IH]; intros acc stem; cbn [fold_left].
  { case_decide as H; [by apply elem_of_nil in H|done]. }
  rewrite IH. destruct (decide (stem ∈ stems)) as [Hin|Hin].
  - rewrite decide_True; [done|]. by right.
  - destruct (decide (stem = x)) as [->|Hne].
    + rewrite decide_True; [|by left]. apply lookup_insert_eq.
    + rewrite decide_False.
      * by apply lookup_insert_ne.
      * intros [?|?]%elem_of_cons; done.
Qed.

Lemma normalizeDrumMix_lookup (mix : DrumMix) stem :
  normalizeDrumMix mix !! stem =
    if decide (stem ∈ DRUM_STEM_TYPES) then Some (stemVolume mix stem)
    else None.
Proof.
  unfold normalizeDrumMix.
  rewrite (fill_lookup mix DRUM_STEM_TYPES ∅ stem).
  case_decide; [done|apply lookup_empty].
Qed.

(** C9.  There are ten fixed stem names.  For every drum mix, the map built
    for transmission binds each of them to a number: the volume the mix
    gives the stem, or the default 0.0 when the mix has no value for it; it
    binds nothing else.  A drum-mix push that goes out carries that map. *)
Theorem drum_mix_sent_is_total (mix : DrumMix) :
  length DRUM_STEM_TYPES = 10%nat /\
  (forall stem, stem ∈ DRUM_STEM_TYPES ->
     normalizeDrumMix mix !! stem =
       Some (match mix !! stem with Some v => v | None => 0.0%Q end)) /\
  (forall stem, stem ∉ DRUM_STEM_TYPES -> normalizeDrumMix mix !! stem = None) /\
  (forall ev s new m,
     drumMixSettings s = mix ->
     sent (step ev s) = sent s ++ new ->
     CmdSetDrumMix m ∈ new -> m = normalizeDrumMix mix).
Proof.
  split; [done|]. split; [|split].
  - intros stem Hin. rewrite normalizeDrumMix_lookup, decide_True; done.
  - intros stem Hin. rewrite normalizeDrumMix_lookup, decide_False; done.
  - intros ev s new m <- Hsent Hin.
    destruct (step_sent ev s) as (new' & Hn & Hev).
    rewrite Hn in Hsent. apply app_inv_head in Hsent as ->.
    destruct ev;
      try (by eapply Forall_forall in Hev; [|exact Hin]).
    + subst new. repeat case_match; in_list Hin.
    + subst new. repeat case_match; in_list Hin.
Qed.

(** ** The lookahead timer *)

Lemma lookaheadElapsed_fires s :
  timers s <> [] ->
  playbackState (lookaheadElapsed s) = playing /\
  sent (lookaheadElapsed s) = sent s.
Proof. unfold lookaheadElapsed. destruct (timers s); done. Qed.

(** C10.  The first chunk after a (re)start (gate open, [nextStartTime]
    unset) sets a timer of 2000 ms.  When a pending timer fires, playback
    becomes [playing] whatever it was, and nothing is sent to the session.
    Neither [pause] nor [stop] cancels the timer: after a pause or a stop
    issued in the lookahead window, playback is [paused] (resp. [stopped]),
    the timer is still pending, and when it fires playback is [playing]
    again without a play request. *)
Theorem lookahead_timer_overrides_pause env now e dur s :
  gateOpen s -> nextStartTime s = 0 -> chunkOf e = Some dur ->
  let s1 := onmessage now e s in
  timers s1 = timers s ++ [2000] /\
  (forall s', timers s' <> [] ->
     playbackState (lookaheadElapsed s') = playing /\
     sent (lookaheadElapsed s') = sent s') /\
  (playbackState (pause env s1) = paused /\
   timers (pause env s1) = timers s1 /\
   playbackState (lookaheadElapsed (pause env s1)) = playing /\
   sent (lookaheadElapsed (pause env s1)) = sent (pause env s1)) /\
  (playbackState (stop env s1) = stopped /\
   timers (stop env s1) = timers s1 /\
   playbackState (lookaheadElapsed (stop env s1)) = playing /\
   sent (lookaheadElapsed (stop env s1)) = sent (stop env s1)).
Proof.
  intros Hg H0 Hc s1.
  destruct (chunk_scheduled now e dur s Hg Hc
              (first_chunk_never_underruns now s H0)) as (_ & _ & _ & Ht).
  fold s1 in Ht. rewrite H0 in Ht. simpl in Ht.
  split; [exact Ht|]. split; [apply lookaheadElapsed_fires|].
  destruct (pause_fields env s1) as (P1 & _ & P3 & _).
  destruct (stop_fields env s1) as (S1 & _ & S3 & _).
  assert (timers s1 <> []) as Hne.
  { rewrite Ht. by destruct (timers s). }
  split.
  - split; [done|]. split; [done|]. apply lookaheadElapsed_fires. by rewrite P3.
  - split; [done|]. split; [done|]. apply lookaheadElapsed_fires. by rewrite S3.
Qed.

(** ** Failures of outbound commands *)

Lemma live_guard s :
  sessionLive s = true -> connectionError s || negb (hasSession s) = false.
Proof. unfold sessionLive. destruct (hasSession s), (connectionError s); done. Qed.

Lemma nonempty_length (l : list Prompt) :
  l <> [] -> (length l =? 0)%nat = false.
Proof. by destruct l. Qed.

(** C5, as the code has it.  A rejected [setWeightedPrompts] is caught:
    its message is shown and playback falls back to [paused]; the failure
    itself is not left uncaught.  A rejected [setDrumMix] is caught and
    shown, and the playback state and the scheduler stay as they are.
    [play], [pause] and [stop] are sent without any handler: when one is
    rejected nothing is shown, the rejection stays uncaught, and playback
    ends in the state the method sets anyway ([loading], [paused],
    [stopped]). *)
Theorem command_failure_handling env s msg :
  sessionLive s = true ->
  (onSetWeightedPrompts env = Rejected msg -> getPromptsToSend s <> [] ->
   let s' := setSessionPrompts env s in
   toasts s' = toasts s ++ [msg] /\
   playbackState s' = paused /\
   forall f, f ∈ uncaught s' ->
     f ∈ uncaught s \/ exists m, f = UnhandledRejection CmdPause m) /\
  (onSetDrumMix env = Rejected msg ->
   let s' := setSessionDrumMix env s in
   toasts s' = toasts s ++ [("Error setting drum mix: " ++ msg)%string] /\
   playbackState s' = playbackState s /\
   nextStartTime s' = nextStartTime s /\
   uncaught s' = uncaught s) /\
  (onPause env = Rejected msg ->
   let s' := pause env s in
   toasts s' = toasts s /\
   uncaught s' = uncaught s ++ [UnhandledRejection CmdPause msg] /\
   playbackState s' = paused) /\
  (onStop env = Rejected msg ->
   let s' := stop env s in
   toasts s' = toasts s /\
   uncaught s' = uncaught s ++ [UnhandledRejection CmdStop msg] /\
   playbackState s' = stopped) /\
  (onPlay env = Rejected msg -> getPromptsToSend s <> [] ->
   let s' := play env s in
   toasts s' = toasts s /\
   uncaught s' = uncaught s ++ [UnhandledRejection CmdPlay msg] /\
   playbackState s' = loading).
Proof.
  intros Hlive. pose proof (live_guard s Hlive) as Hguard.
  split; [|split; [|split; [|split]]].
  - intros Hrej Hne%nonempty_length s'. subst s'.
    unfold setSessionPrompts. rewrite Hguard, Hne, Hrej.
    destruct (pause_fields env (toast msg
      (transmit (CmdSetWeightedPrompts (getPromptsToSend s)) s)))
      as (P1 & _ & _ & _ & _ & P6 & _).
    split; [by rewrite P6|]. split; [done|].
    intros f. unfold pause, fireAndForget. simpl.
    destruct (sessionLive _); [|by left]. simpl.
    destruct (onPause env); simpl; [by left|].
    intros [Hf|Hf]%elem_of_app; [by left|]. right.
    apply list_elem_of_singleton in Hf. eauto.
  - intros Hrej s'. subst s'.
    unfold setSessionDrumMix. rewrite Hguard, Hrej. done.
  - intros Hrej s'. subst s'.
    unfold pause, fireAndForget. rewrite Hlive. simpl. rewrite Hrej. done.
  - intros Hrej s'. subst s'.
    unfold stop, fireAndForget. rewrite Hlive. simpl. rewrite Hrej. done.
  - intros Hrej Hne%nonempty_length s'. subst s'.
    unfold play, fireAndForget. rewrite Hne, Hlive.
    unfold sessionLive, hasSession in Hlive.
    destruct (session s); [|done]. simpl. rewrite Hrej. done.
Qed.

(** ** No active prompt *)

Lemma empty_length (l : list Prompt) : l = [] -> (length l =? 0)%nat = true.
Proof. by intros ->. Qed.

Lemma onmessage_prompts now e s : prompts (onmessage now e s) = prompts s.
Proof. crush. Qed.

Lemma connectToSession_prompts env c s :
  prompts (connectToSession env c s) = prompts s.
Proof.
  unfold connectToSession. destruct c as [msg|h during]; [crush|].
  assert (forall st, prompts (fold_left deliver during st) = prompts st) as H.
  { induction during as [|d during IH]; intros st; [done|].
    simpl. rewrite IH. apply onmessage_prompts. }
  simpl. by rewrite H.
Qed.

Lemma connectToSession_filteredPrompts env c s :
  filteredPrompts s ⊆ filteredPrompts (connectToSession env c s).
Proof.
  unfold connectToSession. destruct c as [msg|h during]; [crush|].
  simpl. apply (deliver_all_filteredPrompts during (transmit CmdConnect s)).
Qed.

(** Filtering more prompts does not make a prompt active. *)
Lemma none_active_mono s s' :
  getPromptsToSend s = [] ->
  prompts s' = prompts s -> filteredPrompts s ⊆ filteredPrompts s' ->
  getPromptsToSend s' = [].
Proof.
  unfold getPromptsToSend. intros Hn -> Hsub.
  induction (values (prompts s)) as [|p l IH]; [done|].
  simpl in Hn |- *. destruct (active (filteredPrompts s) p) eqn:E; [done|].
  assert (active (filteredPrompts s') p = false) as ->; [|by apply IH].
  unfold active in *. apply andb_false_iff in E as [E|E].
  - apply negb_false_iff, bool_decide_eq_true in E.
    rewrite (bool_decide_eq_true_2 (text p ∈ filteredPrompts s')); [done|].
    by apply Hsub.
  - rewrite E. by rewrite andb_false_r.
Qed.

(** C6, as the code has it.  When no prompt is active, a push attempted on
    a live connection sends no prompts: it shows the notice, pauses
    playback, and the pause is the only command that goes out; without a
    live connection the push returns at its guard and changes nothing.
    [play()] with a session and no active prompt sends no play command: it
    shows its notice and pauses playback, and the pause command goes out
    when the connection is not in error; without a session it only says
    that the session is not ready.  A click on play while paused or stopped
    is [play()] on a live connection.  Without one it reconnects first:
    when the connection is not live after the connect, the click ends
    [stopped] with the reconnect failure shown and nothing but the connect
    sent; when it is live, the click goes on to [play()], which shows its
    notice, pauses and sends the pause command after the connect. *)
Theorem no_active_prompt_refused env c s :
  getPromptsToSend s = [] ->
  (sessionLive s = true ->
   let s' := setSessionPrompts env s in
   toasts s' =
     toasts s ++ ["There needs to be one active prompt to play."] /\
   playbackState s' = paused /\
   sent s' = sent s ++ [CmdPause]) /\
  (sessionLive s = false -> setSessionPrompts env s = s) /\
  (hasSession s = true ->
   let s' := play env s in
   toasts s' =
     toasts s ++ ["Add some sound flavor! Turn up a knob to play music."] /\
   playbackState s' = paused /\
   sent s' = sent s ++ if connectionError s then [] else [CmdPause]) /\
  (hasSession s = false ->
   play env s =
     toast "Session not ready. Please wait or try reconnecting." s) /\
  (playbackState s = paused \/ playbackState s = stopped ->
   (sessionLive s = true -> handlePlayPause env c s = play env s) /\
   (sessionLive s = false ->
    let s1 :=
      connectToSession env c (toast "Reconnecting Lyria session..." s) in
    let s' := handlePlayPause env c s in
    sent s1 = sent s ++ [CmdConnect] /\
    (sessionLive s1 = false ->
     playbackState s' = stopped /\
     toasts s' =
       toasts s1 ++ ["Failed to reconnect Lyria. Please check console."] /\
     sent s' = sent s ++ [CmdConnect]) /\
    (sessionLive s1 = true ->
     playbackState s' = paused /\
     toasts s' =
       toasts s1 ++
         ["Add some sound flavor! Turn up a knob to play music."] /\
     sent s' = sent s ++ [CmdConnect; CmdPause]))).
Proof.
  intros Hnone. pose proof (empty_length _ Hnone) as Hlen.
  assert (forall st, hasSession st = true -> getPromptsToSend st = [] ->
    toasts (play env st) =
      toasts st ++ ["Add some sound flavor! Turn up a knob to play music."] /\
    playbackState (play env st) = paused /\
    sent (play env st) =
      sent st ++ if connectionError st then [] else [CmdPause]) as Hplay.
  { intros st Hs Hn. rewrite play_sent.
    unfold play, sessionLive. rewrite (empty_length _ Hn), Hs.
    unfold hasSession in Hs. destruct (session st); [|done].
    destruct (pause_fields env
      (toast "Add some sound flavor! Turn up a knob to play music." st))
      as (P1 & _ & _ & _ & _ & P6 & _).
    rewrite P1, P6. by destruct (connectionError st). }
  split; [|split; [|split; [|split; [|]]]].
  - intros Hlive s'. subst s'. rewrite setSessionPrompts_sent.
    rewrite (live_guard s Hlive), Hlen.
    unfold setSessionPrompts. rewrite (live_guard s Hlive), Hlen.
    destruct (pause_fields env
      (toast "There needs to be one active prompt to play." s))
      as (P1 & _ & _ & _ & _ & P6 & _).
    by rewrite P1, P6.
  - intros Hdead. unfold setSessionPrompts, sessionLive in *.
    by destruct (hasSession s), (connectionError s).
  - intros Hs. by apply Hplay.
  - intros Hs. unfold play. unfold hasSession in Hs.
    by destruct (session s).
  - intros Hp. split.
    + intros Hlive. unfold handlePlayPause.
      destruct Hp as [-> | ->]; by rewrite (live_guard s Hlive).
    + intros Hdead s1 s'.
      assert (connectionError s || negb (hasSession s) = true) as Hguard.
      { unfold sessionLive in Hdead.
        by destruct (hasSession s), (connectionError s). }
      assert (sent s1 = sent s ++ [CmdConnect]) as Hsent
        by (subst s1; by rewrite connectToSession_sent).
      assert (s' =
        if negb (connectionError s1) && hasSession s1
        then
          play env (request SetSessionDrumMix (request SetSessionPrompts s1))
        else
          with_playbackState stopped
            (toast "Failed to reconnect Lyria. Please check console." s1))
        as ->.
      { subst s' s1. unfold handlePlayPause.
        destruct Hp as [-> | ->]; by rewrite Hguard. }
      assert (negb (connectionError s1) && hasSession s1 = sessionLive s1)
        as -> by (unfold sessionLive; apply andb_comm).
      split; [exact Hsent|]. split.
      * intros ->. simpl. by rewrite Hsent.
      * intros Hlive1. rewrite Hlive1.
        set (s2 := request SetSessionDrumMix
                     (request SetSessionPrompts s1)).
        assert (hasSession s2 = true /\ connectionError s2 = false)
          as [Hs2 He2].
        { unfold sessionLive in Hlive1.
          change (hasSession s2) with (hasSession s1).
          change (connectionError s2) with (connectionError s1).
          by destruct (hasSession s1), (connectionError s1). }
        assert (getPromptsToSend s2 = []) as Hn2.
        { apply (none_active_mono s); [done| |].
          - change (prompts s2) with (prompts s1). subst s1.
            by rewrite connectToSession_prompts.
          - change (filteredPrompts s2) with (filteredPrompts s1). subst s1.
            apply (connectToSession_filteredPrompts env c
                     (toast "Reconnecting Lyria session..." s)). }
        destruct (Hplay s2 Hs2 Hn2) as (T & P & S).
        rewrite T, P, S, He2.
        change (toasts s2) with (toasts s1). change (sent s2) with (sent s1).
        rewrite Hsent, <- app_assoc. done.
Qed.

(** ** The filtered prompts *)

Lemma step_filteredPrompts ev s :
  filteredPrompts s ⊆ filteredPrompts (step ev s).
Proof.
  assert (forall env c s0,
    filteredPrompts s0 ⊆ filteredPrompts (connectToSession env c s0)) as Hc.
  { intros env c s0. unfold connectToSession. destruct c as [msg|h during].
    - crush.
    - simpl. etrans; [|apply deliver_all_filteredPrompts]. done. }
  assert (forall env s0, filteredPrompts (play env s0) = filteredPrompts s0)
    as Hplay by (intros; crush).
  destruct ev; simpl.
  - unfold firstUpdated. simpl. destruct (negb _); apply Hc.
  - rewrite onmessage_filteredPrompts.
    case_match; [apply union_subseteq_l|done].
  - crush.
  - crush.
  - crush.
  - unfold handlePlayPause. destruct (playbackState s).
    + destruct (connectionError s || _); [|by rewrite Hplay].
      simpl. destruct (negb _ && _); [rewrite Hplay|]; simpl;
        (etrans; [|apply Hc]); done.
    + crush.
    + crush.
    + destruct (connectionError s || _); [|by rewrite Hplay].
      simpl. destruct (negb _ && _); [rewrite Hplay|]; simpl;
        (etrans; [|apply Hc]); done.
  - crush.
  - crush.
  - crush.
  - crush.
  - crush.
Qed.

Lemma run_filteredPrompts evs : forall s,
  filteredPrompts s ⊆ filteredPrompts (run evs s).
Proof.
  induction evs as [|ev evs IH]; intros s; [done|].
  rewrite run_cons. etrans; [apply step_filteredPrompts|apply IH].
Qed.

(** C8, as the code has it.  A filtered-prompt notice adds the prompt's
    text to the filtered set and shows the reason.  No event removes an
    entry: the set only grows, along every run.  Manual reset does not clear
    it either: [resetAll] leaves the set as it is. *)
Theorem filtered_prompts_only_grow :
  (forall now e f s,
     filteredPrompt e = Some f ->
     filteredPrompts (onmessage now e s)
       = filteredPrompts s ∪ {[ filteredText f ]} /\
     filteredText f ∈ filteredPrompts (onmessage now e s) /\
     toasts (onmessage now e s) = toasts s ++ [filteredReason f]) /\
  (forall ev s, filteredPrompts s ⊆ filteredPrompts (step ev s)) /\
  (forall evs s, filteredPrompts s ⊆ filteredPrompts (run evs s)) /\
  (forall startOn s, filteredPrompts (resetAll startOn s) = filteredPrompts s).
Proof.
  split; [|split; [|split]].
  - intros now e f s Hf.
    rewrite onmessage_filteredPrompts, onmessage_toasts, Hf.
    split; [done|]. split; [set_solver|done].
  - apply step_filteredPrompts.
  - intros evs s. apply run_filteredPrompts.
  - done.
Qed.

(** ** Connection failures *)

Lemma run_sent evs : forall s, exists new, sent (run evs s) = sent s ++ new.
Proof.
  induction evs as [|ev evs IH]; intros s.
  { exists []. by rewrite app_nil_r. }
  rewrite run_cons. destruct (IH (step ev s)) as (new & Hn).
  destruct (step_sent ev s) as (new0 & Hn0 & _).
  exists (new0 ++ new). by rewrite Hn, Hn0, app_assoc.
Qed.

Lemma handlePlayPause_reconnects env c s :
  connectionError s = true ->
  playbackState s = paused \/ playbackState s = stopped ->
  exists rest, sent (handlePlayPause env c s) = sent s ++ CmdConnect :: rest.
Proof.
  intros He Hp.
  assert (exists rest,
    sent
      (let s1 :=
         connectToSession env c (toast "Reconnecting Lyria session..." s) in
       if negb (connectionError s1) && hasSession s1
       then
         play env (request SetSessionDrumMix (request SetSessionPrompts s1))
       else
         with_playbackState stopped
           (toast "Failed to reconnect Lyria. Please check console." s1))
    = sent s ++ CmdConnect :: rest) as H.
  { simpl. destruct (negb _ && _).
    - rewrite play_sent. simpl. rewrite connectToSession_sent. simpl.
      rewrite <- app_assoc. simpl. eauto.
    - simpl. rewrite connectToSession_sent. simpl. eauto. }
  unfold handlePlayPause. rewrite He. simpl.
  destruct Hp as [-> | ->]; exact H.
Qed.

(** With the connection in error, an event sends nothing and leaves the
    error flag set, unless it is a click on play that connects first. *)
Lemma errored_step ev s :
  connectionError s = true -> afterFailure ev ->
  (sent (step ev s) = sent s /\ connectionError (step ev s) = true) \/
  (exists env c rest,
     ev = EvPlayPause env c /\
     sent (step ev s) = sent s ++ CmdConnect :: rest).
Proof.
  intros He Hev. destruct ev; simpl in *; try done.
  - left. rewrite onmessage_sent, onmessage_connectionError, Hev. done.
  - left. crush.
  - left. crush.
  - left. crush.
  - destruct (playbackState s) eqn:Hp.
    + right. destruct (handlePlayPause_reconnects env c s He) as (rest & H);
        eauto 10.
    + left. unfold handlePlayPause. rewrite Hp.
      rewrite pause_sent. unfold sessionLive. rewrite He, andb_false_r.
      rewrite app_nil_r. split; [done|]. by rewrite (proj1 (proj2 (proj2
        (proj2 (proj2 (proj2 (proj2 (pause_fields env s)))))))).
    + left. unfold handlePlayPause. rewrite Hp.
      rewrite stop_sent. unfold sessionLive. rewrite He, andb_false_r.
      rewrite app_nil_r. split; [done|]. by rewrite (proj1 (proj2 (proj2
        (proj2 (proj2 (proj2 (proj2 (stop_fields env s)))))))).
    + right. destruct (handlePlayPause_reconnects env c s He) as (rest & H);
        eauto 10.
  - left. crush.
  - left. crush.
  - left. crush.
  - left. rewrite setSessionPrompts_sent. unfold setSessionPrompts.
    rewrite He. simpl. by rewrite app_nil_r.
  - left. rewrite setSessionDrumMix_sent. unfold setSessionDrumMix.
    rewrite He. simpl. by rewrite app_nil_r.
Qed.

Lemma errored_run evs : forall s,
  connectionError s = true -> Forall afterFailure evs ->
  (sent (run evs s) = sent s /\ connectionError (run evs s) = true) \/
  (exists pre env c post rest,
     evs = pre ++ EvPlayPause env c :: post /\
     sent (run pre s) = sent s /\
     sent (run evs s) = sent s ++ CmdConnect :: rest).
Proof.
  induction evs as [|ev evs IH]; intros s He Hevs; [by left|].
  apply Forall_cons in Hevs as [Hev Hevs]. rewrite run_cons.
  destruct (errored_step ev s He Hev) as [[Hs He']|(env & c & rest & -> & Hs)].
  - destruct (IH _ He' Hevs)
      as [[H1 H2]|(pre & env & c & post & rest & -> & H1 & H2)].
    + left. by rewrite H1, Hs.
    + right. exists (ev :: pre), env, c, post, rest.
      rewrite run_cons, H1, H2, Hs. done.
  - right. destruct (run_sent evs (step (EvPlayPause env c) s)) as (new & Hn).
    exists [], env, c, evs, (rest ++ new).
    rewrite Hn, Hs, <- app_assoc. done.
Qed.

Lemma failure_fields env s msg s' :
  s' ∈ [ onerror env s; onclose env s;
         connectToSession env (ConnectFailed msg) s ] ->
  connectionError s' = true /\
  playbackState s' = stopped /\
  nextStartTime s' = 0 /\
  session s' = session s.
Proof. intros H. in_list H; subst s'; crush. Qed.

(** C7.  A connection error, a remote close and a failed connect each mark
    the connection as in error, force playback to [stopped] with
    [nextStartTime] reset, and show a notice; the error and close callbacks
    send nothing, and a failed connect has sent only its own connect
    request.  No reconnection follows by itself: along any later run of
    events (set-up notices of a session and the start-up hook aside),
    either nothing at all is sent and the connection stays in error, or the
    first thing sent is the connect request of a click on play, before which
    nothing was sent.  And a click on play in the state the failure leaves
    does begin with that connect request. *)
Theorem connection_failure_needs_manual_reconnect env s msg :
  (forall s', s' ∈ [onerror env s; onclose env s] ->
     connectionError s' = true /\
     playbackState s' = stopped /\
     nextStartTime s' = 0 /\
     toasts s' = toasts s ++ ["Connection error, please restart audio."] /\
     sent s' = sent s) /\
  (let s' := connectToSession env (ConnectFailed msg) s in
   connectionError s' = true /\
   playbackState s' = stopped /\
   nextStartTime s' = 0 /\
   toasts s' =
     toasts s ++ [("Failed to connect to music session: "
                   ++ if decide (msg = "") then "Unknown connection error"
                      else msg)%string] /\
   sent s' = sent s ++ [CmdConnect]) /\
  (forall s' evs,
     s' ∈ [ onerror env s; onclose env s;
            connectToSession env (ConnectFailed msg) s ] ->
     Forall afterFailure evs ->
     (sent (run evs s') = sent s' /\ connectionError (run evs s') = true) \/
     (exists pre env' c post rest,
        evs = pre ++ EvPlayPause env' c :: post /\
        sent (run pre s') = sent s' /\
        sent (run evs s') = sent s' ++ CmdConnect :: rest)) /\
  (forall s' env' c,
     s' ∈ [ onerror env s; onclose env s;
            connectToSession env (ConnectFailed msg) s ] ->
     exists rest,
       sent (handlePlayPause env' c s') = sent s' ++ CmdConnect :: rest).
Proof.
  split; [|split; [|split]].
  - intros s' H. in_list H; subst s'; crush; by rewrite app_nil_r.
  - crush.
  - intros s' evs Hs' Hevs.
    destruct (failure_fields env s msg s' Hs') as (He & _).
    by apply errored_run.
  - intros s' env' c Hs'.
    destruct (failure_fields env s msg s' Hs') as (He & Hp & _).
    apply handlePlayPause_reconnects; auto.
Qed.

(** ** The throttle *)

(** Reading and writing the prompt map. *)
Lemma map_get_set_eq k v m : map_get k (map_set k v m) = Some v.
Proof.
  induction m as [|[k' v'] m IH]; simpl.
  - by rewrite decide_True.
  - destruct (decide (k = k')) as [->|Hne]; simpl.
    + by rewrite decide_True.
    + by rewrite decide_False.
Qed.

Lemma map_get_set_ne k k' v m :
  k <> k' -> map_get k' (map_set k v m) = map_get k' m.
Proof.
  intros Hne. induction m as [|[k0 v0] m IH]; simpl.
  - rewrite decide_False; [done|congruence].
  - destruct (decide (k = k0)) as [->|Hne0]; simpl.
    + rewrite !decide_False; [done|congruence|congruence].
    + destruct (decide (k' = k0)); [done|exact IH].
Qed.

Section ThrottleFacts.
Context {St : Type}.
Variable interval : N.
Variable body : St -> St.
Variable calls : St -> nat.








End ThrottleFacts.
















(** ** Scenarios of the specification *)

(** Chunks of 2 s arriving at 0 s, 0.1 s and 0.2 s after play are scheduled
    at 2 s, 4 s and 6 s; the timer set by the first makes the state
    [playing]. *)
Example scenario_three_chunks :
  let s := run threeChunks started in
  playbackState started = loading /\
  scheduledStartTime <$> scheduled s = [96000; 192000; 288000] /\
  timers s = [2000] /\
  playbackState (lookaheadElapsed s) = playing.
Proof. vm_compute. done. Qed.

(** With prompt A at weight 1 a push carries [A]; once A is turned down to
    0 the next push carries no prompts, shows the notice and pauses, and a
    play request is refused with playback still [paused]. *)
Example scenario_last_prompt_turned_down :
  let s1 := setSessionPrompts accepting started in
  let s2 := handlePromptChanged silent s1 in
  let s3 := setSessionPrompts accepting s2 in
  let s4 := handlePlayPause accepting (ConnectFailed "") s3 in
  sent s1 = sent started ++ [CmdSetWeightedPrompts [bossa]] /\
  sent s3 = sent s2 ++ [CmdPause] /\
  playbackState s3 = paused /\
  toasts s3 = toasts s2 ++ ["There needs to be one active prompt to play."] /\
  sent s4 = sent s3 ++ [CmdPause] /\
  playbackState s4 = paused.
Proof. vm_compute. done. Qed.

(** The chunk that arrives at the very frame at which the previous buffer
    ends.  In seconds the end of the buffer is 2 + 64000/48000, rounded,
    and the clock reads 160000/48000, rounded: the sum is the smaller of
    the two, so the code's test fires, the chunk is dropped and the
    scheduler is reset. *)
Example tie_is_an_underrun :
  let s1 := Seconds.onmessage PrimFloat.zero
              (Seconds.chunkMessage Seconds.third) Seconds.started in
  let s2 := Seconds.onmessage Seconds.tie
              (Seconds.chunkMessage Seconds.third) s1 in
  (Seconds.nextStartTime s1 <? Seconds.tie)%float = true /\
  Seconds.underrun Seconds.tie s1 = true /\
  Seconds.scheduled s2 = Seconds.scheduled s1 /\
  Seconds.playbackState s2 = loading /\
  Seconds.nextStartTime s2 = PrimFloat.zero.
Proof. vm_compute. done. Qed.

(** A chunk that arrives while paused is dropped without a trace. *)
Example scenario_chunk_while_paused :
  let s := pause accepting streaming in
  view (onmessage 200000 (chunkMessage 96000) s) = view s.
Proof. apply onmessage_gate_closed. by left. Qed.

(** ** Concrete instances *)

Lemma reachable_run evs : forall s, reachable s -> reachable (run evs s).
Proof.
  induction evs as [|ev evs IH]; intros s Hr; [done|].
  rewrite run_cons. apply IH. by constructor.
Qed.

(** C1 at three chunks of 2 s with a knob turn, the lookahead timer and a
    prompt push in between. *)
Lemma scheduled_buffers_contiguous_witness :
  exists new,
    Seconds.scheduled (Seconds.run Seconds.busyStream Seconds.started) =
      Seconds.scheduled Seconds.started ++ new /\
    length new = 3%nat /\
    forall i a b,
      new !! i = Some a -> new !! S i = Some b ->
      Seconds.scheduledStartTime b =
        (Seconds.scheduledStartTime a + Seconds.duration a)%float.
Proof.
  destruct (scheduled_buffers_contiguous Seconds.busyStream Seconds.started)
    as (_ & new & H1 & H2 & H3).
  - vm_compute. repeat split; (by left) || (by right).
  - vm_compute. repeat split.
  - unfold Seconds.busyStream. repeat constructor.
  - vm_compute. reflexivity.
  - exists new. split; [exact H1|]. split; [|exact H3].
    rewrite <- (length_fmap Seconds.duration), H2. reflexivity.
Defined.

(** C2 at a chunk that arrives at 6.25 s when the next start was 4 s. *)
Lemma underrun_drops_chunk_and_reprimes_witness :
  let s' := onmessage 300000 (chunkMessage 96000) streaming in
  nextStartTime streaming = 192000 /\
  scheduled s' = scheduled streaming /\
  playbackState s' = loading /\
  nextStartTime s' = 0 /\
  scheduledStartTime <$> scheduled (onmessage 310000 (chunkMessage 96000) s')
    = [96000; 406000].
Proof.
  intros s'.
  destruct (underrun_drops_chunk_and_reprimes streaming 300000
              (chunkMessage 96000) 96000) as (H1 & _ & H3 & H4 & H5).
  - apply reachable_run, reachable_run, reachable_initial.
  - reflexivity.
  - vm_compute. discriminate.
  - vm_compute. reflexivity.
  - split; [vm_compute; reflexivity|].
    split; [exact H1|]. split; [exact H3|]. split; [exact H4|].
    destruct (H5 310000 (chunkMessage 96000) 96000 eq_refl) as (G & _).
    cbv zeta in G. subst s'. rewrite G. vm_compute. reflexivity.
Defined.

(** C3 at a push with one active prompt. *)
Lemma prompt_push_is_active_subset_witness :
  [bossa] = getPromptsToSend started /\
  (bossa ∈ values (prompts started) /\
   ~ (weight bossa == 0)%Q /\ text bossa ∉ filteredPrompts started).
Proof.
  destruct (prompt_push_is_active_subset (EvPushPrompts accepting) started
              [CmdSetWeightedPrompts [bossa]] [bossa]) as (H1 & H2 & _).
  - vm_compute. reflexivity.
  - constructor.
  - split; [exact H1|]. apply (H2 bossa). constructor.
Defined.


(** C5 (as the code has it) at a session that rejects every request. *)
Lemma command_failure_handling_witness :
  playbackState streaming = playing /\
  playbackState (setSessionPrompts (rejecting "busy") streaming) = paused /\
  toasts (setSessionDrumMix (rejecting "busy") streaming)
    = toasts streaming ++ ["Error setting drum mix: busy"] /\
  playbackState (setSessionDrumMix (rejecting "busy") streaming) = playing /\
  uncaught (stop (rejecting "busy") streaming)
    = uncaught streaming ++ [UnhandledRejection CmdStop "busy"].
Proof.
  destruct (command_failure_handling (rejecting "busy") streaming "busy")
    as (Hp & Hd & _ & Hs & _).
  - vm_compute. reflexivity.
  - destruct (Hp eq_refl) as (_ & P & _).
    { vm_compute. discriminate. }
    destruct (Hd eq_refl) as (D1 & D2 & _).
    destruct (Hs eq_refl) as (_ & S2 & _).
    split; [vm_compute; reflexivity|]. split; [exact P|].
    split; [exact D1|]. split; [|exact S2].
    cbv zeta in D2. rewrite D2. vm_compute. reflexivity.
Defined.

(** C5, counterexample.  The component is playing on a live connection and
    the drum-mix push is rejected: the command went out, the failure is
    shown, and playback is still [playing], not [paused]. *)
Lemma drum_mix_failure_does_not_pause :
  let s' := setSessionDrumMix (rejecting "busy") streaming in
  sessionLive streaming = true /\
  onSetDrumMix (rejecting "busy") = Rejected "busy" /\
  sent s' =
    sent streaming ++ [CmdSetDrumMix (normalizeDrumMix DEFAULT_DRUM_MIX_SETTINGS)] /\
  playbackState streaming = playing /\
  playbackState s' = playing /\
  playbackState s' <> paused.
Proof. vm_compute. repeat split; discriminate. Qed.

(** C6 (as the code has it) with the only prompt at weight 0: a push and
    [play()] on the live connection, and a click on play before there is a
    connection, with a connect that succeeds and with one that fails. *)
Lemma no_active_prompt_refused_witness :
  let s0 := initial [("prompt-0", silent)] in
  let up := Connected 1 [(0, setupNotice)] in
  sent (setSessionPrompts accepting muted) = sent muted ++ [CmdPause] /\
  playbackState (setSessionPrompts accepting muted) = paused /\
  playbackState (play accepting muted) = paused /\
  setSessionPrompts accepting s0 = s0 /\
  playbackState (handlePlayPause accepting up s0) = paused /\
  sent (handlePlayPause accepting up s0) = [CmdConnect; CmdPause] /\
  playbackState (handlePlayPause accepting (ConnectFailed "offline") s0)
    = stopped /\
  sent (handlePlayPause accepting (ConnectFailed "offline") s0)
    = [CmdConnect].
Proof.
  intros s0 up.
  destruct (no_active_prompt_refused accepting up muted)
    as (Hpush & _ & Hplay & _).
  { vm_compute. reflexivity. }
  destruct (no_active_prompt_refused accepting up s0)
    as (_ & Hguard & _ & _ & Hup).
  { vm_compute. reflexivity. }
  destruct (no_active_prompt_refused accepting (ConnectFailed "offline") s0)
    as (_ & _ & _ & _ & Hdown).
  { vm_compute. reflexivity. }
  destruct (Hpush eq_refl) as (_ & P2 & P3).
  destruct (Hplay eq_refl) as (_ & Q2 & _).
  destruct Hup as [_ Hup]; [by right|].
  destruct (Hup eq_refl) as (_ & _ & U); destruct U as (U1 & _ & U3);
    [vm_compute; reflexivity|].
  destruct Hdown as [_ Hdown]; [by right|].
  destruct (Hdown eq_refl) as (_ & D & _); destruct D as (D1 & _ & D3);
    [vm_compute; reflexivity|].
  split; [exact P3|]. split; [exact P2|]. split; [exact Q2|].
  split; [by apply Hguard|]. split; [exact U1|]. split; [exact U3|].
  split; [exact D1|exact D3].
Defined.

(** C6, counterexample.  The only prompt is at weight 0.  Before the
    session is set up the connection counts as in error, and a push
    attempted then returns at the guard: no notice is shown and playback
    stays [stopped].  A click on play while the service cannot be reached
    ends [stopped] as well, after a connect request has gone out.  And on a
    live connection the refusal is not silent towards the session: a pause
    command goes out. *)
Lemma empty_push_without_connection_is_silent :
  let s := initial [("prompt-0", silent)] in
  getPromptsToSend s = [] /\
  toasts (setSessionPrompts accepting s) = [] /\
  playbackState (setSessionPrompts accepting s) = stopped /\
  playbackState (setSessionPrompts accepting s) <> paused /\
  playbackState (handlePlayPause accepting (ConnectFailed "offline") s)
    = stopped /\
  sent (handlePlayPause accepting (ConnectFailed "offline") s)
    = [CmdConnect] /\
  getPromptsToSend muted = [] /\
  sent (setSessionPrompts accepting muted) = sent muted ++ [CmdPause].
Proof. vm_compute. repeat split; discriminate. Qed.

(** C7 at a connection error during playback. *)
Lemma connection_failure_needs_manual_reconnect_witness :
  playbackState (onerror accepting streaming) = stopped /\
  nextStartTime (onerror accepting streaming) = 0 /\
  sent (run [ EvMessage 400000 (chunkMessage 96000); EvLookaheadElapsed;
              EvPushPrompts accepting; EvPushDrumMix accepting ]
          (onerror accepting streaming))
    = sent (onerror accepting streaming) /\
  exists rest,
    sent (handlePlayPause accepting (ConnectFailed "offline")
            (onerror accepting streaming))
      = sent (onerror accepting streaming) ++ CmdConnect :: rest.
Proof.
  destruct (connection_failure_needs_manual_reconnect accepting streaming
              "offline") as (H1 & _ & H3 & H4).
  assert (onerror accepting streaming ∈
            [ onerror accepting streaming; onclose accepting streaming;
              connectToSession accepting (ConnectFailed "offline") streaming ])
    as Hin by constructor.
  destruct (H1 (onerror accepting streaming)) as (_ & P & T & _);
    [constructor|].
  split; [exact P|]. split; [exact T|]. split.
  - destruct (H3 _ [ EvMessage 400000 (chunkMessage 96000); EvLookaheadElapsed;
                     EvPushPrompts accepting; EvPushDrumMix accepting ] Hin)
      as [[Hs _]|(pre & env' & c & post & rest & Hevs & _)].
    + repeat constructor.
    + exact Hs.
    + exfalso. destruct pre as [|? [|? [|? [|? [|? pre]]]]]; discriminate Hevs.
  - exact (H4 _ accepting (ConnectFailed "offline") Hin).
Defined.

(** C8 (as the code has it) at a filtered prompt followed by a reset. *)
Lemma filtered_prompts_only_grow_witness :
  "Thrash" ∈ filteredPrompts (onmessage 0 filteredNotice started) /\
  "Thrash" ∈ filteredPrompts
               (resetAll [0; 1; 2]%nat (onmessage 0 filteredNotice started)).
Proof.
  destruct filtered_prompts_only_grow as (H1 & _ & _ & H4).
  destruct (H1 0 filteredNotice
              {| filteredText := "Thrash"; filteredReason := "Prompt filtered" |}
              started eq_refl) as (_ & Hin & _).
  split; [exact Hin|]. rewrite H4. exact Hin.
Defined.

(** C8, counterexample.  "Thrash" has been filtered; after a manual reset
    the filtered set still holds it: the reset has not cleared the set. *)
Lemma reset_keeps_filtered_prompts :
  let s := onmessage 0 filteredNotice started in
  filteredPrompts s = {[ "Thrash" ]} /\
  filteredPrompts (resetAll [0; 1; 2]%nat s) = {[ "Thrash" ]} /\
  filteredPrompts (resetAll [0; 1; 2]%nat s) <> ∅.
Proof.
  assert (filteredPrompts (onmessage 0 filteredNotice started)
            = {[ "Thrash" ]}) as H.
  { rewrite onmessage_filteredPrompts. simpl.
    assert (filteredPrompts started = ∅) as -> by (vm_compute; reflexivity).
    by rewrite (left_id_L ∅ (∪)). }
  assert (forall st,
    filteredPrompts (resetAll [0; 1; 2]%nat st) = filteredPrompts st) as R
    by reflexivity.
  cbv zeta. rewrite R, H. split; [done|]. split; [done|].
  intros He.
  assert ("Thrash" ∈ (∅ : gset string)) as Hin
    by (rewrite <- He; by apply elem_of_singleton).
  by apply not_elem_of_empty in Hin.
Qed.

(** C9 at a mix that only has a value for the kick. *)
Lemma drum_mix_sent_is_total_witness :
  normalizeDrumMix {[ "KICK" := 0.9%Q ]} !! "KICK" = Some 0.9%Q /\
  normalizeDrumMix {[ "KICK" := 0.9%Q ]} !! "SNARE" = Some 0.0%Q.
Proof.
  destruct (drum_mix_sent_is_total {[ "KICK" := 0.9%Q ]}) as (_ & H & _).
  split.
  - rewrite (H "KICK"); [reflexivity|]. unfold DRUM_STEM_TYPES. constructor.
  - rewrite (H "SNARE"); [reflexivity|]. unfold DRUM_STEM_TYPES.
    constructor. constructor.
Defined.

(** C10 at a pause right after the first chunk. *)
Lemma lookahead_timer_overrides_pause_witness :
  let s1 := onmessage 0 (chunkMessage 96000) started in
  timers s1 = [2000] /\
  playbackState (pause accepting s1) = paused /\
  playbackState (lookaheadElapsed (pause accepting s1)) = playing /\
  sent (lookaheadElapsed (pause accepting s1)) = sent (pause accepting s1).
Proof.
  destruct (lookahead_timer_overrides_pause accepting 0 (chunkMessage 96000)
              96000 started) as (H1 & _ & (P1 & _ & P3 & P4) & _).
  - right. vm_compute. reflexivity.
  - vm_compute. reflexivity.
  - reflexivity.
  - split; [exact H1|]. split; [exact P1|]. split; [exact P3|exact P4].
Defined.

(** * Further properties of the handlers *)

(** ** The gate and the scheduler *)

Lemma messages_gate_closed msgs : forall s,
  playbackState s = paused \/ playbackState s = stopped ->
  view (run ((fun m : N * LiveMusicServerMessage => EvMessage m.1 m.2) <$> msgs) s)
    = view s.
Proof.
  induction msgs as [|m msgs IH]; intros s Hg; [done|].
  rewrite fmap_cons, run_cons. simpl.
  pose proof (onmessage_gate_closed m.1 m.2 s Hg) as Hv.
  rewrite IH; [exact Hv|].
  unfold view in Hv. injection Hv as Hp _ _ _ _. by rewrite Hp.
Qed.

(** X1.  While playback is paused or stopped, inbound messages, however
    many and whatever they carry, schedule no buffer, set no timer and leave
    the playback state, [nextStartTime] and the output node as they are;
    they send nothing either. *)
Theorem chunks_dropped_while_paused_or_stopped
    (msgs : list (N * LiveMusicServerMessage)) s :
  playbackState s = paused \/ playbackState s = stopped ->
  let s' := run ((fun m : N * LiveMusicServerMessage =>
                    EvMessage m.1 m.2) <$> msgs) s in
  scheduled s' = scheduled s /\
  timers s' = timers s /\
  playbackState s' = playbackState s /\
  nextStartTime s' = nextStartTime s /\
  outputNode s' = outputNode s /\
  sent s' = sent s.
Proof.
  intros Hg s'. pose proof (messages_gate_closed msgs s Hg) as Hv.
  fold s' in Hv. unfold view in Hv. injection Hv as -> -> -> -> ->.
  repeat split. subst s'. clear Hg. revert s.
  induction msgs as [|m msgs IH]; intros s; [done|].
  rewrite fmap_cons, run_cons, IH. apply onmessage_sent.
Qed.

(** The scheduler's part of a message's effect depends on the scheduler's
    view of the state only. *)
Lemma scheduleBuffer_view now dur s1 s2 :
  view s1 = view s2 ->
  view (scheduleBuffer now dur s1) = view (scheduleBuffer now dur s2).
Proof.
  unfold view. intros [= Hp Ht Ho Hti Hs].
  unfold scheduleBuffer. rewrite Ht.
  destruct (nextStartTime s2 =? 0); simpl; rewrite ?Ht;
    [destruct (now + lookahead <? now)|destruct (nextStartTime s2 <? now)];
    simpl; rewrite ?Hp, ?Ht, ?Ho, ?Hti, ?Hs; done.
Qed.

Lemma onmessage_view now e s1 s2 :
  view s1 = view s2 ->
  view (onmessage now e s1) = view (onmessage now e s2).
Proof.
  intros Hv. rewrite !onmessage_preamble.
  assert (view (preamble e s1) = view (preamble e s2)) as Hp
    by (by rewrite !preamble_view).
  destruct (audioChunks e) as [chunks|]; [|done].
  unfold onAudioChunks.
  assert (playbackState (preamble e s1) = playbackState (preamble e s2)) as ->
    by (unfold view in Hp; by injection Hp).
  destruct (playbackState (preamble e s2)); try done.
  all: destruct chunks as [|c ?]; [exact Hp|];
    destruct (decoded c); [by apply scheduleBuffer_view|exact Hp].
Qed.

(** X2.  A message whose chunk cannot be decoded, or that carries an empty
    chunk list, is skipped while the gate is open: nothing is scheduled and
    the playback state, [nextStartTime] and the timers stay as they are; the
    failure is left uncaught.  The chunk that follows is handled as if the
    bad one had never arrived. *)
Theorem undecodable_chunk_is_skipped now e chunks s :
  gateOpen s -> audioChunks e = Some chunks -> chunkOf e = None ->
  let s' := onmessage now e s in
  view s' = view s /\
  (exists f, uncaught s' = uncaught s ++ [f] /\
             (f = DecodeFailed \/ f = NoChunkInMessage)) /\
  forall now' e', view (onmessage now' e' s') = view (onmessage now' e' s).
Proof.
  intros Hg Ha Hc s'.
  pose proof (onmessage_no_chunk now e s Hc) as Hv. fold s' in Hv.
  split; [exact Hv|]. split; [|intros; by apply onmessage_view].
  subst s'. rewrite onmessage_preamble, Ha.
  pose proof (preamble_view e s) as Hp.
  assert (uncaught (preamble e s) = uncaught s) as Hun.
  { unfold preamble. destruct (filteredPrompt e), (setupComplete e); done. }
  assert (gateOpen (preamble e s)) as Hg' by exact (view_gateOpen _ _ Hp Hg).
  unfold chunkOf in Hc. rewrite Ha in Hc. unfold onAudioChunks.
  destruct Hg' as [-> | ->]; destruct chunks as [|c ?];
    rewrite ?Hc; simpl; rewrite Hun; eauto.
Qed.

(** X3.  A message schedules at most one buffer.  When it schedules one,
    the buffer is the first chunk of the message, it hangs on the current
    output node, and it starts no earlier than the clock time at which the
    message is handled. *)
Theorem scheduled_start_is_not_in_the_past now e s :
  exists new,
    scheduled (onmessage now e s) = scheduled s ++ new /\
    (new = [] \/
     exists dur,
       chunkOf e = Some dur /\
       new = [ {| node := outputNode s;
                  scheduledStartTime := primed now s;
                  duration := dur |} ] /\
       now <= primed now s).
Proof.
  destruct (gate_cases s) as [Hg|Hg].
  - destruct (chunkOf e) as [dur|] eqn:Hc.
    + destruct (underrun now s) eqn:Hu.
      * exists []. split; [|by left]. rewrite app_nil_r.
        destruct (onmessage_chunk_open now e dur s Hg Hc) as (s0 & -> & Hv).
        rewrite <- (view_underrun now _ _ Hv) in Hu.
        destruct (scheduleBuffer_underrun now dur s0 Hu) as (-> & _).
        unfold view in Hv. by injection Hv.
      * destruct (chunk_scheduled now e dur s Hg Hc Hu) as (H1 & _).
        eexists. split; [exact H1|]. right. exists dur.
        split; [done|]. split; [done|].
        unfold underrun in Hu. by apply N.ltb_ge in Hu.
    + exists []. split; [|by left]. rewrite app_nil_r.
      pose proof (onmessage_no_chunk now e s Hc) as Hv.
      unfold view in Hv. by injection Hv.
  - exists []. split; [|by left]. rewrite app_nil_r.
    pose proof (onmessage_gate_closed now e s Hg) as Hv.
    unfold view in Hv. by injection Hv.
Qed.

(** X4.  Times are the code's binary64 seconds.  Along a run during which
    playback stays [playing] or [loading] and no chunk meets the underrun
    test, [nextStartTime] only changes when a chunk is scheduled.  Once
    the first chunk of the run is scheduled, [nextStartTime] is the start of
    that chunk with the durations of the delivered chunks added to it one
    at a time, in arrival order, as [+=] does; it is positive, so the
    scheduler is not primed a second time. *)
Theorem next_start_time_advances_by_delivered_audio evs s :
  Seconds.staysOpen evs s -> Seconds.noUnderrun evs s ->
  Forall Seconds.wellFormed evs ->
  Seconds.nonneg (Seconds.nextStartTime s) ->
  (Seconds.delivered evs = [] ->
   Seconds.nextStartTime (Seconds.run evs s) = Seconds.nextStartTime s) /\
  (Seconds.delivered evs <> [] ->
   exists b rest,
     Seconds.scheduled (Seconds.run evs s) =
       Seconds.scheduled s ++ b :: rest /\
     ((Seconds.nextStartTime s =? PrimFloat.zero)%float = false ->
      Seconds.scheduledStartTime b = Seconds.nextStartTime s) /\
     Seconds.nextStartTime (Seconds.run evs s) =
       fold_left PrimFloat.add (Seconds.delivered evs)
         (Seconds.scheduledStartTime b) /\
     Seconds.positive (Seconds.nextStartTime (Seconds.run evs s)) /\
     (Seconds.nextStartTime (Seconds.run evs s) =? PrimFloat.zero)%float
       = false).
Proof.
  intros Ho Hu Hw Hs.
  destruct (seconds_stream_chained evs s Ho Hu Hw Hs)
    as (new & [H1 H3] & H2).
  split.
  - intros Hd. rewrite Hd in H2. apply fmap_nil_inv in H2. by subst new.
  - intros Hd. destruct new as [|b rest]; [by destruct Hd|].
    destruct H3 as (Hb & _ & Hend & Hp).
    exists b, rest. split; [done|]. split; [done|]. split.
    + rewrite Hend, <- H2. unfold Seconds.endOf.
      generalize (Seconds.scheduledStartTime b).
      generalize (b :: rest). clear.
      induction l as [|x l IH]; intros t; [done|].
      rewrite fmap_cons. simpl. apply IH.
    + split; [done|]. by apply positive_nonzero.
Qed.

(** X5.  In every state the component can reach, the scheduler is reset
    whenever playback is paused or stopped; put the other way round, a set
    [nextStartTime] means that playback is playing or loading. *)
Theorem idle_scheduler_is_reset s :
  reachable s ->
  (playbackState s = paused \/ playbackState s = stopped ->
   nextStartTime s = 0) /\
  (nextStartTime s <> 0 ->
   playbackState s = playing \/ playbackState s = loading).
Proof.
  intros Hr. pose proof (reachable_idleReset s Hr) as Hi. split; [exact Hi|].
  intros Hnz. destruct (gate_cases s) as [Hg|Hg]; [exact Hg|].
  destruct Hnz. by apply Hi.
Qed.

(** ** Output nodes *)

Lemma nodesBounded_mono s s' :
  scheduled s' = scheduled s -> (outputNode s <= outputNode s')%nat ->
  nodesBounded s -> nodesBounded s'.
Proof.
  unfold nodesBounded. intros -> Hle H.
  eapply Forall_impl; [exact H|]. simpl. intros b Hb. lia.
Qed.

Lemma view_nodesBounded s s' :
  view s' = view s -> nodesBounded s -> nodesBounded s'.
Proof.
  unfold view. intros [= _ _ Ho _ Hs]. apply nodesBounded_mono; [done|lia].
Qed.

Lemma scheduleBuffer_nodesBounded now dur s :
  nodesBounded s -> nodesBounded (scheduleBuffer now dur s).
Proof.
  intros Hb. unfold nodesBounded in *. destruct (underrun now s) eqn:Hu.
  - destruct (scheduleBuffer_underrun now dur s Hu) as (-> & _ & _ & _ & ->).
    exact Hb.
  - destruct (scheduleBuffer_schedules now dur s Hu) as (-> & _).
    assert (outputNode (scheduleBuffer now dur s) = outputNode s) as ->.
    { unfold scheduleBuffer. repeat case_match; done. }
    apply Forall_app. split; [exact Hb|]. by repeat constructor.
Qed.

Lemma onmessage_nodesBounded now e s :
  nodesBounded s -> nodesBounded (onmessage now e s).
Proof.
  intros Hb. destruct (gate_cases s) as [Hg|Hg].
  - destruct (chunkOf e) as [dur|] eqn:Hc.
    + destruct (onmessage_chunk_open now e dur s Hg Hc) as (s0 & -> & Hv).
      apply scheduleBuffer_nodesBounded. exact (view_nodesBounded _ _ Hv Hb).
    + exact (view_nodesBounded _ _ (onmessage_no_chunk now e s Hc) Hb).
  - exact (view_nodesBounded _ _ (onmessage_gate_closed now e s Hg) Hb).
Qed.

Lemma deliver_all_nodesBounded during : forall s,
  nodesBounded s -> nodesBounded (fold_left deliver during s).
Proof.
  induction during as [|d during IH]; intros s Hb; [done|].
  simpl. apply IH. by apply onmessage_nodesBounded.
Qed.

Lemma pause_nodes env s :
  scheduled (pause env s) = scheduled s /\
  outputNode (pause env s) = S (outputNode s).
Proof. crush. Qed.

Lemma stop_nodes env s :
  scheduled (stop env s) = scheduled s /\
  outputNode (stop env s) = outputNode s.
Proof. crush. Qed.

Lemma pause_nodesBounded env s : nodesBounded s -> nodesBounded (pause env s).
Proof.
  destruct (pause_nodes env s) as [H1 H2].
  apply nodesBounded_mono; [done|lia].
Qed.

Lemma stop_nodesBounded env s : nodesBounded s -> nodesBounded (stop env s).
Proof.
  destruct (stop_nodes env s) as [H1 H2].
  apply nodesBounded_mono; [done|lia].
Qed.

Lemma play_nodesBounded env s : nodesBounded s -> nodesBounded (play env s).
Proof.
  intros Hb. unfold play. destruct (session s); [|exact Hb].
  destruct (length (getPromptsToSend s) =? 0)%nat.
  - by apply pause_nodesBounded.
  - eapply nodesBounded_mono; [| |exact Hb]; crush.
Qed.

Lemma connectToSession_nodesBounded env c s :
  nodesBounded s -> nodesBounded (connectToSession env c s).
Proof.
  intros Hb. unfold connectToSession. destruct c as [msg|h during].
  - eapply nodesBounded_mono; [| |exact Hb]; crush.
  - apply (nodesBounded_mono (fold_left deliver during (transmit CmdConnect s)));
      [done|done|].
    by apply deliver_all_nodesBounded.
Qed.

Lemma step_nodesBounded ev s : nodesBounded s -> nodesBounded (step ev s).
Proof.
  intros Hb. destruct ev; simpl.
  - unfold firstUpdated.
    pose proof (connectToSession_nodesBounded env c s Hb) as Hc.
    simpl. destruct (negb _); exact Hc.
  - by apply onmessage_nodesBounded.
  - unfold onerror. eapply nodesBounded_mono; [| |exact Hb]; crush.
  - unfold onclose. eapply nodesBounded_mono; [| |exact Hb]; crush.
  - eapply nodesBounded_mono; [| |exact Hb]; crush.
  - unfold handlePlayPause.
    assert (nodesBounded
      (if connectionError s || negb (hasSession s) then
        let s1 :=
          connectToSession env c (toast "Reconnecting Lyria session..." s) in
        if negb (connectionError s1) && hasSession s1
        then
          play env (request SetSessionDrumMix (request SetSessionPrompts s1))
        else
          with_playbackState stopped
            (toast "Failed to reconnect Lyria. Please check console." s1)
      else play env s)) as Hplay.
    { destruct (connectionError s || _); [|by apply play_nodesBounded].
      pose proof (connectToSession_nodesBounded env c
        (toast "Reconnecting Lyria session..." s) Hb) as Hc.
      simpl. destruct (negb _ && _); [by apply play_nodesBounded|exact Hc]. }
    destruct (playbackState s);
      [exact Hplay|by apply pause_nodesBounded|by apply stop_nodesBounded
      |exact Hplay].
  - exact (view_nodesBounded _ _ (handlePromptChanged_view _ _) Hb).
  - exact Hb.
  - exact Hb.
  - unfold setSessionPrompts. destruct (connectionError s || _); [done|].
    destruct (length (getPromptsToSend s) =? 0)%nat;
      [by apply pause_nodesBounded|].
    destruct (onSetWeightedPrompts env); [exact Hb|by apply pause_nodesBounded].
  - exact (view_nodesBounded _ _ (setSessionDrumMix_view _ _) Hb).
Qed.

Lemma reachable_nodesBounded s : reachable s -> nodesBounded s.
Proof.
  induction 1 as [ps|ev s _ IH]; [constructor|]. by apply step_nodesBounded.
Qed.

(** X6.  In every reachable state each scheduled buffer hangs on the
    current output node or on one discarded earlier.  [pause] discards the
    current node, so after it no buffer scheduled so far is connected to
    the output any more; [stop] keeps the node, and so do the buffers
    scheduled on it (they stay connected after a stop). *)
Theorem pause_detaches_scheduled_buffers env s :
  reachable s ->
  Forall (fun b => (node b <= outputNode s)%nat) (scheduled s) /\
  Forall (fun b => (node b < outputNode (pause env s))%nat)
    (scheduled (pause env s)) /\
  (forall b, b ∈ scheduled s -> node b = outputNode s ->
     b ∈ scheduled (stop env s) /\ node b = outputNode (stop env s)).
Proof.
  intros Hr. pose proof (reachable_nodesBounded s Hr) as Hb.
  split; [exact Hb|]. split.
  - destruct (pause_nodes env s) as [-> ->].
    eapply Forall_impl; [exact Hb|]. simpl. intros b Hle. lia.
  - intros b Hin Hn. destruct (stop_nodes env s) as [-> ->]. done.
Qed.

(** ** The playback state machine *)






(** ** The error flag *)

Lemma deliver_all_connectionError during : forall s,
  connectionError s = true ->
  connectionError (fold_left deliver during s) = false ->
  exists d, d ∈ during /\ setupComplete d.2 = true.
Proof.
  induction during as [|d during IH]; intros s He; simpl; [congruence|].
  intros Hf. destruct (setupComplete d.2) eqn:Hd.
  - exists d. split; [by left|done].
  - destruct (IH (deliver s d)) as (d' & Hin & Hd'); [|done|].
    + unfold deliver. by rewrite onmessage_connectionError, Hd.
    + exists d'. split; [by right|done].
Qed.

Lemma connectToSession_connectionError env c s :
  connectionError s = true ->
  connectionError (connectToSession env c s) = false ->
  exists h during, c = Connected h during /\
    exists d, d ∈ during /\ setupComplete d.2 = true.
Proof.
  intros He. unfold connectToSession. destruct c as [msg|h during]; [crush|].
  simpl. intros Hf. exists h, during. split; [done|].
  by apply (deliver_all_connectionError during (transmit CmdConnect s)).
Qed.

Lemma play_connectionError env s :
  connectionError (play env s) = connectionError s.
Proof. crush. Qed.

(** X8.  Once the connection is marked as in error, only a set-up notice
    clears the mark: an event after which it is clear is a message that
    carries one, or a connect during which one arrives.  Conversely every
    message that carries a set-up notice clears the mark and asks for a
    drum-mix push. *)
Theorem error_flag_cleared_only_by_setup_notice ev s :
  connectionError s = true ->
  (connectionError (step ev s) = false -> deliversSetup ev) /\
  (forall now e, setupComplete e = true ->
     connectionError (onmessage now e s) = false /\
     requested (onmessage now e s) = requested s ++ [SetSessionDrumMix]).
Proof.
  intros He. split.
  - assert (forall env0 s0, connectionError (pause env0 s0) = connectionError s0)
      as Hpause by (intros; apply pause_fields).
    assert (forall env0 s0, connectionError (stop env0 s0) = connectionError s0)
      as Hstop by (intros; apply stop_fields).
    destruct ev; cbn [step deliversSetup].
    + unfold firstUpdated. simpl. destruct (negb _); simpl; intros H;
        destruct (connectToSession_connectionError env c s He H)
          as (h & during & -> & Hd); exact Hd.
    + rewrite onmessage_connectionError.
      destruct (setupComplete e); [done|congruence].
    + unfold onerror, toast. cbn [connectionError with_toasts].
      rewrite Hstop. done.
    + unfold onclose, toast. cbn [connectionError with_toasts].
      rewrite Hstop. done.
    + unfold lookaheadElapsed. destruct (timers s); simpl;
        intros H; rewrite He in H; discriminate.
    + assert (connectionError
        (let s1 :=
           connectToSession env c (toast "Reconnecting Lyria session..." s) in
         if negb (connectionError s1) && hasSession s1
         then
           play env (request SetSessionDrumMix (request SetSessionPrompts s1))
         else
           with_playbackState stopped
             (toast "Failed to reconnect Lyria. Please check console." s1))
        = false ->
        match c with
        | Connected _ during =>
            exists d, d ∈ during /\ setupComplete d.2 = true
        | ConnectFailed _ => False
        end) as Hre.
      { simpl. destruct (negb _ && _).
        - rewrite play_connectionError. simpl. intros H.
          destruct (connectToSession_connectionError env c
                      (toast "Reconnecting Lyria session..." s) He H)
            as (h & during & -> & Hd); exact Hd.
        - simpl. intros H.
          destruct (connectToSession_connectionError env c
                      (toast "Reconnecting Lyria session..." s) He H)
            as (h & during & -> & Hd); exact Hd. }
      unfold handlePlayPause. rewrite He. simpl.
      destruct (playbackState s); [exact Hre| | |exact Hre].
      * rewrite Hpause, He. discriminate.
      * rewrite Hstop, He. discriminate.
    + unfold handlePromptChanged. destruct (map_get _ _); simpl;
        intros H; rewrite He in H; discriminate.
    + simpl. intros H; rewrite He in H; discriminate.
    + simpl. intros H; rewrite He in H; discriminate.
    + unfold setSessionPrompts. rewrite He. simpl.
      intros H; rewrite He in H; discriminate.
    + unfold setSessionDrumMix. rewrite He. simpl.
      intros H; rewrite He in H; discriminate.
  - intros now e Hs. rewrite onmessage_connectionError, Hs. split; [done|].
    rewrite onmessage_preamble.
    assert (requested (preamble e s) = requested s ++ [SetSessionDrumMix]) as Hp.
    { unfold preamble. rewrite Hs. destruct (filteredPrompt e); done. }
    destruct (audioChunks e) as [chunks|]; [|exact Hp].
    rewrite <- Hp. unfold onAudioChunks, scheduleBuffer.
    repeat case_match; done.
Qed.

(** ** Filtered-prompt notices *)

Lemma onAudioChunks_notice now chunks r X s :
  onAudioChunks now chunks (toast r (with_filteredPrompts X s)) =
  toast r (with_filteredPrompts X (onAudioChunks now chunks s)).
Proof.
  unfold onAudioChunks, scheduleBuffer, toast, fault. simpl.
  destruct (playbackState s); try done.
  all: destruct chunks as [|c ?]; [done|]; destruct (decoded c); [|done].
  all: destruct (nextStartTime s =? 0); simpl;
    [destruct (now + lookahead <? now)|destruct (nextStartTime s <? now)];
    done.
Qed.

(** X9.  A filtered-prompt notice does not interrupt playback: whatever
    else the message carries, the scheduler, the playback state, the output
    node, the set-up handling and what is sent are the same as for the
    message without the notice; the notice only adds the text to the
    filtered set and shows the reason. *)
Theorem filtered_notice_does_not_interrupt now e f s :
  filteredPrompt e = Some f ->
  let s' := onmessage now e s in
  let s0 := onmessage now (withoutNotice e) s in
  view s' = view s0 /\
  sent s' = sent s0 /\
  uncaught s' = uncaught s0 /\
  connectionError s' = connectionError s0 /\
  requested s' = requested s0 /\
  prompts s' = prompts s0 /\
  filteredPrompts s' = filteredPrompts s ∪ {[ filteredText f ]} /\
  filteredPrompts s0 = filteredPrompts s /\
  toasts s' = toasts s0 ++ [filteredReason f].
Proof.
  intros Hf s' s0.
  assert (s' = toast (filteredReason f)
                 (with_filteredPrompts
                    (filteredPrompts s ∪ {[ filteredText f ]}) s0)) as ->.
  { subst s' s0. unfold onmessage, withoutNotice. simpl. rewrite Hf.
    assert (forall st : State,
      filteredPrompts (if setupComplete e
                       then request SetSessionDrumMix
                              (with_connectionError false st)
                       else st) = filteredPrompts st) as Hfp
      by (intros; by destruct (setupComplete e)).
    rewrite Hfp.
    destruct (audioChunks e) as [chunks|]; [|done].
    apply onAudioChunks_notice. }
  assert (filteredPrompts s0 = filteredPrompts s) as Hs0.
  { subst s0. by rewrite onmessage_filteredPrompts. }
  simpl. repeat split; done.
Qed.

(** ** Editing prompts *)

Lemma map_set_keys k v p m :
  map_get k m = Some p -> (map_set k v m).*1 = m.*1.
Proof.
  induction m as [|[k0 v0] m IH]; cbn [map_set map_get]; [done|].
  destruct (decide (k = k0)) as [->|Hne]; [done|].
  intros H. rewrite !fmap_cons. f_equal. by apply IH.
Qed.

Lemma map_get_elem k p m : map_get k m = Some p -> (k, p) ∈ m.
Proof.
  induction m as [|[k0 v0] m IH]; simpl; [done|].
  destruct (decide (k = k0)) as [->|Hne].
  - intros [= ->]. by left.
  - intros H. right. by apply IH.
Qed.

Lemma elem_map_get k p m : NoDup m.*1 -> (k, p) ∈ m -> map_get k m = Some p.
Proof.
  induction m as [|[k0 v0] m IH]; simpl; [by intros _ ?%elem_of_nil|].
  intros [Hk Hnd]%NoDup_cons [Heq|Hin]%elem_of_cons.
  - injection Heq as -> ->. by rewrite decide_True.
  - destruct (decide (k = k0)) as [->|Hne]; [|by apply IH].
    destruct Hk. apply list_elem_of_fmap. by exists (k0, p).
Qed.

Lemma values_map_get m q :
  NoDup m.*1 -> q ∈ values m <-> exists k, map_get k m = Some q.
Proof.
  intros Hnd. unfold values. rewrite list_elem_of_fmap. split.
  - intros ([k p] & -> & Hin). exists k. by apply elem_map_get.
  - intros (k & Hk). exists (k, q). split; [done|]. by apply map_get_elem.
Qed.

Lemma prompt_edit_updates_one_entry_aux detail p s :
  map_get (promptId detail) (prompts s) = Some p ->
  let s' := handlePromptChanged detail s in
  (prompts s').*1 = (prompts s).*1 /\
  map_get (promptId detail) (prompts s') =
    Some {| promptId := promptId p; text := text detail;
            weight := weight detail; cc := cc detail;
            color := color p |} /\
  (forall k, k <> promptId detail ->
     map_get k (prompts s') = map_get k (prompts s)) /\
  filteredPrompts s' = filteredPrompts s.
Proof.
  intros H s'. subst s'. unfold handlePromptChanged. rewrite H. simpl.
  split; [by apply (map_set_keys _ _ p)|].
  split; [apply map_get_set_eq|].
  split; [|done].
  intros k Hk. apply map_get_set_ne. congruence.
Qed.

(** X10.  An edit of a prompt that is not in the map changes nothing and
    asks for no push.  An edit of a prompt that is in the map keeps the
    keys and their order, leaves every other entry alone, gives the entry
    the text, weight and controller number of the edit while keeping its
    own id and colour, and asks for exactly one prompt push; it sends
    nothing by itself and does not touch playback. *)
Theorem prompt_edit_updates_one_entry detail s :
  (map_get (promptId detail) (prompts s) = None ->
   handlePromptChanged detail s = s) /\
  (forall p, map_get (promptId detail) (prompts s) = Some p ->
     let s' := handlePromptChanged detail s in
     (prompts s').*1 = (prompts s).*1 /\
     map_get (promptId detail) (prompts s') =
       Some {| promptId := promptId p; text := text detail;
               weight := weight detail; cc := cc detail;
               color := color p |} /\
     (forall k, k <> promptId detail ->
        map_get k (prompts s') = map_get k (prompts s)) /\
     requested s' = requested s ++ [SetSessionPrompts] /\
     sent s' = sent s /\
     view s' = view s).
Proof.
  split.
  - intros H. unfold handlePromptChanged. by rewrite H.
  - intros p H s'. subst s'. unfold handlePromptChanged. rewrite H. simpl.
    split; [by apply (map_set_keys _ _ p)|].
    split; [apply map_get_set_eq|].
    split; [|done].
    intros k Hk. apply map_get_set_ne. congruence.
Qed.

(** The prompts of the next push after an edit, key by key. *)
Lemma getPromptsToSend_after_edit detail p s :
  distinctKeys (prompts s) ->
  map_get (promptId detail) (prompts s) = Some p ->
  let s' := handlePromptChanged detail s in
  let p' := {| promptId := promptId p; text := text detail;
               weight := weight detail; cc := cc detail;
               color := color p |} in
  distinctKeys (prompts s') /\
  forall q,
    q ∈ getPromptsToSend s' <->
    (q = p' /\ ~ (weight detail == 0)%Q /\ text detail ∉ filteredPrompts s) \/
    (exists k, k <> promptId detail /\
               map_get k (prompts s) = Some q /\
               ~ (weight q == 0)%Q /\ text q ∉ filteredPrompts s).
Proof.
  intros Hnd Hget s' p'.
  destruct (prompt_edit_updates_one_entry_aux detail p s Hget)
    as (Hkeys & Hsame & Hother & Hf).
  fold s' in Hkeys, Hsame, Hother, Hf. fold p' in Hsame.
  assert (distinctKeys (prompts s')) as Hnd'.
  { unfold distinctKeys. by rewrite Hkeys. }
  split; [exact Hnd'|]. intros q.
  rewrite getPromptsToSend_spec, (values_map_get _ _ Hnd'), Hf. split.
  - intros ((k & Hk) & Hw & Ht).
    destruct (decide (k = promptId detail)) as [->|Hne].
    + left. rewrite Hsame in Hk. injection Hk as <-. done.
    + right. exists k. rewrite (Hother k Hne) in Hk. done.
  - intros [(-> & Hw & Ht)|(k & Hne & Hk & Hw & Ht)].
    + split; [|done]. by exists (promptId detail).
    + split; [|done]. exists k. by rewrite (Hother k Hne).
Qed.

(** X11.  After an edit of a prompt that is in a map with distinct keys,
    the prompts that the next push carries are: the edited prompt, when its
    new weight is not 0 and its new text is not filtered; and the prompts
    stored under the other keys that were active before.  So turning a
    prompt down to 0 removes that prompt and nothing else, and giving a
    filtered prompt a text that is not filtered makes it active again. *)
Theorem active_prompts_after_edit detail p s :
  distinctKeys (prompts s) ->
  map_get (promptId detail) (prompts s) = Some p ->
  let s' := handlePromptChanged detail s in
  let p' := {| promptId := promptId p; text := text detail;
               weight := weight detail; cc := cc detail;
               color := color p |} in
  distinctKeys (prompts s') /\
  (forall q,
     q ∈ getPromptsToSend s' <->
     (q = p' /\ ~ (weight detail == 0)%Q /\
      text detail ∉ filteredPrompts s) \/
     (exists k, k <> promptId detail /\
                map_get k (prompts s) = Some q /\
                ~ (weight q == 0)%Q /\ text q ∉ filteredPrompts s)) /\
  ((weight detail == 0)%Q ->
   forall q,
     q ∈ getPromptsToSend s' <->
     exists k, k <> promptId detail /\
               map_get k (prompts s) = Some q /\
               ~ (weight q == 0)%Q /\ text q ∉ filteredPrompts s) /\
  (~ (weight detail == 0)%Q -> text detail ∉ filteredPrompts s ->
   p' ∈ getPromptsToSend s').
Proof.
  intros Hnd Hget s' p'.
  destruct (getPromptsToSend_after_edit detail p s Hnd Hget) as (Hnd' & Hq).
  split; [exact Hnd'|]. split; [exact Hq|]. split.
  - intros H0 q. split.
    + intros [(_ & Hw & _)|H]%Hq; [by destruct Hw|exact H].
    + intros H. apply Hq. by right.
  - intros Hw Ht. apply Hq. by left.
Qed.

(** ** A fresh start *)

Lemma defaultEntry_active F startOn i d :
  d.2 ∉ F ->
  active F (defaultEntry startOn i d).2 = bool_decide (i ∈ startOn).
Proof.
  intros Hd. unfold active, defaultEntry. simpl.
  rewrite (bool_decide_eq_false_2 _ Hd). by destruct (bool_decide (i ∈ startOn)).
Qed.

Lemma count_active_defaults F startOn l : forall k,
  (forall d, d ∈ l -> d.2 ∉ F) ->
  length (List.filter (active F)
            (imap (fun i d => defaultEntry startOn (k + i) d) l).*2) =
  length (List.filter (fun i => bool_decide (i ∈ startOn))
            (seq k (length l))).
Proof.
  induction l as [|d l IH]; intros k Hl; [done|].
  rewrite imap_cons, fmap_cons. cbn [length seq List.filter].
  rewrite Nat.add_0_r, defaultEntry_active by (apply Hl; by left).
  rewrite (imap_ext _ (fun i d => defaultEntry startOn (S k + i) d))
    by (intros; simpl; f_equal; lia).
  assert (forall d', d' ∈ l -> d'.2 ∉ F) as Hl'
    by (intros d' Hd'; apply Hl; by right).
  specialize (IH (S k) Hl').
  destruct (bool_decide (k ∈ startOn)); cbn [length]; by rewrite IH.
Qed.

Lemma NoDup_List_filter {A} (f : A -> bool) (l : list A) :
  NoDup l -> NoDup (List.filter f l).
Proof.
  induction 1 as [|x l Hx Hl IH]; simpl; [constructor|].
  destruct (f x); [|exact IH]. constructor; [|exact IH].
  rewrite list_elem_of_In, filter_In, <- list_elem_of_In. tauto.
Qed.

Lemma count_picked startOn n :
  NoDup startOn -> (forall i, i ∈ startOn -> (i < n)%nat) ->
  length (List.filter (fun i => bool_decide (i ∈ startOn)) (seq 0 n)) =
  length startOn.
Proof.
  intros Hnd Hlt. apply Permutation_length, NoDup_Permutation.
  - apply NoDup_List_filter, NoDup_seq.
  - exact Hnd.
  - intros i.
    rewrite list_elem_of_In, filter_In, <- list_elem_of_In, elem_of_seq,
      bool_decide_eq_true.
    split; [tauto|]. intros Hi. split; [|done].
    apply Hlt in Hi. lia.
Qed.

(** X12.  The default prompt map has sixteen entries with distinct keys,
    each stored under its own id, and every weight is 1 or 0.  After a
    fresh start whose picks are distinct indices below sixteen, and with no
    default text filtered, the active prompts are exactly as many as the
    picks (three in the code), whatever the prompts were before. *)
Theorem fresh_start_has_one_active_prompt_per_pick startOn s :
  let ps := buildDefaultPrompts startOn in
  length ps = 16%nat /\
  distinctKeys ps /\
  Forall (fun e : string * Prompt =>
            promptId e.2 = e.1 /\ (weight e.2 = 1%Q \/ weight e.2 = 0%Q)) ps /\
  prompts (resetAll startOn s) = ps /\
  (NoDup startOn -> (forall i, i ∈ startOn -> (i < 16)%nat) ->
   (forall d, d ∈ DEFAULT_PROMPTS -> d.2 ∉ filteredPrompts s) ->
   length (getPromptsToSend (resetAll startOn s)) = length startOn).
Proof.
  intros ps.
  assert (ps = imap (fun i d => defaultEntry startOn (0 + i) d)
                 DEFAULT_PROMPTS) as Hps by reflexivity.
  split; [by rewrite Hps, length_imap|].
  split; [|split; [|split; [reflexivity|]]].
  - unfold distinctKeys. rewrite Hps, fmap_imap.
    rewrite (imap_ext _ (fun i _ => ("prompt-" ++ pretty i)%string))
      by done.
    rewrite imap_seq_0. apply NoDup_fmap_2; [|apply NoDup_seq].
    intros i j Hij. apply (inj (String.append "prompt-")) in Hij.
    by apply (inj pretty) in Hij.
  - rewrite Hps. apply Forall_lookup_2. intros i e.
    rewrite list_lookup_imap. destruct (DEFAULT_PROMPTS !! i) as [d|];
      [|done].
    intros [= <-]. unfold defaultEntry. cbn [fst snd promptId weight].
    split; [done|]. destruct (bool_decide _); auto.
  - intros Hnd Hlt Hf. unfold getPromptsToSend, values.
    change (filteredPrompts (resetAll startOn s)) with (filteredPrompts s).
    change (prompts (resetAll startOn s)) with ps. rewrite Hps.
    rewrite (count_active_defaults _ _ _ 0%nat Hf).
    by apply count_picked.
Qed.

(** ** The play/pause button *)

(** X13.  What a click on the play/pause button does.  While playing it
    pauses: playback is [paused] and the scheduler reset.  While loading it
    stops: playback is [stopped] and the scheduler reset.  In both cases the
    session is told only when the connection is live.  While paused or
    stopped on a live connection with an active prompt, it sends one play
    command, playback becomes [loading], nothing is shown, no connect is
    made and the scheduler is left alone. *)
Theorem play_pause_button env c s :
  let s' := handlePlayPause env c s in
  (playbackState s = playing ->
   playbackState s' = paused /\ nextStartTime s' = 0 /\
   sent s' = sent s ++ if sessionLive s then [CmdPause] else []) /\
  (playbackState s = loading ->
   playbackState s' = stopped /\ nextStartTime s' = 0 /\
   sent s' = sent s ++ if sessionLive s then [CmdStop] else []) /\
  (playbackState s = paused \/ playbackState s = stopped ->
   sessionLive s = true -> getPromptsToSend s <> [] ->
   playbackState s' = loading /\
   sent s' = sent s ++ [CmdPlay] /\
   toasts s' = toasts s /\
   nextStartTime s' = nextStartTime s /\
   timers s' = timers s /\
   scheduled s' = scheduled s).
Proof.
  intros s'. subst s'. unfold handlePlayPause. split; [|split].
  - intros ->. destruct (pause_fields env s) as (H1 & H2 & _).
    by rewrite H1, H2, pause_sent.
  - intros ->. destruct (stop_fields env s) as (H1 & H2 & _).
    by rewrite H1, H2, stop_sent.
  - intros Hp Hlive Hne.
    assert (handlePlayPause env c s = play env s) as Hresume.
    { unfold handlePlayPause.
      destruct Hp as [Hp|Hp]; rewrite Hp, (live_guard s Hlive); reflexivity. }
    fold (handlePlayPause env c s). rewrite Hresume. clear Hresume.
    assert (playbackState (play env s) = loading /\
            sent (play env s) = sent s ++ [CmdPlay] /\
            toasts (play env s) = toasts s /\
            nextStartTime (play env s) = nextStartTime s /\
            timers (play env s) = timers s /\
            scheduled (play env s) = scheduled s) as Hplay.
    { rewrite play_sent. unfold play, fireAndForget.
      rewrite (nonempty_length _ Hne), Hlive.
      unfold sessionLive, hasSession in Hlive.
      destruct (session s); [|done]. simpl.
      destruct (onPlay env); done. }
    exact Hplay.
Qed.

(** ** The knob *)

Lemma clamp_range v : (0 <= WeightKnob.clamp v <= 2)%Q.
Proof.
  unfold WeightKnob.clamp. split.
  - apply Q.le_max_l.
  - apply Q.max_lub; [done|apply Q.le_min_l].
Qed.

Lemma clamp_id v : (0 <= v <= 2)%Q -> (WeightKnob.clamp v == v)%Q.
Proof.
  intros [H0 H2]. unfold WeightKnob.clamp.
  rewrite (Q.min_r 2 v H2). by apply Q.max_r.
Qed.

Lemma drag_keeps_start ys : forall k0,
  WeightKnob.dragStartPos
    (fold_left (fun k y => (WeightKnob.handlePointerMove y k).1) ys k0)
    = WeightKnob.dragStartPos k0 /\
  WeightKnob.dragStartValue
    (fold_left (fun k y => (WeightKnob.handlePointerMove y k).1) ys k0)
    = WeightKnob.dragStartValue k0.
Proof.
  induction ys as [|y ys IH]; intros k0; [done|].
  cbn [fold_left].
  destruct (IH (WeightKnob.handlePointerMove y k0).1) as [-> ->]. done.
Qed.

(** X14.  Whatever the pointer or the wheel does, the knob's value stays
    between 0 and 2, and the value it reports is the value it holds.  A drag
    is measured from where it began: after any number of moves the value is
    the clamped start value plus 0.015 per pixel of distance from the start
    position, so coming back to the start position restores the value the
    drag started from. *)
Theorem knob_value_stays_in_range (k : WeightKnob.T) (y0 : Q) (ys : list Q)
    (y deltaY : Q) :
  let dragged :=
    fold_left (fun k y => (WeightKnob.handlePointerMove y k).1) ys
      (WeightKnob.handlePointerDown y0 k) in
  let moved := WeightKnob.handlePointerMove y dragged in
  let wheeled := WeightKnob.handleWheel deltaY k in
  (0 <= moved.2 <= 2)%Q /\ WeightKnob.value moved.1 = moved.2 /\
  (0 <= wheeled.2 <= 2)%Q /\ WeightKnob.value wheeled.1 = wheeled.2 /\
  moved.2 =
    WeightKnob.clamp (WeightKnob.value k + (y0 - y) * 0.015)%Q /\
  ((0 <= WeightKnob.value k <= 2)%Q -> (y == y0)%Q ->
   (moved.2 == WeightKnob.value k)%Q).
Proof.
  intros dragged moved wheeled.
  destruct (drag_keeps_start ys (WeightKnob.handlePointerDown y0 k))
    as [Hp Hv].
  fold dragged in Hp, Hv. simpl in Hp, Hv.
  assert (moved.2 =
    WeightKnob.clamp (WeightKnob.value k + (y0 - y) * 0.015)%Q) as Hm.
  { subst moved. unfold WeightKnob.handlePointerMove. simpl.
    by rewrite Hp, Hv. }
  split; [rewrite Hm; apply clamp_range|]. split; [done|].
  split; [apply clamp_range|]. split; [done|]. split; [exact Hm|].
  intros Hk Hy. rewrite Hm.
  assert (WeightKnob.value k + (y0 - y) * 0.015 == WeightKnob.value k)%Q
    as Hx by lra.
  rewrite clamp_id; [exact Hx|]. lra.
Qed.

(** ** MIDI control changes *)

Lemma midi_weight_range v :
  (0 <= v <= 127)%Z ->
  (0 <= inject_Z v / 127 * 2 <= 2)%Q /\
  ((inject_Z v / 127 * 2 == 0)%Q <-> v = 0%Z) /\
  ((inject_Z v / 127 * 2 == 2)%Q <-> v = 127%Z).
Proof.
  intros [H0 H127].
  assert (inject_Z 0 <= inject_Z v)%Q as Q0 by (by rewrite <- Zle_Qle).
  assert (inject_Z v <= inject_Z 127)%Q as Q127 by (by rewrite <- Zle_Qle).
  change (inject_Z 0) with 0%Q in Q0. change (inject_Z 127) with 127%Q in Q127.
  assert (inject_Z v / 127 * 2 == inject_Z v * (2 # 127))%Q as E by field.
  split; [rewrite E; lra|]. split; rewrite E; split.
  - intros H. assert (inject_Z v == 0)%Q as Hv by lra.
    by apply (inject_Z_injective v 0).
  - intros ->. reflexivity.
  - intros H. assert (inject_Z v == inject_Z 127)%Q as Hv
      by (change (inject_Z 127) with 127%Q; lra).
    by apply inject_Z_injective.
  - intros ->. reflexivity.
Qed.

(** X15.  How a prompt controller routes a control change.  In learn mode
    it takes the message's controller number, leaves learn mode and keeps
    its weight.  Otherwise a message for another controller number changes
    nothing and dispatches nothing, and a message for its own number sets
    the weight to value / 127 * 2: for a value from 0 to 127 that is a
    weight from 0 to 2, 0 only for the value 0 and 2 only for 127.  Whatever
    is dispatched carries the controller's id and text. *)
Theorem control_change_routing (m : ControlChange.t) (c : PromptController.T) :
  let r := PromptController.onCcMessage m c in
  (PromptController.learnMode c = true ->
   PromptController.cc r.1 = ControlChange.cc m /\
   PromptController.learnMode r.1 = false /\
   PromptController.weight r.1 = PromptController.weight c /\
   r.2 = Some (PromptController.detail r.1)) /\
  (PromptController.learnMode c = false ->
   ControlChange.cc m <> PromptController.cc c -> r = (c, None)) /\
  (PromptController.learnMode c = false ->
   ControlChange.cc m = PromptController.cc c ->
   PromptController.cc r.1 = PromptController.cc c /\
   r.2 = Some (PromptController.detail r.1) /\
   PromptController.weight r.1 =
     (inject_Z (ControlChange.value m) / 127 * 2)%Q /\
   ((0 <= ControlChange.value m <= 127)%Z ->
    (0 <= PromptController.weight r.1 <= 2)%Q /\
    ((PromptController.weight r.1 == 0)%Q <-> ControlChange.value m = 0%Z) /\
    ((PromptController.weight r.1 == 2)%Q <->
       ControlChange.value m = 127%Z))) /\
  (forall d, r.2 = Some d ->
     promptId d = PromptController.promptId c /\
     text d = PromptController.text c /\
     color d = PromptController.color c).
Proof.
  intros r. subst r. unfold PromptController.onCcMessage.
  destruct (PromptController.learnMode c) eqn:Hl.
  - split; [done|]. split; [done|]. split; [done|].
    intros d [= <-]. done.
  - split; [done|]. destruct (decide _) as [He|Hne].
    + split; [done|]. split.
      * intros _ _. split; [done|]. split; [done|]. split; [done|].
        simpl. apply midi_weight_range.
      * intros d [= <-]. done.
    + split; [done|]. split; [done|]. done.
Qed.

(** X16.  From a control change to the push.  Take a prompt stored under
    its id in a map with distinct keys, and its controller as the parent
    renders it, not in learn mode.  A control change for the prompt's
    controller number with a value from 0 to 127 dispatches an edit; handled
    by the parent, it stores the weight value / 127 * 2 under the same key,
    keeps the prompt's text, controller number and colour, and asks for a
    prompt push.  With the value 0 the prompt is not in the next push, which
    carries only prompts stored under other keys; with another value it is,
    unless its text is filtered. *)
Theorem control_change_reaches_the_push
    (m : ControlChange.t) (p : Prompt) showMidi c0 s :
  distinctKeys (prompts s) ->
  map_get (promptId p) (prompts s) = Some p ->
  let c := renderPrompt p showMidi c0 in
  PromptController.learnMode c = false ->
  ControlChange.cc m = cc p ->
  (0 <= ControlChange.value m <= 127)%Z ->
  exists d,
    (PromptController.onCcMessage m c).2 = Some d /\
    let s' := handlePromptChanged d s in
    let p' := {| promptId := promptId p; text := text p;
                 weight := (inject_Z (ControlChange.value m) / 127 * 2)%Q;
                 cc := cc p; color := color p |} in
    map_get (promptId p) (prompts s') = Some p' /\
    requested s' = requested s ++ [SetSessionPrompts] /\
    (ControlChange.value m = 0%Z ->
     forall q, q ∈ getPromptsToSend s' ->
       exists k, k <> promptId p /\ map_get k (prompts s) = Some q) /\
    (ControlChange.value m <> 0%Z -> text p ∉ filteredPrompts s ->
     p' ∈ getPromptsToSend s').
Proof.
  intros Hnd Hget c Hl Hcc Hv.
  set (d := {| promptId := promptId p; text := text p;
               weight := (inject_Z (ControlChange.value m) / 127 * 2)%Q;
               cc := cc p; color := color p |}).
  exists d. split.
  { unfold PromptController.onCcMessage. rewrite Hl.
    rewrite decide_True by exact Hcc. reflexivity. }
  intros s' p'.
  assert (map_get (promptId d) (prompts s) = Some p) as Hget' by exact Hget.
  destruct (prompt_edit_updates_one_entry_aux d p s Hget')
    as (_ & Hsame & _ & _).
  destruct (getPromptsToSend_after_edit d p s Hnd Hget') as (_ & Hq).
  destruct (midi_weight_range _ Hv) as (_ & Hz & _).
  split; [exact Hsame|]. split.
  { subst s'. unfold handlePromptChanged. by rewrite Hget'. }
  split.
  - intros H0 q Hin. apply Hq in Hin as [(_ & Hw & _)|(k & Hne & Hk & _)].
    + destruct Hw. by apply Hz.
    + by exists k.
  - intros Hne Ht. apply Hq. left. split; [done|]. split; [|done].
    intros Hw. by apply Hz in Hw.
Qed.

(** ** The drum mixer *)

(** X17.  Moving the slider of a stem gives the mixer a mix with that
    stem set and the others as before.  Handled by the parent, it becomes
    the drum-mix setting and one drum-mix push is asked for; the map built
    for that push holds the slider's value for the stem and, for every other
    stem, what it held before.  A mix that has a value for every stem keeps
    one, and is then sent as it is, with no default filled in. *)
Theorem slider_move_reaches_the_push value stem (s : State) :
  stem ∈ DRUM_STEM_TYPES ->
  let mix := drumMixSettings s in
  let mix' := DrumMixer.handleStemChange value stem mix in
  let s' := handleDrumMixChanged mix' s in
  drumMixSettings s' = mix' /\
  requested s' = requested s ++ [SetSessionDrumMix] /\
  sent s' = sent s /\
  normalizeDrumMix mix' !! stem = Some value /\
  (forall other, other <> stem ->
     normalizeDrumMix mix' !! other = normalizeDrumMix mix !! other) /\
  (complete mix ->
   complete mix' /\
   forall st, st ∈ DRUM_STEM_TYPES ->
     normalizeDrumMix mix' !! st = mix' !! st /\
     mix' !! st = Some (DrumMixer.shown mix' st)).
Proof.
  intros Hstem mix mix' s'.
  split; [done|]. split; [done|]. split; [done|].
  assert (mix' !! stem = Some value) as Hv by apply lookup_insert_eq.
  split.
  { rewrite normalizeDrumMix_lookup, decide_True by done.
    unfold stemVolume. by rewrite Hv. }
  split.
  { intros other Hne. rewrite !normalizeDrumMix_lookup.
    case_decide; [|done]. unfold stemVolume, mix', DrumMixer.handleStemChange.
    by rewrite lookup_insert_ne. }
  intros Hc.
  assert (complete mix') as Hc'.
  { intros st Hst. destruct (decide (st = stem)) as [->|Hne].
    - by rewrite Hv.
    - unfold mix', DrumMixer.handleStemChange.
      rewrite lookup_insert_ne by done. by apply Hc. }
  split; [exact Hc'|]. intros st Hst.
  destruct (Hc' st Hst) as [v Hst'].
  rewrite normalizeDrumMix_lookup, decide_True by done.
  unfold stemVolume, DrumMixer.shown. by rewrite Hst'.
Qed.

Lemma default_drum_mix_complete : complete DEFAULT_DRUM_MIX_SETTINGS.
Proof.
  intros stem Hin. unfold DRUM_STEM_TYPES in Hin.
  in_list Hin; subst stem; vm_compute; eauto.
Qed.

(** X18.  Normalising a drum mix twice is the same as normalising it
    once, and the normalised mix has a value for every stem.  For a stem the
    mix has no value for, the wire gets 0.0 while the mixer's slider shows
    0.5. *)
Theorem drum_mix_normalisation (mix : DrumMix) :
  normalizeDrumMix (normalizeDrumMix mix) = normalizeDrumMix mix /\
  complete (normalizeDrumMix mix) /\
  (forall stem, stem ∈ DRUM_STEM_TYPES -> mix !! stem = None ->
     normalizeDrumMix mix !! stem = Some 0.0%Q /\
     DrumMixer.shown mix stem = 0.5%Q).
Proof.
  split; [|split].
  - apply map_eq. intros stem. rewrite !normalizeDrumMix_lookup.
    case_decide; [|done]. unfold stemVolume.
    by rewrite normalizeDrumMix_lookup, decide_True.
  - intros stem Hin. rewrite normalizeDrumMix_lookup, decide_True by done.
    eauto.
  - intros stem Hin Hnone. rewrite normalizeDrumMix_lookup, decide_True by done.
    unfold stemVolume, DrumMixer.shown. by rewrite Hnone.
Qed.

Lemma onmessage_drumMixSettings now e s :
  drumMixSettings (onmessage now e s) = drumMixSettings s.
Proof.
  rewrite onmessage_preamble.
  assert (drumMixSettings (preamble e s) = drumMixSettings s) as Hp.
  { unfold preamble. destruct (filteredPrompt e), (setupComplete e); done. }
  destruct (audioChunks e) as [chunks|]; [|exact Hp].
  rewrite <- Hp. unfold onAudioChunks, scheduleBuffer.
  repeat case_match; done.
Qed.

Lemma deliver_all_drumMixSettings during : forall s,
  drumMixSettings (fold_left deliver during s) = drumMixSettings s.
Proof.
  induction during as [|d during IH]; intros s; [done|].
  simpl. rewrite IH. apply onmessage_drumMixSettings.
Qed.

Lemma pause_drumMixSettings env s :
  drumMixSettings (pause env s) = drumMixSettings s.
Proof. unfold pause, fireAndForget. repeat case_match; done. Qed.

Lemma stop_drumMixSettings env s :
  drumMixSettings (stop env s) = drumMixSettings s.
Proof. unfold stop, fireAndForget. repeat case_match; done. Qed.

Lemma play_drumMixSettings env s :
  drumMixSettings (play env s) = drumMixSettings s.
Proof.
  unfold play. destruct (session s); [|done].
  destruct (length _ =? 0)%nat; [by rewrite pause_drumMixSettings|].
  unfold fireAndForget. repeat case_match; done.
Qed.

Lemma connectToSession_drumMixSettings env c s :
  drumMixSettings (connectToSession env c s) = drumMixSettings s.
Proof.
  unfold connectToSession. destruct c as [msg|h during].
  - change (drumMixSettings (stop env (with_connectionError true
              (transmit CmdConnect s))) = drumMixSettings s).
    by rewrite stop_drumMixSettings.
  - change (drumMixSettings (fold_left deliver during (transmit CmdConnect s))
              = drumMixSettings s).
    by rewrite deliver_all_drumMixSettings.
Qed.

Lemma step_drumMixSettings ev s :
  drumMixSettings (step ev s) =
    match ev with
    | EvDrumMixChanged detail => detail
    | EvResetAll _ => DEFAULT_DRUM_MIX_SETTINGS
    | _ => drumMixSettings s
    end.
Proof.
  destruct ev; cbn [step].
  - unfold firstUpdated. cbv zeta.
    destruct (negb _); unfold request; cbn [drumMixSettings with_requested];
      apply connectToSession_drumMixSettings.
  - apply onmessage_drumMixSettings.
  - unfold onerror, toast. cbn [drumMixSettings with_toasts].
    by rewrite stop_drumMixSettings.
  - unfold onclose, toast. cbn [drumMixSettings with_toasts].
    by rewrite stop_drumMixSettings.
  - unfold lookaheadElapsed. by destruct (timers s).
  - unfold handlePlayPause.
    assert (drumMixSettings
      (if connectionError s || negb (hasSession s) then
        let s1 :=
          connectToSession env c (toast "Reconnecting Lyria session..." s) in
        if negb (connectionError s1) && hasSession s1
        then
          play env (request SetSessionDrumMix (request SetSessionPrompts s1))
        else
          with_playbackState stopped
            (toast "Failed to reconnect Lyria. Please check console." s1)
      else play env s) = drumMixSettings s) as Hplay.
    { destruct (connectionError s || _); [|apply play_drumMixSettings].
      cbv zeta. destruct (negb _ && _).
      - rewrite play_drumMixSettings. unfold request.
        cbn [drumMixSettings with_requested].
        by rewrite connectToSession_drumMixSettings.
      - unfold toast at 1. cbn [drumMixSettings with_toasts with_playbackState].
        by rewrite connectToSession_drumMixSettings. }
    destruct (playbackState s);
      [exact Hplay|apply pause_drumMixSettings|apply stop_drumMixSettings
      |exact Hplay].
  - unfold handlePromptChanged. by destruct (map_get _ _).
  - done.
  - done.
  - unfold setSessionPrompts. destruct (connectionError s || _); [done|].
    destruct (length _ =? 0)%nat; [by rewrite pause_drumMixSettings|].
    destruct (onSetWeightedPrompts env); [done|].
    by rewrite pause_drumMixSettings.
  - unfold setSessionDrumMix. destruct (connectionError s || _); [done|].
    by destruct (onSetDrumMix env).
Qed.

Lemma mixerDriven_complete evs : forall s,
  complete (drumMixSettings s) -> mixerDriven evs s ->
  complete (drumMixSettings (run evs s)).
Proof.
  induction evs as [|ev evs IH]; intros s Hc Hd; [exact Hc|].
  destruct Hd as [Hev Hd]. rewrite run_cons. apply IH; [|exact Hd].
  rewrite step_drumMixSettings. destruct ev; try exact Hc.
  - destruct Hev as (value & stem & ->). intros st Hst.
    unfold DrumMixer.handleStemChange.
    destruct (decide (st = stem)) as [->|Hne].
    + rewrite lookup_insert_eq. eauto.
    + rewrite lookup_insert_ne by done. by apply Hc.
  - apply default_drum_mix_complete.
Qed.

(** X19.  Starting from the constructor's state, as long as the drum mix
    is only changed by slider moves of the mixer (and by fresh starts),
    the drum-mix setting has a value for every stem after any run of
    events.  So every drum-mix push sends the setting as it is: the default
    0.0 of the normalisation is never used. *)
Theorem drum_mix_setting_stays_complete ps evs :
  mixerDriven evs (initial ps) ->
  let s := run evs (initial ps) in
  complete (drumMixSettings s) /\
  forall stem, stem ∈ DRUM_STEM_TYPES ->
    normalizeDrumMix (drumMixSettings s) !! stem = drumMixSettings s !! stem.
Proof.
  intros Hd s.
  assert (complete (drumMixSettings s)) as Hc.
  { apply mixerDriven_complete; [|exact Hd]. apply default_drum_mix_complete. }
  split; [exact Hc|]. intros stem Hst. destruct (Hc stem Hst) as [v Hv].
  rewrite normalizeDrumMix_lookup, decide_True by done.
  unfold stemVolume. by rewrite Hv.
Qed.

(** ** The drum sliders *)

Lemma round_half_up p : Qfloor (inject_Z p + (1 # 2)) = p.
Proof.
  unfold Qfloor, Qplus, inject_Z. simpl.
  change (Z.pos (1 * 2)) with 2%Z.
  symmetry. apply Z.div_unique with (r := 1%Z); lia.
Qed.

(** X20.  A slider put at a position from 0 to 100 holds a volume from 0
    to 1, the position divided by 100, and reports it with its stem; drawn
    again from that volume it stands at the same position.  The same holds
    when the volume makes the round through the mixer's mix. *)
Theorem slider_position_round_trip (p : Z) (sl : DrumStemSlider.T)
    (mix : DrumMix) :
  let r := DrumStemSlider.handleInput p sl in
  r.2 = ((inject_Z p / 100)%Q, DrumStemSlider.label sl) /\
  DrumStemSlider.position r.1 = p /\
  DrumStemSlider.position
    {| DrumStemSlider.label := DrumStemSlider.label sl;
       DrumStemSlider.value :=
         DrumMixer.shown
           (DrumMixer.handleStemChange r.2.1 r.2.2 mix)
           (DrumStemSlider.label sl) |} = p /\
  ((0 <= p <= 100)%Z -> (0 <= DrumStemSlider.value r.1 <= 1)%Q).
Proof.
  intros r. subst r. unfold DrumStemSlider.handleInput. simpl.
  assert (Qfloor (inject_Z p / 100 * 100 + (1 # 2)) = p) as Hpos.
  { rewrite <- (round_half_up p) at 2. apply Qfloor_comp. field. }
  split; [done|]. split; [exact Hpos|]. split.
  - unfold DrumStemSlider.position, DrumMixer.shown,
      DrumMixer.handleStemChange. simpl.
    by rewrite lookup_insert_eq.
  - intros [H0 H100].
    assert (inject_Z 0 <= inject_Z p)%Q as Q0 by (by rewrite <- Zle_Qle).
    assert (inject_Z p <= inject_Z 100)%Q as Q1 by (by rewrite <- Zle_Qle).
    change (inject_Z 0) with 0%Q in Q0. change (inject_Z 100) with 100%Q in Q1.
    assert (inject_Z p / 100 == inject_Z p * (1 # 100))%Q as -> by field.
    lra.
Qed.

(** ** The toast *)

Lemma oneTimer_clearHideTimeout t :
  oneTimer t -> ToastMessage.clearHideTimeout t = [].
Proof.
  unfold ToastMessage.clearHideTimeout.
  intros [He|(h & d & He & Hh & _)]; rewrite He.
  - by destruct (ToastMessage.hideTimeout t).
  - rewrite Hh. unfold ToastMessage.clearTimeout. simpl.
    by rewrite bool_decide_eq_true_2.
Qed.

Lemma oneTimer_act a t : oneTimer t -> oneTimer (ToastMessage.act a t).
Proof.
  intros Hi. destruct a as [msg d| |h]; simpl.
  - unfold ToastMessage.show. rewrite (oneTimer_clearHideTimeout t Hi).
    destruct (0 <? d)%Z eqn:Hd.
    + right. exists (ToastMessage.nextHandle t), d. simpl.
      repeat split. by apply Z.ltb_lt.
    + by left.
  - left. simpl. by apply oneTimer_clearHideTimeout.
  - unfold ToastMessage.timeoutFired. case_bool_decide as Hin; [|exact Hi].
    left. destruct Hi as [He|(h' & d & He & Hh & _)].
    + rewrite He in Hin. by apply elem_of_nil in Hin.
    + rewrite He in Hin. simpl in Hin.
      apply list_elem_of_singleton in Hin. subst h'.
      unfold ToastMessage.hide, ToastMessage.clearHideTimeout. simpl.
      rewrite Hh, He. unfold ToastMessage.clearTimeout. simpl.
      by rewrite bool_decide_eq_true_2.
Qed.

Lemma oneTimer_after acts : forall t,
  oneTimer t -> oneTimer (ToastMessage.after acts t).
Proof.
  induction acts as [|a acts IH]; intros t Hi; [exact Hi|].
  apply IH. by apply oneTimer_act.
Qed.

(** X21.  Whatever was shown, hidden or timed out before, the toast has at
    most one hide timer pending, and none when it is hidden.  Showing a
    message then displays it with exactly its own timer pending (none for a
    duration of zero or less): no timer set for an earlier message can hide
    it, and its own timer hides it. *)
Theorem toast_is_hidden_by_its_own_timer_only (acts : list ToastMessage.Action)
    (msg : string) (duration : Z) :
  let t := ToastMessage.after acts ToastMessage.initial in
  let t' := ToastMessage.show msg duration t in
  (length (ToastMessage.pendingTimeouts t) <= 1)%nat /\
  (ToastMessage.showing t = false -> ToastMessage.pendingTimeouts t = []) /\
  ToastMessage.message t' = msg /\
  ToastMessage.showing t' = true /\
  ToastMessage.pendingTimeouts t' =
    (if (0 <? duration)%Z then [(ToastMessage.nextHandle t, duration)]
     else []) /\
  (forall h, h <> ToastMessage.nextHandle t ->
     ToastMessage.timeoutFired h t' = t') /\
  ((0 < duration)%Z ->
     let t'' := ToastMessage.timeoutFired (ToastMessage.nextHandle t) t' in
     ToastMessage.showing t'' = false /\
     ToastMessage.pendingTimeouts t'' = [] /\
     ToastMessage.message t'' = msg).
Proof.
  intros t t'.
  assert (oneTimer t) as Hi by (apply oneTimer_after; by left).
  assert (ToastMessage.pendingTimeouts t' =
    (if (0 <? duration)%Z then [(ToastMessage.nextHandle t, duration)]
     else [])) as Hp.
  { subst t'. unfold ToastMessage.show.
    rewrite (oneTimer_clearHideTimeout t Hi). by destruct (0 <? duration)%Z. }
  split; [|split; [|split; [|split; [|split; [exact Hp|split]]]]].
  - destruct Hi as [He|(h & d & He & _)]; rewrite He; simpl; lia.
  - intros Hs. destruct Hi as [He|(h & d & _ & _ & Hs' & _)]; [exact He|].
    congruence.
  - subst t'. unfold ToastMessage.show. by destruct (0 <? duration)%Z.
  - subst t'. unfold ToastMessage.show. by destruct (0 <? duration)%Z.
  - intros h Hne. unfold ToastMessage.timeoutFired. rewrite Hp.
    rewrite bool_decide_eq_false_2; [done|].
    destruct (0 <? duration)%Z; simpl.
    + by intros ->%list_elem_of_singleton.
    + apply not_elem_of_nil.
  - intros Hd t''. subst t''. unfold ToastMessage.timeoutFired. rewrite Hp.
    apply Z.ltb_lt in Hd. rewrite Hd. simpl.
    rewrite bool_decide_eq_true_2 by apply list_elem_of_singleton, eq_refl.
    subst t'. unfold ToastMessage.show. rewrite Hd.
    unfold ToastMessage.hide, ToastMessage.clearHideTimeout,
      ToastMessage.clearTimeout. simpl.
    by rewrite bool_decide_eq_true_2.
Qed.

(** ** From the knob to the push *)

(** X22.  From a turn of the knob to the push.  Take a prompt stored under
    its id in a map with distinct keys, and its controller as the parent
    renders it.  Whatever the knob holds after a drag or a wheel move, the
    controller dispatches an edit whose weight is the knob's value, between
    0 and 2; handled by the parent, it is stored under the same key with the
    prompt's text, controller number and colour, and a prompt push is asked
    for.  A knob turned down to 0 takes the prompt out of the next push;
    any other value keeps it in, unless its text is filtered. *)
Theorem knob_turn_reaches_the_push
    (k : WeightKnob.T) (y deltaY : Q) (wheel : bool)
    (p : Prompt) showMidi c0 s :
  distinctKeys (prompts s) ->
  map_get (promptId p) (prompts s) = Some p ->
  let c := renderPrompt p showMidi c0 in
  let turned := if wheel then WeightKnob.handleWheel deltaY k
                else WeightKnob.handlePointerMove y k in
  let d := (PromptController.updateWeight turned.1 c).2 in
  let s' := handlePromptChanged d s in
  let p' := {| promptId := promptId p; text := text p;
               weight := turned.2; cc := cc p; color := color p |} in
  d = p' /\
  (0 <= weight d <= 2)%Q /\
  map_get (promptId p) (prompts s') = Some p' /\
  requested s' = requested s ++ [SetSessionPrompts] /\
  ((turned.2 == 0)%Q ->
   forall q, q ∈ getPromptsToSend s' ->
     exists k', k' <> promptId p /\ map_get k' (prompts s) = Some q) /\
  (~ (turned.2 == 0)%Q -> text p ∉ filteredPrompts s ->
   p' ∈ getPromptsToSend s').
Proof.
  intros Hnd Hget c turned d s' p'.
  assert (d = p') as Hd by (subst d p' turned; by destruct wheel).
  assert (0 <= turned.2 <= 2)%Q as Hr
    by (subst turned; destruct wheel; apply clamp_range).
  split; [exact Hd|]. split; [by rewrite Hd|].
  subst s'. rewrite Hd.
  assert (map_get (promptId p') (prompts s) = Some p) as Hget' by exact Hget.
  destruct (prompt_edit_updates_one_entry_aux p' p s Hget')
    as (_ & Hsame & _ & _).
  destruct (getPromptsToSend_after_edit p' p s Hnd Hget') as (_ & Hq).
  split; [exact Hsame|]. split.
  { unfold handlePromptChanged. by rewrite Hget'. }
  split.
  - intros H0 q Hin. apply Hq in Hin as [(_ & Hw & _)|(k' & Hne & Hk & _)].
    + by destruct Hw.
    + by exists k'.
  - intros Hne Ht. apply Hq. left. done.
Qed.

(** ** Linking a controller to a MIDI knob *)

(** X23.  Linking a prompt to a MIDI knob.  With the MIDI links shown, a
    click on the link of a controller that is not learning makes it learn;
    the next control change, whatever its number, binds the controller to
    that number, ends learning and dispatches an edit that the parent stores
    with the prompt's weight unchanged.  From then on a control change with
    the learnt number sets the weight and one with any other number, the old
    one included, does nothing.  Hiding the MIDI links while the controller
    is learning ends learning without binding anything. *)
Theorem midi_learn_binds_controller
    (m : ControlChange.t) (p : Prompt) c0 s :
  map_get (promptId p) (prompts s) = Some p ->
  let shown := renderPrompt p true c0 in
  PromptController.learnMode shown = false ->
  let learning := PromptController.toggleLearnMode shown in
  let r := PromptController.onCcMessage m learning in
  let p' := {| promptId := promptId p; text := text p; weight := weight p;
               cc := ControlChange.cc m; color := color p |} in
  PromptController.learnMode learning = true /\
  r.2 = Some p' /\
  PromptController.learnMode r.1 = false /\
  PromptController.cc r.1 = ControlChange.cc m /\
  map_get (promptId p) (prompts (handlePromptChanged p' s)) = Some p' /\
  (forall m2, ControlChange.cc m2 = ControlChange.cc m ->
     (PromptController.onCcMessage m2 r.1).2 =
       Some {| promptId := promptId p; text := text p;
               weight := (inject_Z (ControlChange.value m2) / 127 * 2)%Q;
               cc := ControlChange.cc m; color := color p |}) /\
  (forall m2, ControlChange.cc m2 <> ControlChange.cc m ->
     PromptController.onCcMessage m2 r.1 = (r.1, None)) /\
  (let hidden := renderPrompt p false learning in
   PromptController.learnMode hidden = false /\
   (ControlChange.cc m <> cc p ->
    PromptController.onCcMessage m hidden = (hidden, None))).
Proof.
  intros Hget shown Hl learning r p'.
  assert (PromptController.learnMode learning = true) as Hon.
  { change (negb (PromptController.learnMode shown) = true). by rewrite Hl. }
  assert (r = (PromptController.mk (promptId p) (text p) (weight p) (color p)
                 (ControlChange.cc m) false true, Some p')) as Hr.
  { subst r. unfold PromptController.onCcMessage. rewrite Hon. reflexivity. }
  split; [exact Hon|]. rewrite Hr. simpl.
  split; [done|]. split; [done|]. split; [done|]. split.
  { assert (map_get (promptId p') (prompts s) = Some p) as Hget' by exact Hget.
    destruct (prompt_edit_updates_one_entry_aux p' p s Hget')
      as (_ & Hsame & _). exact Hsame. }
  split; [|split].
  - intros m2 H2. unfold PromptController.onCcMessage. simpl.
    rewrite decide_True by exact H2. reflexivity.
  - intros m2 H2. unfold PromptController.onCcMessage. simpl.
    rewrite decide_False by exact H2. reflexivity.
  - split; [reflexivity|]. intros Hne.
    unfold PromptController.onCcMessage. simpl.
    rewrite decide_False by exact Hne. reflexivity.
Qed.

(** ** Concrete instances of the further properties *)

Lemma started_distinctKeys : distinctKeys (prompts started).
Proof.
  unfold distinctKeys. change ((prompts started).*1) with ["prompt-0"].
  apply NoDup_singleton.
Qed.

(** X1 at a chunk and a set-up notice that arrive while paused. *)
Lemma chunks_dropped_while_paused_or_stopped_witness :
  let s' := run [ EvMessage 200000 (chunkMessage 96000);
                  EvMessage 300000 setupNotice ] pausedByClick in
  playbackState pausedByClick = paused /\
  scheduled s' = scheduled pausedByClick /\
  timers s' = timers pausedByClick /\
  nextStartTime s' = 0 /\
  sent s' = sent pausedByClick.
Proof.
  intros s'.
  assert (playbackState pausedByClick = paused) as Hp
    by (vm_compute; reflexivity).
  destruct (chunks_dropped_while_paused_or_stopped
              [ (200000, chunkMessage 96000); (300000, setupNotice) ]
              pausedByClick (or_introl Hp)) as (H1 & H2 & _ & H4 & _ & H6).
  split; [exact Hp|]. split; [exact H1|]. split; [exact H2|].
  split; [|exact H6].
  transitivity (nextStartTime pausedByClick); [exact H4|].
  vm_compute. reflexivity.
Defined.

(** X2 at an undecodable chunk that arrives right after play. *)
Lemma undecodable_chunk_is_skipped_witness :
  view (onmessage 0 garbled started) = view started /\
  (exists f, uncaught (onmessage 0 garbled started) = uncaught started ++ [f] /\
             (f = DecodeFailed \/ f = NoChunkInMessage)) /\
  view (onmessage 100 (chunkMessage 96000) (onmessage 0 garbled started)) =
  view (onmessage 100 (chunkMessage 96000) started).
Proof.
  destruct (undecodable_chunk_is_skipped 0 garbled
              [ {| decoded := None |} ] started) as (H1 & H2 & H3).
  - right. vm_compute. reflexivity.
  - reflexivity.
  - reflexivity.
  - split; [exact H1|]. split; [exact H2|]. apply H3.
Defined.

(** X4 at three chunks of 4/3 s: the running sum ends one unit in the last
    place below 6. *)
Lemma next_start_time_advances_by_delivered_audio_witness :
  let s := Seconds.run Seconds.thirds Seconds.started in
  Seconds.nextStartTime s =
    (((Seconds.bufferTime + Seconds.third) + Seconds.third)
     + Seconds.third)%float /\
  (Seconds.nextStartTime s <? Seconds.thirdsEnd)%float = true /\
  Seconds.positive (Seconds.nextStartTime s).
Proof.
  intros s.
  destruct (next_start_time_advances_by_delivered_audio Seconds.thirds
              Seconds.started) as (_ & H).
  - vm_compute. repeat split; (by left) || (by right).
  - vm_compute. repeat split.
  - unfold Seconds.thirds. repeat constructor.
  - vm_compute. reflexivity.
  - destruct H as (b & rest & H1 & _ & H3 & H4 & _); [vm_compute; discriminate|].
    split; [|split; [vm_compute; reflexivity|exact H4]].
    fold s in H3. rewrite H3.
    assert (Seconds.scheduledStartTime b = Seconds.bufferTime) as ->.
    { assert (Some b = Some {| Seconds.node := 0%nat;
                               Seconds.scheduledStartTime := Seconds.bufferTime;
                               Seconds.duration := Seconds.third |}) as Hb.
      { assert (Seconds.scheduled s !! 0%nat = Some b) as <-
          by (subst s; by rewrite H1).
        vm_compute. reflexivity. }
      by injection Hb as ->. }
    reflexivity.
Defined.

(** X5 at a pause by a click while streaming. *)
Lemma idle_scheduler_is_reset_witness :
  playbackState pausedByClick = paused /\ nextStartTime pausedByClick = 0.
Proof.
  assert (playbackState pausedByClick = paused) as Hp
    by (vm_compute; reflexivity).
  destruct (idle_scheduler_is_reset pausedByClick) as (H & _).
  - apply reachable_run, reachable_run, reachable_run, reachable_initial.
  - split; [exact Hp|]. apply H. by left.
Defined.

(** X6 at the buffer scheduled while streaming. *)
Lemma pause_detaches_scheduled_buffers_witness :
  length (scheduled streaming) = 1%nat /\
  Forall (fun b => (node b < outputNode (pause accepting streaming))%nat)
    (scheduled (pause accepting streaming)) /\
  Forall (fun b => (node b <= outputNode streaming)%nat) (scheduled streaming).
Proof.
  destruct (pause_detaches_scheduled_buffers accepting streaming)
    as (H1 & H2 & _).
  - apply reachable_run, reachable_run, reachable_initial.
  - split; [vm_compute; reflexivity|]. split; [exact H2|exact H1].
Defined.


(** X8 at a set-up notice that arrives after the connection was lost. *)
Lemma error_flag_cleared_only_by_setup_notice_witness :
  connectionError disconnected = true /\
  deliversSetup (EvMessage 0 setupNotice) /\
  connectionError (onmessage 0 setupNotice disconnected) = false /\
  requested (onmessage 0 setupNotice disconnected)
    = requested disconnected ++ [SetSessionDrumMix].
Proof.
  assert (connectionError disconnected = true) as He
    by (vm_compute; reflexivity).
  destruct (error_flag_cleared_only_by_setup_notice
              (EvMessage 0 setupNotice) disconnected He) as (H1 & H2).
  destruct (H2 0 setupNotice eq_refl) as (H3 & H4).
  split; [exact He|]. split; [exact (H1 H3)|]. split; [exact H3|exact H4].
Defined.

(** X9 at a filtered-prompt notice that arrives while streaming. *)
Lemma filtered_notice_does_not_interrupt_witness :
  view (onmessage 200000 filteredNotice streaming) =
  view (onmessage 200000 (withoutNotice filteredNotice) streaming) /\
  toasts (onmessage 200000 filteredNotice streaming) =
  toasts (onmessage 200000 (withoutNotice filteredNotice) streaming)
    ++ ["Prompt filtered"].
Proof.
  destruct (filtered_notice_does_not_interrupt 200000 filteredNotice
              {| filteredText := "Thrash"; filteredReason := "Prompt filtered" |}
              streaming eq_refl) as (H1 & _ & _ & _ & _ & _ & _ & _ & H9).
  split; [exact H1|exact H9].
Defined.

(** X10 at a knob turn on the stored prompt, and at an edit of a prompt that
    is not in the map. *)
Lemma prompt_edit_updates_one_entry_witness :
  let turn := {| promptId := "prompt-0"; text := "Bossa Nova";
                 weight := 0.5%Q; cc := 0; color := "" |} in
  let stray := {| promptId := "prompt-9"; text := "Dubstep";
                  weight := 1; cc := 9; color := "" |} in
  handlePromptChanged stray started = started /\
  map_get "prompt-0" (prompts (handlePromptChanged turn started)) =
    Some {| promptId := "prompt-0"; text := "Bossa Nova"; weight := 0.5%Q;
            cc := 0; color := "#9900ff" |} /\
  requested (handlePromptChanged turn started) =
    requested started ++ [SetSessionPrompts].
Proof.
  intros turn stray.
  destruct (prompt_edit_updates_one_entry stray started) as (H1 & _).
  destruct (prompt_edit_updates_one_entry turn started) as (_ & H2).
  destruct (H2 bossa eq_refl) as (_ & G2 & _ & G4 & _).
  split; [apply H1; reflexivity|]. split; [exact G2|exact G4].
Defined.

(** X11 at the only prompt turned down to 0: nothing is left to push. *)
Lemma active_prompts_after_edit_witness :
  distinctKeys (prompts (handlePromptChanged silent started)) /\
  getPromptsToSend started = [bossa] /\
  forall q,
    q ∈ getPromptsToSend (handlePromptChanged silent started) <->
    exists k, k <> "prompt-0" /\
              map_get k (prompts started) = Some q /\
              ~ (weight q == 0)%Q /\ text q ∉ filteredPrompts started.
Proof.
  destruct (active_prompts_after_edit silent bossa started)
    as (H1 & _ & H3 & _).
  - exact started_distinctKeys.
  - reflexivity.
  - split; [exact H1|]. split; [vm_compute; reflexivity|].
    apply H3. reflexivity.
Defined.

(** X12 at the first three prompts picked. *)
Lemma fresh_start_has_one_active_prompt_per_pick_witness :
  length (buildDefaultPrompts [0; 1; 2]%nat) = 16%nat /\
  length (getPromptsToSend (resetAll [0; 1; 2]%nat started)) = 3%nat.
Proof.
  destruct (fresh_start_has_one_active_prompt_per_pick [0; 1; 2]%nat started)
    as (H1 & _ & _ & _ & H5).
  split; [exact H1|]. apply H5.
  - apply (NoDup_seq 0 3).
  - intros i Hi. in_list Hi; subst i; lia.
  - intros d _.
    assert (filteredPrompts started = ∅) as -> by (vm_compute; reflexivity).
    apply not_elem_of_empty.
Defined.

(** X13 at a click while streaming and a click after a pause. *)
Lemma play_pause_button_witness :
  playbackState (handlePlayPause accepting (Connected 1 []) streaming)
    = paused /\
  sent (handlePlayPause accepting (Connected 1 []) streaming)
    = sent streaming ++ [CmdPause] /\
  playbackState (handlePlayPause accepting (Connected 1 []) pausedByClick)
    = loading /\
  sent (handlePlayPause accepting (Connected 1 []) pausedByClick)
    = sent pausedByClick ++ [CmdPlay].
Proof.
  destruct (play_pause_button accepting (Connected 1 []) streaming)
    as (H1 & _ & _).
  destruct (play_pause_button accepting (Connected 1 []) pausedByClick)
    as (_ & _ & H3).
  destruct H1 as (P1 & _ & P3); [vm_compute; reflexivity|].
  destruct H3 as (Q1 & Q2 & _).
  - left. vm_compute. reflexivity.
  - vm_compute. reflexivity.
  - vm_compute. discriminate.
  - split; [exact P1|]. split; [exact P3|]. split; [exact Q1|exact Q2].
Defined.

(** X14 at a drag that goes up by 50 pixels and comes back. *)
Lemma knob_value_stays_in_range_witness :
  let dragged :=
    fold_left (fun k y => (WeightKnob.handlePointerMove y k).1) [90; 50]%Q
      (WeightKnob.handlePointerDown 100 knobAtOne) in
  (WeightKnob.value dragged == 1.75)%Q /\
  ((WeightKnob.handlePointerMove 100 dragged).2 == 1)%Q.
Proof.
  intros dragged.
  destruct (knob_value_stays_in_range knobAtOne 100 [90; 50]%Q 100 0)
    as (_ & _ & _ & _ & _ & H).
  split; [vm_compute; reflexivity|]. apply H.
  - split; vm_compute; discriminate.
  - reflexivity.
Defined.

(** X15 at a control change with the largest value on the bound number. *)
Lemma control_change_routing_witness :
  let r := PromptController.onCcMessage (ControlChange.mk 0 0 127)
             bossaController in
  (0 <= PromptController.weight r.1 <= 2)%Q /\
  (PromptController.weight r.1 == 2)%Q /\
  PromptController.onCcMessage (ControlChange.mk 0 7 127) bossaController
    = (bossaController, None).
Proof.
  intros r.
  destruct (control_change_routing (ControlChange.mk 0 0 127) bossaController)
    as (_ & _ & H3 & _).
  destruct (control_change_routing (ControlChange.mk 0 7 127) bossaController)
    as (_ & H2 & _).
  destruct (H3 eq_refl eq_refl) as (_ & _ & _ & H).
  destruct H as (R1 & _ & R3); [simpl; lia|].
  split; [exact R1|]. split; [by apply R3|].
  apply H2; [reflexivity|discriminate].
Defined.

(** X16 at a control change that turns the only prompt down to 0. *)
Lemma control_change_reaches_the_push_witness :
  exists d,
    (PromptController.onCcMessage (ControlChange.mk 0 0 0)
       (renderPrompt bossa false bossaController)).2 = Some d /\
    requested (handlePromptChanged d started)
      = requested started ++ [SetSessionPrompts] /\
    forall q, q ∈ getPromptsToSend (handlePromptChanged d started) ->
      exists k, k <> "prompt-0" /\ map_get k (prompts started) = Some q.
Proof.
  destruct (control_change_reaches_the_push (ControlChange.mk 0 0 0) bossa
              false bossaController started) as (d & H1 & _ & H3 & H4 & _).
  - exact started_distinctKeys.
  - reflexivity.
  - reflexivity.
  - reflexivity.
  - simpl. lia.
  - exists d. split; [exact H1|]. split; [exact H3|]. exact (H4 eq_refl).
Defined.

(** X17 at the kick slider moved to 0.9 on the default mix. *)
Lemma slider_move_reaches_the_push_witness :
  let mix' := DrumMixer.handleStemChange 0.9%Q "KICK"
                (drumMixSettings started) in
  normalizeDrumMix mix' !! "KICK" = Some 0.9%Q /\
  complete mix' /\
  requested (handleDrumMixChanged mix' started)
    = requested started ++ [SetSessionDrumMix].
Proof.
  intros mix'.
  destruct (slider_move_reaches_the_push 0.9%Q "KICK" started)
    as (_ & H2 & _ & H4 & _ & H6).
  - unfold DRUM_STEM_TYPES. constructor.
  - split; [exact H4|]. split; [|exact H2].
    apply H6. exact default_drum_mix_complete.
Defined.

(** X18 at a mix that only has a value for the kick. *)
Lemma drum_mix_normalisation_witness :
  normalizeDrumMix {[ "KICK" := 0.9%Q ]} !! "SNARE" = Some 0.0%Q /\
  DrumMixer.shown {[ "KICK" := 0.9%Q ]} "SNARE" = 0.5%Q.
Proof.
  destruct (drum_mix_normalisation {[ "KICK" := 0.9%Q ]}) as (_ & _ & H).
  apply (H "SNARE").
  - unfold DRUM_STEM_TYPES. constructor. constructor.
  - reflexivity.
Defined.

(** X19 at two slider moves with a message in between. *)
Lemma drum_mix_setting_stays_complete_witness :
  let ps := [("prompt-0", bossa)] in
  let mix1 := DrumMixer.handleStemChange 0.9%Q "KICK"
                (drumMixSettings (initial ps)) in
  let mix2 := DrumMixer.handleStemChange 0.3%Q "SNARE" mix1 in
  let s := run [ EvDrumMixChanged mix1; EvMessage 0 setupNotice;
                 EvDrumMixChanged mix2 ] (initial ps) in
  complete (drumMixSettings s) /\
  normalizeDrumMix (drumMixSettings s) !! "KICK" = drumMixSettings s !! "KICK".
Proof.
  intros ps mix1 mix2 s.
  destruct (drum_mix_setting_stays_complete ps
              [ EvDrumMixChanged mix1; EvMessage 0 setupNotice;
                EvDrumMixChanged mix2 ]) as (H1 & H2).
  - repeat split.
    + by exists 0.9%Q, "KICK".
    + by exists 0.3%Q, "SNARE".
  - split; [exact H1|]. apply H2. unfold DRUM_STEM_TYPES. constructor.
Defined.

(** X20 at the kick slider put at 70. *)
Lemma slider_position_round_trip_witness :
  let r := DrumStemSlider.handleInput 70 kickSlider in
  DrumStemSlider.position r.1 = 70%Z /\
  (0 <= DrumStemSlider.value r.1 <= 1)%Q.
Proof.
  intros r.
  destruct (slider_position_round_trip 70 kickSlider DEFAULT_DRUM_MIX_SETTINGS)
    as (_ & H2 & _ & H4).
  split; [exact H2|]. apply H4. lia.
Defined.

(** X21 at a third message shown while the second is up. *)
Lemma toast_is_hidden_by_its_own_timer_only_witness :
  let t := ToastMessage.after
             [ ToastMessage.Show "first" 3000; ToastMessage.Show "second" 3000 ]
             ToastMessage.initial in
  let t' := ToastMessage.show "third" 3000 t in
  ToastMessage.nextHandle t = 3%positive /\
  ToastMessage.timeoutFired 2 t' = t' /\
  ToastMessage.showing (ToastMessage.timeoutFired 3 t') = false.
Proof.
  intros t t'.
  destruct (toast_is_hidden_by_its_own_timer_only
              [ ToastMessage.Show "first" 3000; ToastMessage.Show "second" 3000 ]
              "third" 3000) as (_ & _ & _ & _ & _ & H6 & H7).
  split; [reflexivity|]. split.
  - apply H6. discriminate.
  - apply H7. lia.
Defined.

(** X22 at the knob of the only prompt dragged down to 0. *)
Lemma knob_turn_reaches_the_push_witness :
  let turned := WeightKnob.handlePointerMove 100 knobAtOne in
  (turned.2 == 0)%Q /\
  forall q,
    q ∈ getPromptsToSend
          (handlePromptChanged
             (PromptController.updateWeight turned.1
                (renderPrompt bossa false bossaController)).2 started) ->
    exists k', k' <> "prompt-0" /\ map_get k' (prompts started) = Some q.
Proof.
  intros turned.
  destruct (knob_turn_reaches_the_push knobAtOne 100 0 false bossa false
              bossaController started) as (_ & _ & _ & _ & H5 & _).
  - exact started_distinctKeys.
  - reflexivity.
  - assert (turned.2 == 0)%Q as H0 by (vm_compute; reflexivity).
    split; [exact H0|]. exact (H5 H0).
Defined.

(** X23 at the only prompt linked to controller number 7. *)
Lemma midi_learn_binds_controller_witness :
  let learning :=
    PromptController.toggleLearnMode (renderPrompt bossa true bossaController) in
  let r := PromptController.onCcMessage (ControlChange.mk 0 7 64) learning in
  PromptController.cc r.1 = 7%Z /\
  PromptController.learnMode r.1 = false /\
  PromptController.onCcMessage (ControlChange.mk 0 0 64) r.1 = (r.1, None).
Proof.
  intros learning r.
  destruct (midi_learn_binds_controller (ControlChange.mk 0 7 64) bossa
              bossaController started) as (_ & _ & H3 & H4 & _ & _ & H7 & _).
  - reflexivity.
  - reflexivity.
  - split; [exact H4|]. split; [exact H3|]. apply H7. discriminate.
Defined.
